(* ===== verification/_CoqProject ===== *)
-Q . S2P
Prelude.v
Models.v
Base64.v
Jwt.v
Store.v
Sql.v
Driver.v
QueryBuilder.v
TaskHandlers.v
Safety.v
Auth.v
Config.v
Api.v
Envelope.v
Startup.v
Concurrency.v
