(* ===== verification/Prelude.v ===== *)
(** * TaskFlow API: a verification development of [taskflow-api]

    ** The program

    [taskflow-api] is a Go (Gin + PostgreSQL) HTTP service:

    - [src/cmd/api/main.go] loads the configuration, connects to the
      database, and registers on [gin.Default()] the health check, the
      account routes ([/api/v1/auth/register], [/login], and [/profile]
      behind [AuthMiddleware]) and the seven task routes of the group
      [/api/v1/tasks], which uses [AuthMiddleware];
    - [src/internal/config/config.go]: [Load] and [getEnv] (the JWT secret,
      with a default written in the source);
    - [src/internal/middleware/auth_middleware.go]: the bearer-token gate:
      [strings.Split] of the header, [jwt.Parse] with an HMAC-only key
      function, the [user_id] claim, an existence query, [c.Set];
    - [src/internal/handlers/auth_handler.go]: [Register] (e-mail check,
      bcrypt, insert), [Login] (HS256 token with [exp] 24 hours on),
      [GetProfile];
    - [src/internal/handlers/task_handler.go]: [CreateTask], [GetTasks],
      [GetTask], [UpdateTask], [DeleteTask], [ToggleComplete], [GetStats];
      [GetTasks] and [UpdateTask] build their SQL text at run time, one
      predicate or assignment per present input, numbering placeholders
      with [strconv.Itoa];
    - [src/internal/models/*.go]: the structs with their JSON and binding
      tags; [src/internal/utils/password.go]: bcrypt.

    Every handler talks to PostgreSQL only through [QueryRow], [Query] and
    [Exec] with a SQL text and bound arguments; the gate hands the
    handlers the owner id through the gin context.

    ** The files (in dependency order)

    - [Prelude] (this file): the scope [tf_scope] (the [sbind] notation
      [let?], string append [+:+]), the hint and rewrite databases
      [taskflow] and [tf_rw], [strconv.Itoa], Go's [strings.Split] on one
      character ([str_split]) with its join/split lemmas, list lemmas.
    - [Models]: one Module per struct; JSON decoding of pointer fields
      ([null] and absent both nil); the [binding:] validation; the response
      envelope of [utils] (not under [src/]: modelled from the spec).
      [Time] is an instant in nanoseconds.
    - [Base64]: [encoding/base64] [RawURLEncoding] on bytes (the segment
      codec of JWT): [EncodeToString] and the non-strict [DecodeString].
    - [Jwt]: golang-jwt v5 on the path the program uses: [SignedString]
      ([NewWithClaims] with HS256) and [Parse] (three segments, header
      lookup of the signing method, key function, [Verify], the default
      [exp]/[nbf] validation at one-second precision).  JSON and HMAC-SHA2
      are the interfaces [JsonCodec] and [HmacHash].
    - [Store]: the database: [users] and [tasks] as [gmap]s with their
      serial sequences, and the invariant [db_wf] (rows under their own
      key below the sequence, unique e-mails, sequences within
      [integer]); the schema is not in the sources and is modelled from
      what the SQL presupposes and the spec.
    - [Sql]: every SQL text of the program as a statement syntax whose
      [render_stmt] prints exactly the Go strings, a parser for that finite
      language, and an evaluator standing for PostgreSQL (text parameters
      read as integers, [ILIKE] with [%], [_] and backslash, [ORDER BY],
      [COUNT], the unique and [integer] range errors).
    - [Driver]: the request monad [M] (state passing of an [Env]: the
      database, the request instant, a connection-fault oracle with one
      flag per statement), the interface [SqlDriver] the handlers are
      proved against (its law: on a rendered statement it is the
      evaluator; [pg_driver] is the instance), [exec] and [Scan].
    - [QueryBuilder]: the two dynamic builders as the Go code writes them,
      and their refinement to the statement syntax.
    - [TaskHandlers]: the seven task handlers in [M], each on every branch.
    - [Safety]: the task routes ([task_route]) and the relation [guarded]
      (invariant kept, other owners' tasks and [users] untouched) that
      every task route respects under any fault.
    - [Auth]: [PasswordHasher] (bcrypt's laws, 72-byte limit) and
      [EmailSyntax] interfaces; the validation of the account structs;
      [AuthMiddleware] with its outcome [GateResult] (next, abort, panic);
      [Register] (split at its two statements into [register_check] and
      [register_insert]), [Login], [GetProfile].
    - [Config]: [Load], [getEnv] and [godotenv.Load] over the process
      environment, and [env_setting], the precedence [godotenv] documents,
      which [Load] is proved to follow.
    - [Api]: the route table of [main.go], gin's lookup (static segment
      before parameter, trailing-slash redirect, [404]), the middleware
      chain with [Recovery], one request [serve], the step relation
      [server_step] on the database, [reachable] from empty tables and
      [server_steps] from any database.
    - [Envelope]: the predicate transformer [returns] on results of the
      monad, and the status taxonomy of every reply.
    - [Startup]: [database.Connect] and the start of [main] ([log.Fatal]
      on an [Open], [Ping] or [Run] error, given as arguments), the lines
      logged before serving (the banner's documented endpoints are routes
      of the router), and the server a started process runs.
    - [Concurrency]: requests served at once over the shared database.
      Every handler, the gate, the middleware chain and the router become
      programs of the free monad [Prog] of their statements ([PExec], and
      [PNow] for [time.Now()]); [interp] runs one in [M], and the program
      of a request is proved to be [serve] once run.  A pool of requests
      in flight steps by [cstep], one statement of one request at a time
      (PostgreSQL's per-statement atomicity), against [sstep], which
      serves one whole request.

    [Jwt], [Auth] and [Api] end with example instances of their
    interfaces (a JSON codec
    on escaped text, a checksum MAC with HMAC's digest sizes, a bcrypt
    that keeps the password behind its prefix, an e-mail syntax asking
    for ['@'], a body decoder on the example JSON) and a sample database:
    they serve the witnesses, which evaluate the model by [vm_compute];
    the theorems hold for every instance.

    ** What the theorems show (claim ids of the manifest)

    - Authorization and isolation, end to end: C1 (a served request
      changes the tasks of owner [v] only with a token [jwt.Parse]
      accepts for [v]), C2 (every task route
      leaves other owners' tasks and [users] untouched and keeps the
      invariant under any fault), C4 and C6 (what the gate checks, and
      the [401] without change for every unauthenticated request to a
      gated route), C5 (the split-based header check equals the
      spec's [Bearer <token>] format), C8 and C9 (soundness of [Parse], and that a token
      [SignedString] issues parses back exactly when [exp]/[nbf] allow).
    - The server's invariants and progress, by induction on
      [reachable] or [server_steps]: C3 (every reachable database is well
      formed: rows under their serial id, ids and sequences within
      [integer], e-mails unique), C26 ([users]
      only grows), C27 (a registered account can always log in).
    - The envelope: C7 (every reply is in the spec's status taxonomy,
      with the success flag and payload that go with its code; in
      [Envelope]).
    - The query builders: C11 and C12 (the text built by concatenation is
      the rendering of the abstract statement, arguments in order), C13
      (no request value reaches the SQL text).
    - Each handler on every branch: C10 (update refines the abstract
      partial update), C16-C21 (listing, create, toggle, get, delete,
      statistics), C22-C25 (login, the lifetime of its token, register,
      profile).
    - Concurrency, in [Concurrency]: C14 (the server is serializable: every interleaving of
      requests other than registrations and statistics is a run of whole
      requests), C15 (concurrent toggles lose no update).
    - Configuration: C29 (each setting of [config.Load]: the
      environment's variable when present, even empty, else the [.env]
      file's, else the default).
    - Findings (divergences and bugs shown by theorems): C28 (the default
      secret lets anyone mint tokens; by C29 an exported empty
      [JWT_SECRET] selects it even when [.env] sets one), C30 (the signature text is
      malleable: non-strict base64), C31 (two concurrent registrations:
      [500] instead of [409]), C32 (the five counts of [GetStats] are
      not a snapshot: a concurrent toggle unbalances them), C33 (tokens expire up to a second early),
      C34 (passwords over 72 bytes pass validation, then [500]), C35 (a failed count reported
      as [0] with [200]), C36 (the search term is not escaped),
      C37 ([null] cannot clear a
      field), and C25 (a failed connection in [GetProfile] is a [404]).

    ** Bounds, fuel, termination

    Every definition of the model is structural recursion (Base64 by
    groups of three with its own induction principle [list3_ind]), so
    every handler, [Parse] and [serve] are total functions; no fuel is
    involved.  The example JSON decoder of [Jwt] takes fuel, the length of
    its input, which is proved enough for its round trip.  Machine
    integers appear where the program's behaviour depends on them: the
    [integer] columns ([int4_max]) bound the serial sequences and the
    integer parameters.

    ** Not modelled

    - The outcomes of [sql.Open], [Ping] and [router.Run] (taken as
      arguments of [startup]), the per-request log of [gin.Logger], and
      the socket: I/O around serving, with no effect on a request's
      outcome.  What [main] logs before serving is [startup_log].
    - Inside the libraries: the bcrypt and SHA-2 functions, the JSON text
      format and the e-mail regular expression are interfaces with the
      laws the program relies on; gin's tree is modelled by its lookup
      result for this table, not its data structure; gin's automatic
      [HEAD]/[OPTIONS] handling and [RedirectFixedPath] (off by default)
      are not modelled.
    - PostgreSQL's sequences advance even when an [INSERT] then fails on
      the unique e-mail; the model's errors leave the database as it was,
      so after a failed registration its next id can be lower than
      PostgreSQL's; modelling it would give failed statements a database
      of their own, in every proof.
    - Interleavings are modelled at the grain of PostgreSQL statements
      ([Concurrency]); what PostgreSQL does inside a statement under
      concurrency (row locks, [READ COMMITTED] re-evaluation of an
      [UPDATE]'s row) is the statement's atomic effect.  The serial
      semantics [sstep] is checked against interleavings for the requests
      of the shape [reads_then_one]; [Register]'s interleavings are shown
      by [Auth.Register_race] on its two statements. *)

From stdpp Require Export base strings list gmap sorting.
From Stdlib Require Import DecimalString DecimalNat Ascii.

Declare Scope tf_scope.
Delimit Scope tf_scope with tf.

Create HintDb taskflow.
Create Rewrite HintDb tf_rw.

(** ** [strconv.Itoa] on the non-negative counters of the builders *)

Definition itoa (n : nat) : string :=
  NilEmpty.string_of_uint (Nat.to_uint n).

Lemma itoa_inj n m : itoa n = itoa m -> n = m.
Proof.
  unfold itoa. intros H.
  apply (f_equal NilEmpty.uint_of_string) in H.
  rewrite !NilEmpty.usu in H. injection H as H.
  by apply Unsigned.to_uint_inj.
Qed.

(** ** Strings *)

(** stdpp declares [String.append] [simpl never]; its two equations. *)
Lemma str_app_nil_l (b : string) : "" +:+ b = b.
Proof. reflexivity. Qed.

Lemma str_app_cons x (a b : string) : String x a +:+ b = String x (a +:+ b).
Proof. reflexivity. Qed.

#[export] Hint Rewrite str_app_nil_l str_app_cons : tf_rw.

Lemma str_app_assoc (a b c : string) : (a +:+ b) +:+ c = a +:+ (b +:+ c).
Proof. induction a as [|x a IH]; [reflexivity | rewrite !str_app_cons; congruence]. Qed.

Lemma str_app_nil_r (a : string) : a +:+ "" = a.
Proof. induction a as [|x a IH]; [reflexivity | rewrite !str_app_cons; congruence]. Qed.

Lemma str_app_inv_l (p a b : string) : p +:+ a = p +:+ b -> a = b.
Proof.
  induction p as [|x p IH]; [done|].
  rewrite !str_app_cons. intros H. injection H. auto.
Qed.

#[export] Hint Rewrite str_app_assoc str_app_nil_r : tf_rw.

(** Newline and tab, for the SQL text of Go raw strings. *)
Definition nl : string := String (Ascii.ascii_of_nat 10) EmptyString.
Definition tab : string := String (Ascii.ascii_of_nat 9) EmptyString.

(** ASCII lower-casing, used by [ILIKE]. *)
Definition ascii_lower (c : ascii) : ascii :=
  let n := Ascii.nat_of_ascii c in
  if (65 <=? n)%nat && (n <=? 90)%nat then Ascii.ascii_of_nat (n + 32) else c.

Fixpoint str_lower (s : string) : string :=
  match s with
  | EmptyString => EmptyString
  | String c s' => String (ascii_lower c) (str_lower s')
  end.

Lemma str_lower_app a b : str_lower (a +:+ b) = str_lower a +:+ str_lower b.
Proof. induction a as [|x a IH]; [reflexivity | rewrite str_app_cons; simpl; rewrite str_app_cons; congruence]. Qed.

#[export] Hint Rewrite str_lower_app : tf_rw.

(** ** Lists: the ordered sub-lists of a list *)

(** [sublists l] lists every sub-list of [l] that keeps the order of [l]:
    the shapes of the statements the dynamic builders can produce. *)
Fixpoint sublists {A} (l : list A) : list (list A) :=
  match l with
  | [] => [[]]
  | x :: l' => let r := sublists l' in map (cons x) r ++ r
  end.

Lemma filter_in_sublists {A} (P : A -> Prop) `{!forall x, Decision (P x)} (l : list A) :
  filter P l ∈ sublists l.
Proof.
  induction l as [|x l IH]; simpl; [set_solver|].
  rewrite filter_cons. case_decide.
  - apply elem_of_app. left. by apply list_elem_of_fmap_2.
  - apply elem_of_app. by right.
Qed.

#[export] Hint Resolve filter_in_sublists : taskflow.

(** Overwriting the [i]-th element changes the number of elements a
    boolean test accepts by the tests of the old and the new element. *)
Lemma length_filter_insert {A} (f : A -> bool) (l : list A) i x y :
  l !! i = Some y ->
  (length (List.filter f (<[i := x]> l)) + (if f y then 1 else 0) =
   length (List.filter f l) + (if f x then 1 else 0))%nat.
Proof.
  revert i. induction l as [|z l IH]; intros [|i] Hi; simplify_eq/=.
  - destruct (f x), (f y); simpl; lia.
  - specialize (IH i Hi). destruct (f z); simpl; lia.
Qed.

(** ** Fallible computations: [E + A], [inl] the error *)

Definition sbind {E A B} (m : E + A) (f : A -> E + B) : E + B :=
  match m with inl e => inl e | inr a => f a end.

Notation "'let?' x ':=' m 'in' k" := (sbind m (fun x => k))
  (at level 10, x pattern, m at level 100, k at level 200) : tf_scope.

Lemma sbind_inr {E A B} (a : A) (f : A -> E + B) : sbind (inr a) f = f a.
Proof. reflexivity. Qed.

Lemma sbind_inl {E A B} (e : E) (f : A -> E + B) : sbind (inl e) f = inl e.
Proof. reflexivity. Qed.

Lemma sbind_inr_inv {E A B} (m : E + A) (f : A -> E + B) b :
  sbind m f = inr b -> exists a, m = inr a /\ f a = inr b.
Proof. destruct m; simpl; [discriminate | eauto]. Qed.

#[export] Hint Rewrite @sbind_inr @sbind_inl : tf_rw.

Lemma str_length_app (a b : string) :
  String.length (a +:+ b) = (String.length a + String.length b)%nat.
Proof. induction a as [|x a IH]; [reflexivity|]. rewrite str_app_cons. simpl. by rewrite IH. Qed.

(** ** [strings.Split(s, sep)] for a one-character separator

    [n] occurrences of [sep] give [n + 1] pieces; [""] gives [[""]]. *)

Fixpoint str_split (sep : ascii) (s : string) : list string :=
  match s with
  | EmptyString => [""]
  | String c s' =>
      if Ascii.eqb c sep then "" :: str_split sep s'
      else match str_split sep s' with
           | [] => [String c ""]
           | w :: ws => String c w :: ws
           end
  end.

(** [c] does not occur in [s]. *)
Fixpoint str_free (c : ascii) (s : string) : bool :=
  match s with
  | EmptyString => true
  | String d s' => negb (Ascii.eqb d c) && str_free c s'
  end.

Lemma str_split_free sep s : str_free sep s = true -> str_split sep s = [s].
Proof.
  induction s as [|c s IH]; [done|]. simpl. intros [Hc Hs]%andb_prop.
  apply negb_true_iff in Hc. rewrite Hc, IH by done. done.
Qed.

Lemma str_split_app sep a b :
  str_free sep a = true -> str_split sep (a +:+ String sep b) = a :: str_split sep b.
Proof.
  induction a as [|c a IH]; simpl.
  - intros _. by rewrite Ascii.eqb_refl.
  - intros [Hc Ha]%andb_prop. apply negb_true_iff in Hc. rewrite Hc, IH by done. done.
Qed.

Lemma str_split_nonempty sep s : str_split sep s <> [].
Proof. destruct s as [|c s]; simpl; [done|]. repeat case_match; done. Qed.

(** The pieces of a split contain no separator, and joining them back
    with the separator gives the string. *)
Fixpoint str_join (sep : ascii) (l : list string) : string :=
  match l with
  | [] => ""
  | [w] => w
  | w :: l' => w +:+ String sep (str_join sep l')
  end.

Lemma str_join_split sep s : str_join sep (str_split sep s) = s.
Proof.
  induction s as [|c s IH]; [done|]. simpl.
  destruct (Ascii.eqb c sep) eqn:E.
  - apply Ascii.eqb_eq in E as ->. destruct (str_split sep s) eqn:Es; [by apply str_split_nonempty in Es|].
    simpl. by rewrite <-IH.
  - destruct (str_split sep s) as [|w ws] eqn:Es; [by apply str_split_nonempty in Es|].
    destruct ws; simpl in *; rewrite ?str_app_cons; congruence.
Qed.

Lemma str_split_free_pieces sep s : Forall (fun w => str_free sep w = true) (str_split sep s).
Proof.
  induction s as [|c s IH]; simpl; [by repeat constructor|].
  destruct (Ascii.eqb c sep) eqn:E; [by constructor|].
  destruct (str_split sep s) as [|w ws]; [by repeat constructor; simpl; rewrite E|].
  inversion_clear IH. constructor; [|done]. simpl. by rewrite E.
Qed.

Lemma str_free_app c a b : str_free c (a +:+ b) = str_free c a && str_free c b.
Proof. induction a as [|d a IH]; simpl; [done|]. by rewrite IH, andb_assoc. Qed.

(** [strings.CutPrefix]: the rest of [s] after the prefix [p]. *)
Fixpoint cut_prefix (p s : string) : option string :=
  match p, s with
  | EmptyString, _ => Some s
  | String c p', String d s' => if Ascii.eqb c d then cut_prefix p' s' else None
  | String _ _, EmptyString => None
  end.

Lemma cut_prefix_Some p s r : cut_prefix p s = Some r <-> s = p +:+ r.
Proof.
  revert s. induction p as [|c p IH]; intros s; simpl.
  - rewrite str_app_nil_l. split; congruence.
  - destruct s as [|d s]; [split; [done|by rewrite str_app_cons]|]. rewrite str_app_cons.
    destruct (Ascii.eqb_spec c d) as [<-|Hne].
    + rewrite IH. split; [by intros ->|by intros [= ->]].
    + split; [done|by intros [= -> _]].
Qed.

(** ** Tactics *)

(** Invert a hypothesis and clean up. *)
Ltac invc H := inversion H; subst; clear H.

(** Case analysis on the boolean and decidable tests of a goal. *)
Ltac tf_cases :=
  repeat first
    [ progress simplify_eq/=
    | case_decide
    | case_match ].
