(* ===== verification/Models.v ===== *)
(** * Models: the data of [src/internal/models]

    One Module per Go struct, with the struct's field names.  Go [int] is
    [Z], [time.Time] is an instant in nanoseconds in [Z] (the unit of
    [time.Duration]), [*T] is [option T].  The JSON decoding of pointer fields and
    the [binding:"..."] validation of gin are modelled here, because the
    tags that drive them are part of these structs.  The response envelope
    of [utils] (not under [src/]) is modelled from the spec. *)

From S2P Require Import Prelude.

Definition Time := Z.

(** ** [type Priority string], [type Category string] (task.go) *)

Definition Priority := string.
Definition PriorityHigh : Priority := "high".
Definition PriorityMedium : Priority := "medium".
Definition PriorityLow : Priority := "low".

Definition Category := string.
Definition CategoryPersonal : Category := "personal".
Definition CategoryWork : Category := "work".
Definition CategoryUrgent : Category := "urgent".

(** ** [type Task struct] *)

Module Task.
Record t := mk {
  ID : Z;
  UserID : Z;
  Title : string;
  Description : string;
  Priority : Models.Priority;
  Category : Models.Category;
  IsCompleted : bool;
  DueDate : option Time;
  CreatedAt : Time;
  UpdatedAt : Time
}.
End Task.

#[global] Instance Task_eq_dec : EqDecision Task.t.
Proof. solve_decision. Defined.

(** ** [type CreateTaskRequest struct] *)

Module CreateTaskRequest.
Record t := mk {
  Title : string;
  Description : string;
  Priority : Models.Priority;
  Category : Models.Category;
  DueDate : option Time
}.
End CreateTaskRequest.

(** ** [type UpdateTaskRequest struct]: every field a pointer *)

Module UpdateTaskRequest.
Record t := mk {
  Title : option string;
  Description : option string;
  Priority : option Models.Priority;
  Category : option Models.Category;
  IsCompleted : option bool;
  DueDate : option Time
}.
End UpdateTaskRequest.

(** ** [type TaskStats struct] *)

Module TaskStats.
Record t := mk {
  Total : Z;
  Completed : Z;
  Pending : Z;
  HighPriority : Z;
  Overdue : Z
}.
End TaskStats.

(** ** [type User struct] and the auth requests (user.go) *)

Module User.
Record t := mk {
  ID : Z;
  Name : string;
  Email : string;
  Password : string;
  CreatedAt : Time;
  UpdatedAt : Time
}.
End User.

#[global] Instance User_eq_dec : EqDecision User.t.
Proof. solve_decision. Defined.

Module RegisterRequest.
Record t := mk { Name : string; Email : string; Password : string }.
End RegisterRequest.

Module LoginRequest.
Record t := mk { Email : string; Password : string }.
End LoginRequest.

(** ** JSON decoding of a pointer field

    [encoding/json] leaves a pointer nil when the key is absent and sets it
    to nil when the value is [null]: the two cases cannot be told apart
    after decoding. *)

Inductive JSONField (A : Type) :=
| JAbsent
| JNull
| JValue (v : A).
Arguments JAbsent {A}.
Arguments JNull {A}.
Arguments JValue {A} v.

Definition decode_ptr {A} (f : JSONField A) : option A :=
  match f with
  | JValue v => Some v
  | JAbsent | JNull => None
  end.

(** The body of [PUT /tasks/:id] as the client sends it. *)
Module UpdateTaskBody.
Record t := mk {
  Title : JSONField string;
  Description : JSONField string;
  Priority : JSONField Models.Priority;
  Category : JSONField Models.Category;
  IsCompleted : JSONField bool;
  DueDate : JSONField Time
}.
End UpdateTaskBody.

Definition decode_update (b : UpdateTaskBody.t) : UpdateTaskRequest.t :=
  {| UpdateTaskRequest.Title := decode_ptr (UpdateTaskBody.Title b);
     UpdateTaskRequest.Description := decode_ptr (UpdateTaskBody.Description b);
     UpdateTaskRequest.Priority := decode_ptr (UpdateTaskBody.Priority b);
     UpdateTaskRequest.Category := decode_ptr (UpdateTaskBody.Category b);
     UpdateTaskRequest.IsCompleted := decode_ptr (UpdateTaskBody.IsCompleted b);
     UpdateTaskRequest.DueDate := decode_ptr (UpdateTaskBody.DueDate b) |}.

(** ** The [binding:] tags (go-playground/validator, as gin runs it)

    A failed tag is reported as [Key: 'S.F' Error:Field validation for 'F'
    failed on the 'tag' tag]; several failures are joined by newlines. *)

Record FieldError := { fe_struct : string; fe_field : string; fe_tag : string }.

Definition field_error_msg (e : FieldError) : string :=
  "Key: '" +:+ fe_struct e +:+ "." +:+ fe_field e +:+ "' Error:Field validation for '"
  +:+ fe_field e +:+ "' failed on the '" +:+ fe_tag e +:+ "' tag".

Fixpoint join_lines (l : list string) : string :=
  match l with
  | [] => ""
  | [s] => s
  | s :: l' => s +:+ nl +:+ join_lines l'
  end.

(** [required] on a string: not the zero value. *)
Definition tag_required (s : string) : bool := negb (bool_decide (s = "")).

(** [omitempty,oneof=a b c] on a string: empty, or one of the words. *)
Definition tag_omitempty_oneof (words : list string) (s : string) : bool :=
  bool_decide (s = "") || bool_decide (s ∈ words).

(** [omitempty,oneof=...] on a pointer: nil, or the pointee is one of the
    words (a non-nil pointer has a value, so [oneof] is checked). *)
Definition tag_ptr_oneof (words : list string) (p : option string) : bool :=
  match p with None => true | Some s => bool_decide (s ∈ words) end.

Definition priority_words : list string := ["high"; "medium"; "low"].
Definition category_words : list string := ["personal"; "work"; "urgent"].

Definition check (b : bool) (e : FieldError) : list FieldError :=
  if b then [] else [e].

Definition validate_create (r : CreateTaskRequest.t) : list FieldError :=
  check (tag_required (CreateTaskRequest.Title r))
        {| fe_struct := "CreateTaskRequest"; fe_field := "Title"; fe_tag := "required" |}
  ++ check (tag_omitempty_oneof priority_words (CreateTaskRequest.Priority r))
        {| fe_struct := "CreateTaskRequest"; fe_field := "Priority"; fe_tag := "oneof" |}
  ++ check (tag_omitempty_oneof category_words (CreateTaskRequest.Category r))
        {| fe_struct := "CreateTaskRequest"; fe_field := "Category"; fe_tag := "oneof" |}.

Definition validate_update (r : UpdateTaskRequest.t) : list FieldError :=
  check (tag_ptr_oneof priority_words (UpdateTaskRequest.Priority r))
        {| fe_struct := "UpdateTaskRequest"; fe_field := "Priority"; fe_tag := "oneof" |}
  ++ check (tag_ptr_oneof category_words (UpdateTaskRequest.Category r))
        {| fe_struct := "UpdateTaskRequest"; fe_field := "Category"; fe_tag := "oneof" |}.

(** [c.ShouldBindJSON(&req)]: the decoder's error (an [inl] body: bad
    JSON, wrong types) or the validation errors. *)
Definition should_bind {A} (validate : A -> list FieldError) (body : string + A)
  : string + A :=
  match body with
  | inl err => inl err
  | inr req =>
      match validate req with
      | [] => inr req
      | errs => inl (join_lines (map field_error_msg errs))
      end
  end.

(** ** HTTP status codes of [net/http] used by the handlers *)

Definition StatusOK : Z := 200.
Definition StatusCreated : Z := 201.
Definition StatusBadRequest : Z := 400.
Definition StatusUnauthorized : Z := 401.
Definition StatusNotFound : Z := 404.
Definition StatusConflict : Z := 409.
Definition StatusInternalServerError : Z := 500.

(** ** The response envelope of [utils.SuccessResponse] / [utils.ErrorResponse]

    [utils/response.go] is not among the sources: the envelope follows the
    spec (status code, success flag, message, payload). *)

Module LoginResponse.
Record t := mk { Token : string; User : User.t }.
End LoginResponse.

Inductive Payload :=
| PNone
| PTask (t : Task.t)
| PTasks (ts : list Task.t)
| PStats (s : TaskStats.t)
| PUser (u : User.t)
| PLogin (r : LoginResponse.t).

Record Response := mkResponse {
  Code : Z;
  Success : bool;
  Message : string;
  Data : Payload
}.

Definition ErrorResponse (code : Z) (msg : string) : Response :=
  {| Code := code; Success := false; Message := msg; Data := PNone |}.

Definition SuccessResponse (code : Z) (msg : string) (data : Payload) : Response :=
  {| Code := code; Success := true; Message := msg; Data := data |}.
