(* ===== verification/Base64.v ===== *)
(** * Base64: [encoding/base64] RawURLEncoding, as golang-jwt uses it

    golang-jwt encodes each segment of a token with
    [base64.RawURLEncoding.EncodeToString] and decodes it with
    [RawURLEncoding.DecodeString] (not [Strict()]: [Parser.DecodeSegment]
    turns strict mode on only when asked to).  The functions below follow
    the Go code ([encoding/base64/base64.go], [Encode] and
    [decodeQuantum]): three bytes make a 24-bit [val], cut into four 6-bit
    indices of the URL alphabet; a final group of one or two bytes gives
    two or three characters and no padding.  The decoder skips [\r] and
    [\n], rejects any other character outside the alphabet (['='] included:
    there is no padding character), rejects a final group of a single
    character, and, not being strict, ignores the low bits of the last
    character of a short final group.

    A byte string is a [string]; a byte is the [Z] of its character. *)

From S2P Require Import Prelude.
From Stdlib Require Import Ascii.

Local Open Scope Z_scope.

Definition encodeURL : string :=
  "ABCDEFGHIJKLMNOPQRSTUVWXYZabcdefghijklmnopqrstuvwxyz0123456789-_".

Definition byte_val (c : ascii) : Z := Z.of_N (N_of_ascii c).
Definition byte_chr (z : Z) : ascii := ascii_of_N (Z.to_N z).

(** [enc.encode[i]]. *)
Definition enc_char (i : Z) : ascii :=
  match String.get (Z.to_nat i) encodeURL with Some c => c | None => "A"%char end.

(** [enc.decodeMap[c]]: the index of [c] in the alphabet, [0xFF] (here
    [None]) when it is not there. *)
Fixpoint index_of (c : ascii) (s : string) (i : Z) : option Z :=
  match s with
  | EmptyString => None
  | String d s' => if Ascii.eqb c d then Some i else index_of c s' (i + 1)
  end.

Definition decode_map (c : ascii) : option Z := index_of c encodeURL 0.

(** ** [Encode] *)

(** The four indices [val>>18&0x3F], [val>>12&0x3F], [val>>6&0x3F],
    [val&0x3F] of a 24-bit group. *)
Definition quantum_idx (val : Z) : list Z :=
  [Z.land (Z.shiftr val 18) 63; Z.land (Z.shiftr val 12) 63;
   Z.land (Z.shiftr val 6) 63; Z.land val 63].

(** Full groups of three bytes, then the remainder of one or two bytes
    ([val] built from what is left, two or three indices, no padding). *)
Fixpoint encode_idx (src : list Z) : list Z :=
  match src with
  | b0 :: b1 :: b2 :: rest =>
      quantum_idx (Z.lor (Z.lor (Z.shiftl b0 16) (Z.shiftl b1 8)) b2) ++ encode_idx rest
  | [b0; b1] => take 3 (quantum_idx (Z.lor (Z.shiftl b0 16) (Z.shiftl b1 8)))
  | [b0] => take 2 (quantum_idx (Z.shiftl b0 16))
  | [] => []
  end.

Definition bytes_of (s : string) : list Z := map byte_val (String.list_ascii_of_string s).
Definition string_of_bytes (bs : list Z) : string := String.string_of_list_ascii (map byte_chr bs).

Definition EncodeToString (s : string) : string :=
  String.string_of_list_ascii (map enc_char (encode_idx (bytes_of s))).

(** ** [DecodeString] (not strict) *)

(** [byte(x)]: the low eight bits. *)
Definition to_byte (x : Z) : Z := Z.land x 255.

Definition dec_val (d0 d1 d2 d3 : Z) : Z :=
  Z.lor (Z.lor (Z.lor (Z.shiftl d0 18) (Z.shiftl d1 12)) (Z.shiftl d2 6)) d3.

(** One quantum per four indices; a final group of [dlen] indices, the
    missing ones zero, gives [dlen - 1] bytes. *)
Fixpoint decode_vals (ds : list Z) : option (list Z) :=
  match ds with
  | [] => Some []
  | [_] => None
  | [d0; d1] => Some [to_byte (Z.shiftr (dec_val d0 d1 0 0) 16)]
  | [d0; d1; d2] =>
      let val := dec_val d0 d1 d2 0 in
      Some [to_byte (Z.shiftr val 16); to_byte (Z.shiftr val 8)]
  | d0 :: d1 :: d2 :: d3 :: rest =>
      let val := dec_val d0 d1 d2 d3 in
      bs ← decode_vals rest;
      Some (to_byte (Z.shiftr val 16) :: to_byte (Z.shiftr val 8) :: to_byte val :: bs)
  end.

Definition is_newline (c : ascii) : bool :=
  Ascii.eqb c "010"%char || Ascii.eqb c "013"%char.

Definition decode_bytes (s : string) : option (list Z) :=
  ds ← mapM decode_map (filter (fun c => negb (is_newline c)) (String.list_ascii_of_string s));
  decode_vals ds.

Definition DecodeString (s : string) : option string :=
  bs ← decode_bytes s; Some (string_of_bytes bs).

(** ** Arithmetic of the 24-bit groups *)

Lemma lor_add_low a b k :
  0 <= k -> a mod 2^k = 0 -> 0 <= b < 2^k -> Z.lor a b = a + b.
Proof.
  intros Hk Ha Hb. rewrite <-Z.add_lor_land.
  enough (Z.land a b = 0) as -> by lia.
  apply Z.bits_inj_0. intros n. rewrite Z.land_spec.
  destruct (Z.lt_ge_cases n 0) as [Hn|Hn]; [by rewrite Z.testbit_neg_r|].
  destruct (Z.lt_ge_cases n k) as [Hnk|Hnk].
  - rewrite <-(Z.mod_pow2_bits_low a k n), Ha by lia. by rewrite Z.bits_0.
  - rewrite <-(Z.mod_small b (2^k)), Z.mod_pow2_bits_high by lia. apply andb_false_r.
Qed.

Lemma land_63 x : Z.land x 63 = x mod 64.
Proof. change 63 with (Z.ones 6). rewrite Z.land_ones by lia. reflexivity. Qed.

Lemma land_255 x : Z.land x 255 = x mod 256.
Proof. change 255 with (Z.ones 8). rewrite Z.land_ones by lia. reflexivity. Qed.

Ltac pow2_consts :=
  change (2^18) with 262144 in *; change (2^16) with 65536 in *;
  change (2^12) with 4096 in *; change (2^8) with 256 in *; change (2^6) with 64 in *.

Ltac div_lia := Z.div_mod_to_equations; lia.

Lemma dec_val_arith d0 d1 d2 d3 :
  0 <= d0 < 64 -> 0 <= d1 < 64 -> 0 <= d2 < 64 -> 0 <= d3 < 64 ->
  dec_val d0 d1 d2 d3 = d0 * 262144 + d1 * 4096 + d2 * 64 + d3.
Proof.
  intros. unfold dec_val. rewrite !Z.shiftl_mul_pow2 by lia. pow2_consts.
  rewrite (lor_add_low (d0 * 262144) (d1 * 4096) 18) by (simpl; div_lia).
  rewrite (lor_add_low _ (d2 * 64) 12) by (simpl; div_lia).
  rewrite (lor_add_low _ d3 6) by (simpl; div_lia).
  reflexivity.
Qed.

(** Cutting a 24-bit value into its four indices and gluing them back. *)
Lemma dec_val_split v :
  0 <= v < 16777216 ->
  dec_val (Z.land (Z.shiftr v 18) 63) (Z.land (Z.shiftr v 12) 63)
          (Z.land (Z.shiftr v 6) 63) (Z.land v 63) = v.
Proof.
  intros Hv. rewrite !Z.shiftr_div_pow2, !land_63 by lia. pow2_consts.
  rewrite dec_val_arith by div_lia. div_lia.
Qed.

Definition is_byte (b : Z) : Prop := 0 <= b < 256.

Lemma group_val b0 b1 b2 :
  is_byte b0 -> is_byte b1 -> is_byte b2 ->
  Z.lor (Z.lor (Z.shiftl b0 16) (Z.shiftl b1 8)) b2 = b0 * 65536 + b1 * 256 + b2.
Proof.
  unfold is_byte. intros. rewrite !Z.shiftl_mul_pow2 by lia. pow2_consts.
  rewrite (lor_add_low (b0 * 65536) (b1 * 256) 16) by (simpl; div_lia).
  rewrite (lor_add_low _ b2 8) by (simpl; div_lia). reflexivity.
Qed.

Lemma group_val2 b0 b1 :
  is_byte b0 -> is_byte b1 -> Z.lor (Z.shiftl b0 16) (Z.shiftl b1 8) = b0 * 65536 + b1 * 256.
Proof.
  unfold is_byte. intros. rewrite !Z.shiftl_mul_pow2 by lia. pow2_consts.
  apply (lor_add_low _ _ 16); simpl; div_lia.
Qed.

(** A property of the 64 characters of the alphabet, checked by computation. *)
Lemma enc_char_forall (P : Z -> ascii -> bool) :
  forallb (fun n => P (Z.of_nat n) (enc_char (Z.of_nat n))) (seq 0 64) = true ->
  forall i, 0 <= i < 64 -> P i (enc_char i) = true.
Proof.
  intros Hall i Hi. rewrite forallb_forall in Hall.
  specialize (Hall (Z.to_nat i) ltac:(apply in_seq; lia)).
  by rewrite Z2Nat.id in Hall by lia.
Qed.

Lemma enc_char_ok i :
  0 <= i < 64 -> decode_map (enc_char i) = Some i /\ is_newline (enc_char i) = false.
Proof.
  intros Hi.
  pose proof (enc_char_forall
    (fun n c => match decode_map c with Some m => Z.eqb m n | None => false end
                && negb (is_newline c))
    ltac:(vm_compute; reflexivity) i Hi) as [Hd Hn]%andb_prop.
  split; [|by apply negb_true_iff].
  destruct (decode_map _); [|done]. apply Z.eqb_eq in Hd. by subst.
Qed.

(** No character of the alphabet is ['.'] or [' ']. *)
Lemma enc_char_sep i :
  0 <= i < 64 -> Ascii.eqb (enc_char i) "."%char = false /\ Ascii.eqb (enc_char i) " "%char = false.
Proof.
  intros Hi.
  pose proof (enc_char_forall
    (fun _ c => negb (Ascii.eqb c "."%char) && negb (Ascii.eqb c " "%char))
    ltac:(vm_compute; reflexivity) i Hi) as [H1 H2]%andb_prop.
  split; by apply negb_true_iff.
Qed.

Lemma quantum_idx_bound val : Forall (fun i => 0 <= i < 64) (quantum_idx val).
Proof. repeat constructor; rewrite ?land_63; apply Z.mod_pos_bound; lia. Qed.

Lemma group_bytes b0 b1 b2 :
  is_byte b0 -> is_byte b1 -> is_byte b2 ->
  to_byte (Z.shiftr (b0 * 65536 + b1 * 256 + b2) 16) = b0 /\
  to_byte (Z.shiftr (b0 * 65536 + b1 * 256 + b2) 8) = b1 /\
  to_byte (b0 * 65536 + b1 * 256 + b2) = b2.
Proof.
  unfold is_byte, to_byte. intros. rewrite !land_255, !Z.shiftr_div_pow2 by lia.
  pow2_consts. split_and!; div_lia.
Qed.

(** ** Round trip *)

(** Induction three bytes at a time, as [Encode] walks its input. *)
Lemma list3_ind {A} (P : list A -> Prop) :
  P [] -> (forall a, P [a]) -> (forall a b, P [a; b]) ->
  (forall a b c l, P l -> P (a :: b :: c :: l)) -> forall l, P l.
Proof.
  intros H0 H1 H2 H3. fix IH 1.
  intros [|a [|b [|c l]]]; [exact H0 | apply H1 | apply H2 | apply H3, IH].
Qed.

Lemma encode_idx_bound bs : Forall (fun i => 0 <= i < 64) (encode_idx bs).
Proof.
  induction bs using list3_ind; cbn [encode_idx];
    [constructor | apply Forall_take, quantum_idx_bound | apply Forall_take, quantum_idx_bound
    | apply Forall_app_2; [apply quantum_idx_bound | done]].
Qed.

Lemma decode_chars ids :
  Forall (fun i => 0 <= i < 64) ids ->
  mapM decode_map (filter (fun c => negb (is_newline c)) (map enc_char ids)) = Some ids.
Proof.
  induction 1 as [|i ids Hi _ IH]; [done|].
  destruct (enc_char_ok i Hi) as [Hd Hn]. simpl. rewrite filter_cons, Hn. simpl.
  by rewrite Hd, IH.
Qed.

(** A short final group: the missing indices are zero, and so are the
    low bits of [val] they would carry. *)
Lemma dec_val_short2 v :
  0 <= v < 16777216 -> v mod 4096 = 0 ->
  dec_val (Z.land (Z.shiftr v 18) 63) (Z.land (Z.shiftr v 12) 63) 0 0 = v.
Proof.
  intros Hv Hm. rewrite !Z.shiftr_div_pow2, !land_63 by lia. pow2_consts.
  rewrite dec_val_arith by div_lia. div_lia.
Qed.

Lemma dec_val_short3 v :
  0 <= v < 16777216 -> v mod 64 = 0 ->
  dec_val (Z.land (Z.shiftr v 18) 63) (Z.land (Z.shiftr v 12) 63) (Z.land (Z.shiftr v 6) 63) 0 = v.
Proof.
  intros Hv Hm. rewrite !Z.shiftr_div_pow2, !land_63 by lia. pow2_consts.
  rewrite dec_val_arith by div_lia. div_lia.
Qed.

Lemma decode_encode_idx bs : Forall is_byte bs -> decode_vals (encode_idx bs) = Some bs.
Proof.
  induction bs as [|b0|b0 b1|b0 b1 b2 rest IH] using list3_ind; intros Hb;
    repeat match goal with H : Forall _ (_ :: _) |- _ => inversion_clear H end; [done|..].
  - cbn [encode_idx]. rewrite Z.shiftl_mul_pow2 by lia. pow2_consts.
    destruct (group_bytes b0 0 0) as (E & _); [done|unfold is_byte; lia..|].
    cbn. rewrite dec_val_short2 by (unfold is_byte in *; div_lia).
    rewrite Z.add_0_r, Z.add_0_r in E. by rewrite E.
  - cbn [encode_idx]. rewrite group_val2 by done.
    destruct (group_bytes b0 b1 0) as (E0 & E1 & _); [done..|unfold is_byte; lia|].
    rewrite Z.add_0_r in E0, E1.
    cbn -[Z.mul Z.add]. rewrite dec_val_short3 by (unfold is_byte in *; div_lia). by rewrite E0, E1.
  - cbn [encode_idx]. rewrite group_val by done. unfold quantum_idx. cbn [app decode_vals].
    rewrite dec_val_split by (unfold is_byte in *; lia).
    destruct (group_bytes b0 b1 b2) as (E0 & E1 & E2); [done..|].
    rewrite E0, E1, E2, IH by done. reflexivity.
Qed.

Lemma byte_val_bound c : is_byte (byte_val c).
Proof. unfold is_byte, byte_val. pose proof (N_ascii_bounded c). lia. Qed.

Lemma bytes_of_bound s : Forall is_byte (bytes_of s).
Proof. apply Forall_map, Forall_forall. intros c _. apply byte_val_bound. Qed.

Lemma string_of_bytes_of s : string_of_bytes (bytes_of s) = s.
Proof.
  unfold string_of_bytes, bytes_of. rewrite map_map.
  erewrite map_ext; [|intros c; unfold byte_chr, byte_val; rewrite N2Z.id; apply ascii_N_embedding].
  rewrite map_id. apply String.string_of_list_ascii_of_string.
Qed.

(** [DecodeString] undoes [EncodeToString]. *)
Lemma DecodeString_EncodeToString s : DecodeString (EncodeToString s) = Some s.
Proof.
  unfold DecodeString, decode_bytes, EncodeToString.
  rewrite String.list_ascii_of_string_of_list_ascii, decode_chars by apply encode_idx_bound.
  simpl. rewrite decode_encode_idx by apply bytes_of_bound. simpl. by rewrite string_of_bytes_of.
Qed.

(** ** Non-strict decoding is not injective *)

(** The index list with its last index increased by one. *)
Fixpoint bump_last (l : list Z) : list Z :=
  match l with
  | [] => []
  | [i] => [i + 1]
  | i :: l' => i :: bump_last l'
  end.

Lemma bump_last_app l1 l2 : l2 <> [] -> bump_last (l1 ++ l2) = l1 ++ bump_last l2.
Proof.
  intros Hne. induction l1 as [|i l1 IH]; [done|].
  simpl. rewrite IH. destruct l1, l2; done.
Qed.

Lemma encode_idx_nil bs : encode_idx bs = [] -> bs = [].
Proof. destruct bs as [|? [|? [|? ?]]]; done. Qed.

(** The decoder ignores the two low bits of the last character of a
    two-byte final group. *)
Lemma decode_bump_idx bs :
  Forall is_byte bs -> (length bs mod 3 = 2)%nat -> decode_vals (bump_last (encode_idx bs)) = Some bs.
Proof.
  induction bs as [|b0|b0 b1|b0 b1 b2 rest IH] using list3_ind; intros Hb Hl;
    repeat match goal with H : Forall _ (_ :: _) |- _ => inversion_clear H end; try done.
  - cbn [encode_idx]. rewrite group_val2 by done. cbn -[Z.mul Z.add].
    unfold is_byte, to_byte in *. rewrite !Z.shiftr_div_pow2, !land_63, !land_255 by lia. pow2_consts.
    rewrite dec_val_arith by div_lia. do 3 f_equal; div_lia.
  - cbn [encode_idx]. cbn [length] in Hl.
    assert (length rest mod 3 = 2)%nat as Hl'
      by (rewrite <-(Nat.Div0.mod_add _ 1 3), <-Hl; f_equal; lia).
    assert (rest <> []) as Hne by (intros ->; done).
    rewrite bump_last_app by (intros ?%encode_idx_nil; done).
    rewrite group_val by done. unfold quantum_idx. cbn [app decode_vals].
    rewrite dec_val_split by (unfold is_byte in *; lia).
    destruct (group_bytes b0 b1 b2) as (E0 & E1 & E2); [done..|].
    rewrite E0, E1, E2, IH by done. reflexivity.
Qed.

Lemma bump_last_neq l : l <> [] -> bump_last l <> l.
Proof.
  induction l as [|i l IH]; [done|]. intros _.
  destruct l as [|j l]; simpl; [intros [=]; lia|].
  intros [= E]. by apply IH.
Qed.

Lemma enc_chars_inj l1 l2 :
  Forall (fun i => 0 <= i < 64) l1 -> Forall (fun i => 0 <= i < 64) l2 ->
  map enc_char l1 = map enc_char l2 -> l1 = l2.
Proof.
  intros H1. revert l2. induction H1 as [|i l1 Hi _ IH]; intros l2 H2 E;
    destruct H2 as [|j l2 Hj]; try done.
  simpl in E. injection E as Eij El. f_equal; [|by apply IH].
  destruct (enc_char_ok i Hi) as [Di _], (enc_char_ok j Hj) as [Dj _]. congruence.
Qed.

Lemma bump_idx_bound bs :
  Forall is_byte bs -> (length bs mod 3 = 2)%nat -> Forall (fun i => 0 <= i < 64) (bump_last (encode_idx bs)).
Proof.
  induction bs as [|b0|b0 b1|b0 b1 b2 rest IH] using list3_ind; intros Hb Hl;
    repeat match goal with H : Forall _ (_ :: _) |- _ => inversion_clear H end; try done.
  - cbn [encode_idx]. rewrite group_val2 by done. unfold is_byte in *. cbn -[Z.mul Z.add].
    rewrite !Z.shiftr_div_pow2, !land_63 by lia. pow2_consts.
    repeat constructor; div_lia.
  - cbn [encode_idx]. cbn [length] in Hl.
    assert (length rest mod 3 = 2)%nat as Hl'
      by (rewrite <-(Nat.Div0.mod_add _ 1 3), <-Hl; f_equal; lia).
    rewrite bump_last_app by (intros ?%encode_idx_nil; subst; done).
    apply Forall_app_2; [apply quantum_idx_bound | by apply IH].
Qed.

Lemma length_bytes_of s : length (bytes_of s) = String.length s.
Proof. unfold bytes_of. rewrite length_map. induction s; simpl; congruence. Qed.

(** The encoding of [s] with its last character bumped. *)
Definition bumped_encoding (s : string) : string :=
  String.string_of_list_ascii (map enc_char (bump_last (encode_idx (bytes_of s)))).

(** When the input length is 2 mod 3 (a 32-byte HMAC-SHA256 for instance),
    a second text, different from the encoding, decodes to the same bytes. *)
Lemma DecodeString_bumped s :
  (String.length s mod 3 = 2)%nat ->
  bumped_encoding s <> EncodeToString s /\ DecodeString (bumped_encoding s) = Some s.
Proof.
  intros Hl. rewrite <-length_bytes_of in Hl. split.
  - unfold bumped_encoding, EncodeToString. intros E.
    apply (f_equal String.list_ascii_of_string) in E.
    rewrite !String.list_ascii_of_string_of_list_ascii in E.
    apply enc_chars_inj in E; [|apply bump_idx_bound; [apply bytes_of_bound|done]|apply encode_idx_bound].
    revert E. apply bump_last_neq. intros ?%encode_idx_nil.
    destruct (bytes_of s); done.
  - unfold DecodeString, decode_bytes, bumped_encoding.
    rewrite String.list_ascii_of_string_of_list_ascii, decode_chars
      by (apply bump_idx_bound; [apply bytes_of_bound|done]).
    simpl. rewrite decode_bump_idx by (done || apply bytes_of_bound). simpl.
    by rewrite string_of_bytes_of.
Qed.

(** ** Separators *)

Lemma str_free_enc_chars c ids :
  (c = "."%char \/ c = " "%char) -> Forall (fun i => 0 <= i < 64) ids ->
  str_free c (String.string_of_list_ascii (map enc_char ids)) = true.
Proof.
  intros Hc. induction 1 as [|i ids Hi _ IH]; [done|]. simpl. rewrite IH, andb_true_r.
  destruct (enc_char_sep i Hi) as [H1 H2]. apply negb_true_iff. by destruct Hc as [->| ->].
Qed.

(** An encoding contains neither ['.'] nor [' ']. *)
Lemma EncodeToString_free c s :
  (c = "."%char \/ c = " "%char) -> str_free c (EncodeToString s) = true.
Proof. intros Hc. apply str_free_enc_chars; [done|apply encode_idx_bound]. Qed.

Lemma bumped_encoding_free c s :
  (c = "."%char \/ c = " "%char) -> (String.length s mod 3 = 2)%nat ->
  str_free c (bumped_encoding s) = true.
Proof.
  intros Hc Hl. rewrite <-length_bytes_of in Hl.
  apply str_free_enc_chars; [done|apply bump_idx_bound; [apply bytes_of_bound|done]].
Qed.
