(* ===== verification/Jwt.v ===== *)
(** * Jwt: the credential codec, golang-jwt/jwt v5 as the program calls it

    [Login] issues [jwt.NewWithClaims(jwt.SigningMethodHS256, claims)
    .SignedString([]byte(secret))]; [AuthMiddleware] checks a token with
    [jwt.Parse(tokenString, keyFunc)], whose key function accepts the
    HMAC family only.  The model follows the library's code path:

    - a token is three segments joined by ['.']; each segment is
      [Base64.EncodeToString] of a JSON text (header, claims) or of the
      MAC; [Parse] splits on ['.'] ([ParseUnverified]), decodes header and
      claims, looks the [alg] up among the registered methods, asks the
      key function, decodes the signature, verifies the MAC over
      [header.claims], then runs the default [Validator] ([exp], [nbf]; no
      [iat] check, no leeway);
    - JSON ([encoding/json] on [map[string]interface{}]) and the MAC
      ([crypto/hmac] with SHA-2) are interfaces: [JsonCodec] with its
      round-trip law, [HmacHash] with the digest size of HMAC-SHA256;
    - [Time] is in nanoseconds; a [NumericDate] is a whole number of
      seconds ([TimePrecision] is one second), so [exp = N] stands for the
      instant [N * Second]. *)

From S2P Require Import Prelude Models Base64.
From Stdlib Require Import Ascii.

Local Open Scope Z_scope.
Local Open Scope tf_scope.

Definition Second : Z := 1000000000.
Definition Hour : Z := 3600 * Second.

(** [t.Unix()]: whole seconds, rounded down. *)
Definition Unix (t : Time) : Z := t / Second.

(** [time.Unix(sec, 0)]. *)
Definition time_Unix (sec : Z) : Time := sec * Second.

(** ** Claims: [jwt.MapClaims] *)

(** A JSON value as [encoding/json] stores it in an [interface{}]
    (numbers are [float64]; the program only uses whole numbers). *)
Inductive JVal :=
| JNum (z : Z)
| JStr (s : string)
| JBool (b : bool)
| JNull.

#[global] Instance JVal_eq_dec : EqDecision JVal.
Proof. solve_decision. Defined.

Definition JObj := gmap string JVal.

Class JsonCodec := {
  json_marshal : JObj -> string;
  json_unmarshal : string -> option JObj;
  json_roundtrip : forall o, json_unmarshal (json_marshal o) = Some o
}.

(** ** Signing methods *)

Inductive SigningMethod :=
| HS256 | HS384 | HS512
| RS256 | RS384 | RS512
| PS256 | PS384 | PS512
| ES256 | ES384 | ES512
| EdDSA | MethodNone.

#[global] Instance SigningMethod_eq_dec : EqDecision SigningMethod.
Proof. solve_decision. Defined.

Definition Alg (m : SigningMethod) : string :=
  match m with
  | HS256 => "HS256" | HS384 => "HS384" | HS512 => "HS512"
  | RS256 => "RS256" | RS384 => "RS384" | RS512 => "RS512"
  | PS256 => "PS256" | PS384 => "PS384" | PS512 => "PS512"
  | ES256 => "ES256" | ES384 => "ES384" | ES512 => "ES512"
  | EdDSA => "EdDSA" | MethodNone => "none"
  end.

Definition signing_methods : list SigningMethod :=
  [HS256; HS384; HS512; RS256; RS384; RS512; PS256; PS384; PS512;
   ES256; ES384; ES512; EdDSA; MethodNone].

(** [jwt.GetSigningMethod(alg)]: the registered method of that name. *)
Definition GetSigningMethod (alg : string) : option SigningMethod :=
  snd <$> list_find (fun m => Alg m = alg) signing_methods.

(** The HMAC family: the methods whose type is [jwt.SigningMethodHMAC]. *)
Definition is_hmac (m : SigningMethod) : bool :=
  match m with HS256 | HS384 | HS512 => true | _ => false end.

Class HmacHash := {
  (** [hmac.New(hash.New, key).Write(msg).Sum(nil)] for an HMAC method. *)
  hmac_sum : SigningMethod -> string -> string -> string;
  hmac_sum_size : forall key msg, String.length (hmac_sum HS256 key msg) = 32%nat
}.

Inductive JwtError :=
| ErrTokenMalformed
| ErrTokenUnverifiable
| ErrTokenSignatureInvalid
| ErrTokenInvalidClaims
| ErrInvalidKeyType.

Definition opt_err {A} (e : JwtError) (o : option A) : JwtError + A :=
  match o with Some a => inr a | None => inl e end.

Lemma opt_err_inr {A} e (o : option A) a : opt_err e o = inr a -> o = Some a.
Proof. destruct o; simpl; congruence. Qed.

Section Codec.
Context `{!JsonCodec} `{!HmacHash}.

Definition EncodeSegment (b : string) : string := EncodeToString b.
Definition DecodeSegment (s : string) : option string := DecodeString s.

(** ** Issuing: [NewWithClaims(m, claims).SignedString(key)] *)

Definition new_header (m : SigningMethod) : JObj :=
  <["typ" := JStr "JWT"]> (<["alg" := JStr (Alg m)]> ∅).

Definition SigningString (m : SigningMethod) (claims : JObj) : string :=
  EncodeSegment (json_marshal (new_header m)) +:+ "." +:+ EncodeSegment (json_marshal claims).

(** [Sign]: HMAC methods take a [[]byte] key; the others refuse it. *)
Definition Sign (m : SigningMethod) (signingString key : string) : JwtError + string :=
  if is_hmac m then inr (hmac_sum m key signingString) else inl ErrInvalidKeyType.

Definition SignedString (m : SigningMethod) (claims : JObj) (key : string) : JwtError + string :=
  let sstr := SigningString m claims in
  let? sig := Sign m sstr key in
  inr (sstr +:+ "." +:+ EncodeSegment sig).

(** ** Checking: [jwt.Parse(tokenString, keyFunc)] *)

(** The key function of [AuthMiddleware]: the secret for an HMAC method,
    [ErrSignatureInvalid] (reported as unverifiable) for any other. *)
Definition keyFunc (secret : string) (m : SigningMethod) : JwtError + string :=
  if is_hmac m then inr secret else inl ErrTokenUnverifiable.

(** [Verify]: [hmac.Equal] of the decoded signature and the recomputed MAC. *)
Definition Verify (m : SigningMethod) (signingString sig key : string) : bool :=
  is_hmac m && bool_decide (sig = hmac_sum m key signingString).

(** [MapClaims.GetExpirationTime] / [GetNotBefore]: absent, a number of
    seconds, or a type error. *)
Definition claim_time (claims : JObj) (k : string) : JwtError + option Time :=
  match claims !! k with
  | None => inr None
  | Some (JNum z) => inr (Some (time_Unix z))
  | Some _ => inl ErrTokenInvalidClaims
  end.

(** [Validator.Validate] with the defaults: [now.Before(exp)] when [exp]
    is present, [!now.Before(nbf)] when [nbf] is present. *)
Definition Validate (now : Time) (claims : JObj) : JwtError + unit :=
  let? exp := claim_time claims "exp" in
  let? nbf := claim_time claims "nbf" in
  let exp_ok := match exp with Some t => bool_decide (now < t) | None => true end in
  let nbf_ok := match nbf with Some t => negb (bool_decide (now < t)) | None => true end in
  if exp_ok && nbf_ok then inr tt else inl ErrTokenInvalidClaims.

(** The header's [alg], looked up among the registered methods. *)
Definition header_method (header : JObj) : JwtError + SigningMethod :=
  match header !! "alg" with
  | Some (JStr alg) => opt_err ErrTokenUnverifiable (GetSigningMethod alg)
  | _ => inl ErrTokenUnverifiable
  end.

Definition Parse (secret : string) (now : Time) (tokenString : string)
  : JwtError + (SigningMethod * JObj) :=
  match str_split "."%char tokenString with
  | [p0; p1; p2] =>
      let? headerBytes := opt_err ErrTokenMalformed (DecodeSegment p0) in
      let? header := opt_err ErrTokenMalformed (json_unmarshal headerBytes) in
      let? claimBytes := opt_err ErrTokenMalformed (DecodeSegment p1) in
      let? claims := opt_err ErrTokenMalformed (json_unmarshal claimBytes) in
      let? m := header_method header in
      let? key := keyFunc secret m in
      let? sig := opt_err ErrTokenMalformed (DecodeSegment p2) in
      if Verify m (p0 +:+ "." +:+ p1) sig key then
        let? _ := Validate now claims in inr (m, claims)
      else inl ErrTokenSignatureInvalid
  | _ => inl ErrTokenMalformed
  end.
End Codec.

(** ** Lemmas on the token text *)

Lemma split_token a b c :
  str_free "."%char a = true -> str_free "."%char b = true -> str_free "."%char c = true ->
  str_split "."%char (a +:+ "." +:+ b +:+ "." +:+ c) = [a; b; c].
Proof.
  intros Ha Hb Hc. rewrite !str_app_cons, !str_app_nil_l.
  rewrite str_split_app, str_split_app, str_split_free by done. reflexivity.
Qed.

Lemma EncodeSegment_free s : str_free "."%char (EncodeSegment s) = true.
Proof. apply EncodeToString_free. by left. Qed.

Lemma DecodeSegment_EncodeSegment s : DecodeSegment (EncodeSegment s) = Some s.
Proof. apply DecodeString_EncodeToString. Qed.

Lemma header_method_new m : header_method (new_header m) = inr m.
Proof. destruct m; reflexivity. Qed.

#[export] Hint Resolve EncodeSegment_free : taskflow.

Section CodecFacts.
Context `{!JsonCodec} `{!HmacHash}.

(** The token [SignedString] builds for an HMAC method, split. *)
Definition hmac_token (m : SigningMethod) (claims : JObj) (key : string) : string :=
  EncodeSegment (json_marshal (new_header m)) +:+ "." +:+ EncodeSegment (json_marshal claims)
  +:+ "." +:+ EncodeSegment (hmac_sum m key (SigningString m claims)).

Lemma SignedString_hmac m claims key :
  is_hmac m = true -> SignedString m claims key = inr (hmac_token m claims key).
Proof.
  intros Hm. unfold SignedString, Sign. rewrite Hm, sbind_inr. unfold hmac_token, SigningString.
  by rewrite !str_app_assoc.
Qed.

(** [Parse] on a text of three segments, with the header and claims
    segments decoded. *)
Lemma Parse_segments secret now h c p2 :
  Parse secret now (EncodeSegment (json_marshal h) +:+ "." +:+ EncodeSegment (json_marshal c)
                    +:+ "." +:+ p2) =
  if str_free "."%char p2 then
    let? m := header_method h in
    let? key := keyFunc secret m in
    let? sig := opt_err ErrTokenMalformed (DecodeSegment p2) in
    if Verify m (EncodeSegment (json_marshal h) +:+ "." +:+ EncodeSegment (json_marshal c)) sig key
    then let? _ := Validate now c in inr (m, c)
    else inl ErrTokenSignatureInvalid
  else Parse secret now (EncodeSegment (json_marshal h) +:+ "." +:+ EncodeSegment (json_marshal c)
                         +:+ "." +:+ p2).
Proof.
  destruct (str_free "."%char p2) eqn:Hp2; [|done].
  unfold Parse. rewrite split_token by auto with taskflow.
  rewrite !DecodeSegment_EncodeSegment. cbn [opt_err sbind].
  rewrite json_roundtrip. cbn [opt_err sbind]. rewrite json_roundtrip. reflexivity.
Qed.
Lemma hmac_token_free_space m claims key : str_free " "%char (hmac_token m claims key) = true.
Proof.
  unfold hmac_token. rewrite !str_free_app, !EncodeToString_free by (by right). done.
Qed.

End CodecFacts.

(** ** Properties of the codec *)

Section CodecClaims.
Context `{!JsonCodec} `{!HmacHash}.

(** An issued token parses back to its claims, under [Validate]. *)
Lemma Parse_SignedString_hmac secret m claims now :
  is_hmac m = true ->
  Parse secret now (hmac_token m claims secret) = (let? _ := Validate now claims in inr (m, claims)).
Proof.
  intros Hm. unfold hmac_token.
  rewrite Parse_segments, EncodeSegment_free, header_method_new. cbv beta iota.
  rewrite sbind_inr. unfold keyFunc. rewrite Hm, sbind_inr, DecodeSegment_EncodeSegment.
  cbn [opt_err sbind].
  unfold Verify. rewrite Hm, bool_decide_true; [done|]. reflexivity.
Qed.

(** What an accepted token is made of. *)
Lemma Parse_inr_inv secret now tok m claims :
  Parse secret now tok = inr (m, claims) ->
  is_hmac m = true /\
  exists p0 p1 p2,
    str_split "."%char tok = [p0; p1; p2] /\
    DecodeSegment p2 = Some (hmac_sum m secret (p0 +:+ "." +:+ p1)) /\
    (DecodeSegment p1 ≫= json_unmarshal) = Some claims /\
    Validate now claims = inr tt.
Proof.
  unfold Parse. destruct (str_split _ tok) as [|p0 [|p1 [|p2 [|? ?]]]]; try discriminate.
  intros E.
  apply sbind_inr_inv in E as (hb & _ & E).
  apply sbind_inr_inv in E as (h & _ & E).
  apply sbind_inr_inv in E as (cb & Hcb%opt_err_inr & E).
  apply sbind_inr_inv in E as (c & Hc%opt_err_inr & E).
  apply sbind_inr_inv in E as (m' & _ & E).
  apply sbind_inr_inv in E as (key & Hkey & E).
  apply sbind_inr_inv in E as (sig & Hsig%opt_err_inr & E).
  destruct (Verify m' _ sig key) eqn:Hv; [|discriminate].
  apply sbind_inr_inv in E as ([] & Hval & E). injection E as <- <-.
  unfold keyFunc in Hkey. destruct (is_hmac m') eqn:Hh; [injection Hkey as <-|discriminate].
  unfold Verify in Hv. rewrite Hh in Hv. apply bool_decide_eq_true in Hv. subst sig.
  split; [done|]. exists p0, p1, p2. split_and!; try done. by rewrite Hcb.
Qed.


(** C9. A token issued with an HMAC method under the server secret parses
    back to its method and claims exactly when the default validation
    ([exp], [nbf]) accepts the claims at the instant of parsing. *)
Theorem Parse_SignedString (secret : string) (m : SigningMethod) (claims : JObj) (now : Time) :
  is_hmac m = true ->
  exists tok, SignedString m claims secret = inr tok /\
    Parse secret now tok = (let? _ := Validate now claims in inr (m, claims)).
Proof.
  intros Hm. eexists. split; [by apply SignedString_hmac|]. by apply Parse_SignedString_hmac.
Qed.

(** C8. What [Parse] guarantees of every token it accepts: its method is
    of the HMAC family (a token announcing [none], RSA, ECDSA or EdDSA is
    refused whatever its signature: no algorithm substitution), its
    signature segment decodes to the MAC under the server secret of its
    own [header.claims] text, its claims are those of its claims segment,
    and they pass the expiry and not-before checks at that instant. *)
Theorem Parse_sound (secret : string) (now : Time) (tok : string) (m : SigningMethod) (claims : JObj) :
  Parse secret now tok = inr (m, claims) ->
  is_hmac m = true /\
  exists p0 p1 p2,
    str_split "."%char tok = [p0; p1; p2] /\
    DecodeSegment p2 = Some (hmac_sum m secret (p0 +:+ "." +:+ p1)) /\
    (DecodeSegment p1 ≫= json_unmarshal) = Some claims /\
    Validate now claims = inr tt.
Proof. apply Parse_inr_inv. Qed.

(** C30 (finding). The signature segment is decoded without
    [Strict()]: for every token issued with HS256, a second text, obtained
    by bumping the last character of the signature segment, is a different
    token that [Parse] treats exactly like the issued one (a 32-byte MAC
    leaves two unused bits in its last character).  The spec asks that a
    tampered token always fail; this holds of the decoded signature bytes
    ([Parse_sound]), not of the token text. *)
Theorem Parse_signature_malleable (secret : string) (claims : JObj) :
  exists tok tok', SignedString HS256 claims secret = inr tok /\ tok' <> tok /\
    forall now, Parse secret now tok' = Parse secret now tok.
Proof.
  set (mac := hmac_sum HS256 secret (SigningString HS256 claims)).
  set (pre := EncodeSegment (json_marshal (new_header HS256)) +:+ "." +:+
              EncodeSegment (json_marshal claims)).
  assert (Hl : (String.length mac mod 3 = 2)%nat) by (unfold mac; by rewrite hmac_sum_size).
  destruct (DecodeString_bumped mac Hl) as [Hne Hdec].
  exists (pre +:+ "." +:+ EncodeSegment mac), (pre +:+ "." +:+ bumped_encoding mac).
  split; [|split].
  - rewrite SignedString_hmac by done. unfold pre, hmac_token. by rewrite !str_app_assoc.
  - intros E. apply str_app_inv_l, str_app_inv_l in E. by apply Hne.
  - intros now. unfold pre. rewrite !str_app_assoc.
    rewrite (Parse_segments _ _ _ _ (EncodeSegment mac)), (Parse_segments _ _ _ _ (bumped_encoding mac)).
    rewrite EncodeSegment_free, bumped_encoding_free by (by left || done).
    cbv beta iota. unfold DecodeSegment. rewrite Hdec, DecodeString_EncodeToString.
    reflexivity.
Qed.
End CodecClaims.

(** ** A codec to run examples

    A JSON codec and a MAC that satisfy the two interfaces, used by the
    witnesses only: [example_json] writes a map as the binary digits of its
    [Countable] code (not the text [encoding/json] produces), and
    [example_hmac] is a keyed checksum with the digest sizes of SHA-2 (not
    a cryptographic MAC).  No theorem of the development depends on them. *)

(** Strings end at an unescaped double quote (character 34); the double
    quotes and backslashes inside are escaped by a backslash. *)
Fixpoint enc_str (s : string) : string :=
  match s with
  | EmptyString => String "034" EmptyString
  | String c s' =>
      if Ascii.eqb c "034" || Ascii.eqb c "\" then String "\" (String c (enc_str s'))
      else String c (enc_str s')
  end.

Fixpoint dec_str (s : string) : option (string * string) :=
  match s with
  | EmptyString => None
  | String c s' =>
      if Ascii.eqb c "034" then Some (EmptyString, s')
      else if Ascii.eqb c "\" then
        match s' with
        | String d s'' => '(w, r) ← dec_str s''; Some (String d w, r)
        | EmptyString => None
        end
      else '(w, r) ← dec_str s'; Some (String c w, r)
  end.

Lemma dec_enc_str s r : dec_str (enc_str s +:+ r) = Some (s, r).
Proof.
  induction s as [|c s IH]; [done|]. simpl.
  destruct (Ascii.eqb c "034") eqn:E1; simpl.
  - apply Ascii.eqb_eq in E1. subst. simpl. by rewrite IH.
  - destruct (Ascii.eqb c "\") eqn:E2; simpl.
    + apply Ascii.eqb_eq in E2. subst. simpl. by rewrite IH.
    + rewrite E1, E2. by rewrite IH.
Qed.

(** Numbers in binary, ended by ['.']. *)
Fixpoint enc_pos (p : positive) : string :=
  match p with
  | xI p' => String "1" (enc_pos p')
  | xO p' => String "0" (enc_pos p')
  | xH => "."
  end.

Fixpoint dec_pos (s : string) : option (positive * string) :=
  match s with
  | EmptyString => None
  | String c s' =>
      if Ascii.eqb c "." then Some (xH, s')
      else if Ascii.eqb c "1" then '(p, r) ← dec_pos s'; Some (xI p, r)
      else if Ascii.eqb c "0" then '(p, r) ← dec_pos s'; Some (xO p, r)
      else None
  end.

Lemma dec_enc_pos p r : dec_pos (enc_pos p +:+ r) = Some (p, r).
Proof. induction p; simpl; rewrite ?IHp; done. Qed.

Definition enc_val (v : JVal) : string :=
  match v with
  | JNum Z0 => "0"
  | JNum (Zpos p) => String "+" (enc_pos p)
  | JNum (Zneg p) => String "-" (enc_pos p)
  | JStr s => String "s" (enc_str s)
  | JBool true => "t"
  | JBool false => "f"
  | JNull => "z"
  end.

Definition dec_val (s : string) : option (JVal * string) :=
  match s with
  | String "0" r => Some (JNum 0, r)
  | String "+" r => '(p, r') ← dec_pos r; Some (JNum (Zpos p), r')
  | String "-" r => '(p, r') ← dec_pos r; Some (JNum (Zneg p), r')
  | String "s" r => '(w, r') ← dec_str r; Some (JStr w, r')
  | String "t" r => Some (JBool true, r)
  | String "f" r => Some (JBool false, r)
  | String "z" r => Some (JNull, r)
  | _ => None
  end.

Lemma dec_enc_val v r : dec_val (enc_val v +:+ r) = Some (v, r).
Proof.
  destruct v as [[|p|p]|w|[]|]; simpl; rewrite ?dec_enc_pos, ?dec_enc_str; done.
Qed.

Fixpoint enc_pairs (l : list (string * JVal)) : string :=
  match l with
  | [] => ""
  | (k, v) :: l' => enc_str k +:+ enc_val v +:+ enc_pairs l'
  end.

(** One pair per round; [fuel] is the length of the text. *)
Fixpoint dec_pairs (fuel : nat) (s : string) : option (list (string * JVal)) :=
  match s with
  | EmptyString => Some []
  | _ =>
      match fuel with
      | O => None
      | S fuel' =>
          '(k, r) ← dec_str s; '(v, r') ← dec_val r; l ← dec_pairs fuel' r'; Some ((k, v) :: l)
      end
  end.

Lemma enc_str_nonempty s : enc_str s <> "".
Proof. destruct s as [|c s]; simpl; [done|]. by case_match. Qed.

Lemma dec_enc_pairs l n : (length l <= n)%nat -> dec_pairs n (enc_pairs l) = Some l.
Proof.
  revert n. induction l as [|[k v] l IH]; intros n Hn; simpl; [by destruct n|].
  destruct n as [|n]; [simpl in Hn; lia|].
  destruct (enc_str k +:+ enc_val v +:+ enc_pairs l) eqn:E.
  - destruct (enc_str k) eqn:Ek; [by apply enc_str_nonempty in Ek|done].
  - cbn [dec_pairs]. rewrite <-E, dec_enc_str. simpl. rewrite dec_enc_val. simpl. rewrite IH by (simpl in Hn; lia).
    done.
Qed.

Definition example_marshal (o : JObj) : string := enc_pairs (map_to_list o).
Definition example_unmarshal (s : string) : option JObj :=
  list_to_map <$> dec_pairs (String.length s) s.

Lemma length_enc_pairs l : (length l <= String.length (enc_pairs l))%nat.
Proof.
  induction l as [|[k v] l IH]; simpl; [lia|].
  rewrite !str_length_app. destruct k; simpl; [lia|]. case_match; simpl; lia.
Qed.

Lemma example_roundtrip o : example_unmarshal (example_marshal o) = Some o.
Proof.
  unfold example_unmarshal, example_marshal. rewrite dec_enc_pairs by apply length_enc_pairs.
  exact (f_equal Some (list_to_map_to_list o)).
Qed.

#[export] Instance example_json : JsonCodec := {|
  json_marshal := example_marshal;
  json_unmarshal := example_unmarshal;
  json_roundtrip := example_roundtrip
|}.

Definition digest_size (m : SigningMethod) : nat :=
  match m with HS384 => 48 | HS512 => 64 | _ => 32 end.

Definition example_mac (m : SigningMethod) (key msg : string) : string :=
  let s := foldr (fun c n => (Ascii.nat_of_ascii c + 31 * n) mod 251)%nat 7%nat
             (String.list_ascii_of_string (key +:+ msg)) in
  String.string_of_list_ascii (map (fun i => Ascii.ascii_of_nat (s + 131 * i)) (seq 0 (digest_size m))).

Lemma length_string_of_list_ascii l : String.length (String.string_of_list_ascii l) = length l.
Proof. induction l; simpl; congruence. Qed.

Lemma example_mac_size key msg : String.length (example_mac HS256 key msg) = 32%nat.
Proof. unfold example_mac. by rewrite length_string_of_list_ascii, length_map, length_seq. Qed.

#[export] Instance example_hmac : HmacHash := {|
  hmac_sum := example_mac;
  hmac_sum_size := example_mac_size
|}.

(** ** Witnesses *)

Definition example_claims : JObj := <["user_id" := JNum 1]> (<["exp" := JNum 86400]> ∅).

(** The token [SignedString HS256 example_claims "secret"] of the
    example codec. *)
Definition example_token : string :=
  "YWxnInNIUzI1NiJ0eXAic0pXVCI.dXNlcl9pZCIrLmV4cCIrMDAwMDAwMDExMDAwMTAxMC4.dfh7_oEEhwqNEJMWmRyfIqUoqy6xNLc6vUDDRslMz1I".

Lemma Parse_SignedString_witness :
  is_hmac HS256 = true /\
  exists tok, SignedString HS256 example_claims "secret" = inr tok /\
    Parse "secret" 0 tok = (let? _ := Validate 0 example_claims in inr (HS256, example_claims)).
Proof. split; [reflexivity|]. apply Parse_SignedString. reflexivity. Defined.

Lemma Parse_sound_witness :
  Parse "secret" 0 example_token = inr (HS256, example_claims) /\
  is_hmac HS256 = true /\
  exists p0 p1 p2,
    str_split "."%char example_token = [p0; p1; p2] /\
    DecodeSegment p2 = Some (hmac_sum HS256 "secret" (p0 +:+ "." +:+ p1)) /\
    (DecodeSegment p1 ≫= json_unmarshal) = Some example_claims /\
    Validate 0 example_claims = inr tt.
Proof.
  assert (H : Parse "secret" 0 example_token = inr (HS256, example_claims)) by (vm_compute; reflexivity).
  split; [exact H|]. exact (Parse_sound "secret" 0 example_token HS256 example_claims H).
Defined.
