(* ===== verification/Store.v ===== *)
(** * Store: the PostgreSQL database the handlers use

    The two tables [users] and [tasks] are [gmap]s from the serial primary
    key to the row, with the next value of each serial sequence.  The
    schema is not among the sources; the model assumes what the SQL of the
    handlers presupposes: [id SERIAL PRIMARY KEY], [is_completed] defaulting
    to [false], [created_at]/[updated_at] defaulting to
    [CURRENT_TIMESTAMP], and (from the spec) [email] unique.

    A [WHERE] clause is a filter over the table scan [rows_of]; the lemmas
    here relate such scans to key lookups under the invariant [db_wf]. *)

From S2P Require Import Prelude Models.

Local Open Scope Z_scope.

Record DB := mkDB {
  users : gmap Z User.t;
  tasks : gmap Z Task.t;
  next_user_id : Z;
  next_task_id : Z
}.

(** The database with its [tasks] table replaced. *)
Definition with_tasks (db : DB) (m : gmap Z Task.t) : DB :=
  {| users := users db; tasks := m; next_user_id := next_user_id db;
     next_task_id := next_task_id db |}.

Lemma with_tasks_id db : with_tasks db (tasks db) = db.
Proof. by destruct db. Qed.

#[export] Hint Rewrite with_tasks_id : tf_rw.

(** The rows of a table, in the order of a sequential scan. *)
Definition rows_of {A} (m : gmap Z A) : list A := (map_to_list m).*2.

(** The rows satisfying a [WHERE] predicate. *)
Definition select_rows {A} (P : A -> Prop) `{!forall x, Decision (P x)}
    (m : gmap Z A) : list A :=
  rows_of (filter (fun kv => P kv.2) m).
Arguments select_rows : simpl never.

(** ** Well-formedness of the database *)

(** Every row is stored under its own id, which the sequence has passed. *)
Definition keyed {A} (id : A -> Z) (next : Z) (m : gmap Z A) : Prop :=
  map_Forall (fun k r => id r = k /\ 0 < k < next) m.

Definition emails_unique (m : gmap Z User.t) : Prop :=
  map_Forall (fun k1 u1 => map_Forall (fun k2 u2 => User.Email u1 = User.Email u2 -> k1 = k2) m) m.

(** The largest value of an [integer] column, the last a [SERIAL]
    sequence hands out. *)
Definition int4_max : Z := 2 ^ 31 - 1.

Definition db_wf (db : DB) : Prop :=
  keyed Task.ID (next_task_id db) (tasks db) /\
  keyed User.ID (next_user_id db) (users db) /\
  emails_unique (users db) /\
  0 < next_task_id db /\ 0 < next_user_id db /\
  next_task_id db <= int4_max + 1 /\ next_user_id db <= int4_max + 1.

#[global] Instance db_wf_dec db : Decision (db_wf db).
Proof. unfold db_wf, keyed, emails_unique. apply _. Defined.

(** The invariant of a closed database, decided by computation. *)
Ltac wf_sample := apply (bool_decide_unpack _); vm_compute; exact I.

(** ** Serial keys *)

Lemma keyed_fresh {A} (id : A -> Z) next (m : gmap Z A) : keyed id next m -> m !! next = None.
Proof.
  intros Hk. destruct (m !! next) as [x|] eqn:E; [|done].
  destruct (Hk _ _ E). lia.
Qed.

Lemma keyed_insert_next {A} (id : A -> Z) next (m : gmap Z A) x :
  keyed id next m -> id x = next -> 0 < next -> keyed id (next + 1) (<[next := x]> m).
Proof.
  intros Hk Hx Hn. apply map_Forall_insert_2; [lia|].
  eapply map_Forall_impl; [exact Hk|]. simpl. intros ?? [? ?]. lia.
Qed.

(** ** Table scans *)

Lemma elem_of_rows_of {A} (m : gmap Z A) r :
  r ∈ rows_of m <-> exists k, m !! k = Some r.
Proof.
  unfold rows_of. rewrite list_elem_of_fmap. split.
  - intros ([k r'] & -> & Hin). apply elem_of_map_to_list in Hin. eauto.
  - intros [k Hk]. exists (k, r). split; [done|]. by apply elem_of_map_to_list.
Qed.

Lemma elem_of_select_rows {A} (P : A -> Prop) `{!forall x, Decision (P x)} m r :
  r ∈ select_rows P m <-> (exists k, m !! k = Some r) /\ P r.
Proof.
  unfold select_rows. rewrite elem_of_rows_of. split.
  - intros [k Hk]. apply map_lookup_filter_Some in Hk as [? ?]. eauto.
  - intros [[k Hk] HP]. exists k. by apply map_lookup_filter_Some.
Qed.

Lemma rows_of_empty {A} : rows_of (∅ : gmap Z A) = [].
Proof. by unfold rows_of; rewrite map_to_list_empty. Qed.

Lemma rows_of_singleton {A} k (r : A) : rows_of {[k := r]} = [r].
Proof. by unfold rows_of; rewrite map_to_list_singleton. Qed.

#[export] Hint Rewrite @rows_of_empty @rows_of_singleton : tf_rw.

(** A predicate that pins the key selects at most the row under that key. *)
Lemma select_rows_by_key {A} (id : A -> Z) (P : A -> Prop)
    `{!forall x, Decision (P x)} next (m : gmap Z A) i :
  keyed id next m -> (forall r, P r -> id r = i) ->
  select_rows P m =
    match m !! i with
    | Some r => if decide (P r) then [r] else []
    | None => []
    end.
Proof.
  intros Hk Hid. unfold select_rows.
  assert (filter (fun kv => P kv.2) m =
          match m !! i with
          | Some r => if decide (P r) then {[i := r]} else ∅
          | None => ∅
          end) as ->.
  { apply map_eq. intros j. rewrite map_lookup_filter.
    destruct (m !! j) as [r|] eqn:Hj; simpl.
    - destruct (Hk _ _ Hj) as [Hr _].
      destruct (decide (P r)) as [HP|HP].
      + rewrite option_guard_True by done. pose proof (Hid _ HP). subst.
        rewrite Hj, decide_True by done. by rewrite lookup_singleton_eq.
      + rewrite option_guard_False by done.
        destruct (m !! i) as [r'|] eqn:Hi; [|by rewrite lookup_empty].
        destruct (decide (P r')) as [HP'|]; [|by rewrite lookup_empty].
        rewrite lookup_singleton_ne; [done|]. intros ->. congruence.
    - destruct (m !! i) as [r'|] eqn:Hi; [|by rewrite lookup_empty].
      destruct (decide (P r')); [|by rewrite lookup_empty].
      rewrite lookup_singleton_ne; [done|]. intros ->. congruence. }
  destruct (m !! i) as [r|]; [destruct (decide (P r))|]; by autorewrite with tf_rw.
Qed.

(** ** A sample database, for the witnesses

    Two users; task 1 belongs to user 1, task 2 to user 2. *)
Definition sample_db : DB :=
  {| users := {[1 := User.mk 1 "Ann" "ann@x.com" "$2a$10$secret1" 0 0;
                2 := User.mk 2 "Bob" "bob@x.com" "$2a$10$secret2" 0 0]};
     tasks := {[1 := Task.mk 1 1 "Buy milk" "" "medium" "personal" false None 100 100;
                2 := Task.mk 2 2 "Report" "Quarterly" "high" "work" false (Some 150) 90 90]};
     next_user_id := 3;
     next_task_id := 3 |}.

(** ** Counting rows *)

Lemma length_select_rows {A} (P : A -> Prop) `{!forall x, Decision (P x)} (m : gmap Z A) :
  length (select_rows P m) = size (filter (fun kv => P kv.2) m).
Proof. unfold select_rows, rows_of. by rewrite length_fmap, length_map_to_list. Qed.

Lemma size_filter_insert {A} (R : Z * A -> Prop) `{!forall x, Decision (R x)} (m : gmap Z A) i x :
  m !! i = None ->
  size (filter R (<[i := x]> m)) = ((if decide (R (i, x)) then 1 else 0) + size (filter R m))%nat.
Proof.
  intros Hi. destruct (decide (R (i, x))) as [HR|HR].
  - rewrite map_filter_insert_True by done.
    rewrite map_size_insert_None; [done|]. by apply map_lookup_filter_None_2; left.
  - by rewrite map_filter_insert_False, delete_id.
Qed.

(** Overwriting a row changes a count by the tests of the old and the new
    row. *)
Lemma size_filter_update {A} (R : Z * A -> Prop) `{!forall x, Decision (R x)} (m : gmap Z A) i x y :
  m !! i = Some y ->
  (size (filter R (<[i := x]> m)) + (if decide (R (i, y)) then 1 else 0) =
   size (filter R m) + (if decide (R (i, x)) then 1 else 0))%nat.
Proof.
  intros Hy. rewrite <- insert_delete_eq. rewrite <- (insert_delete_id m i y Hy) at 2.
  rewrite !size_filter_insert by (apply lookup_delete_eq). lia.
Qed.

(** A predicate that is the disjoint union of two others counts as their sum. *)
Lemma size_filter_split {A} (P P1 P2 : A -> Prop)
    `{!forall x, Decision (P x), !forall x, Decision (P1 x), !forall x, Decision (P2 x)}
    (m : gmap Z A) :
  (forall x, P x <-> P1 x \/ P2 x) -> (forall x, ~ (P1 x /\ P2 x)) ->
  size (filter (fun kv => P kv.2) m) =
    (size (filter (fun kv => P1 kv.2) m) + size (filter (fun kv => P2 kv.2) m))%nat.
Proof.
  intros Hor Hdis. induction m as [|i x m Hi IH] using map_ind.
  - by rewrite !map_filter_empty, !map_size_empty.
  - rewrite !size_filter_insert, IH by done. simpl.
    specialize (Hor x). specialize (Hdis x).
    repeat case_decide; naive_solver lia.
Qed.

Lemma length_select_split {A} (P P1 P2 : A -> Prop)
    `{!forall x, Decision (P x), !forall x, Decision (P1 x), !forall x, Decision (P2 x)}
    (m : gmap Z A) :
  (forall x, P x <-> P1 x \/ P2 x) -> (forall x, ~ (P1 x /\ P2 x)) ->
  length (select_rows P m) = (length (select_rows P1 m) + length (select_rows P2 m))%nat.
Proof. intros. rewrite !length_select_rows. by apply size_filter_split. Qed.
