(* ===== verification/Sql.v ===== *)
(** * Sql: the statements the handlers send to PostgreSQL

    - [Value]: the Go values bound as [$n] arguments.
    - [Stmt]: the statements of the program.  [SSelectTasks ks] is the
      listing query of [GetTasks] with one predicate per present filter,
      in the order of [ks]; [SUpdateTask fs] the statement of [UpdateTask]
      with one assignment per present field.
    - [render_stmt]: the exact text the Go code sends (the raw strings keep
      their newlines and tabs).
    - [parse_stmt]: PostgreSQL's parser restricted to the finite language
      of the program: [parse_stmt (render_stmt st) = Some st].
    - [eval_stmt]: the statement's effect on the [DB] ([Sql.Eval] below). *)

From S2P Require Import Prelude Models Store.
From Stdlib Require Import Ascii.

Local Open Scope Z_scope.

(** ** Bound arguments and errors *)

Inductive Value :=
| VInt (z : Z)
| VText (s : string)
| VBool (b : bool)
| VTime (t : Time)
| VNull.

#[global] Instance Value_eq_dec : EqDecision Value.
Proof. solve_decision. Defined.

(** [ErrNoRows] is [sql.ErrNoRows] (raised by [Scan]); [ErrInvalidText]
    is SQLSTATE 22P02 (a text argument that is not an integer),
    [ErrOutOfRange] 22003, [ErrUnique] 23505, [ErrBadArg] an argument of
    the wrong type or a missing one, [ErrSyntax] a text outside the
    language, [ErrConn] a failure of the connection. *)
Inductive SqlError :=
| ErrNoRows | ErrInvalidText | ErrOutOfRange | ErrUnique
| ErrBadArg | ErrSyntax | ErrConn.

#[global] Instance SqlError_eq_dec : EqDecision SqlError.
Proof. solve_decision. Defined.

(** ** The statements *)

Inductive FilterKind := FPriority | FCategory | FIsCompleted | FSearch.
Inductive UpdField := UTitle | UDescription | UPriority | UCategory | UIsCompleted | UDueDate.
Inductive CountKind := CntTotal | CntCompleted | CntPending | CntHigh | CntOverdue.

Inductive Stmt :=
| SInsertTask
| SSelectTasks (ks : list FilterKind)
| SSelectTask
| SUpdateTask (fs : list UpdField)
| SDeleteTask
| SToggleTask
| SCount (c : CountKind)
| SEmailExists
| SInsertUser
| SSelectUserByEmail
| SSelectUserByID
| SUserIDExists.

#[global] Instance FilterKind_eq_dec : EqDecision FilterKind.
Proof. solve_decision. Defined.
#[global] Instance UpdField_eq_dec : EqDecision UpdField.
Proof. solve_decision. Defined.
#[global] Instance CountKind_eq_dec : EqDecision CountKind.
Proof. solve_decision. Defined.
#[global] Instance Stmt_eq_dec : EqDecision Stmt.
Proof. solve_decision. Defined.

Definition filter_kinds : list FilterKind := [FPriority; FCategory; FIsCompleted; FSearch].
Definition upd_fields : list UpdField :=
  [UTitle; UDescription; UPriority; UCategory; UIsCompleted; UDueDate].

(** ** The SQL text of task_handler.go and auth_handler.go *)

Definition task_columns : string :=
  "id, user_id, title, description, priority, category, is_completed, due_date, created_at, updated_at".

Definition sql_insert_task : string :=
  "INSERT INTO tasks (user_id, title, description, priority, category, due_date) "
  +:+ nl +:+ tab +:+ tab +:+ " VALUES ($1, $2, $3, $4, $5, $6) "
  +:+ nl +:+ tab +:+ tab +:+ " RETURNING " +:+ task_columns.

Definition sql_select_tasks_base : string :=
  "SELECT " +:+ task_columns +:+ " " +:+ nl +:+ tab +:+ tab +:+ tab
  +:+ "  FROM tasks WHERE user_id = $1".

Definition sql_order_by : string := " ORDER BY created_at DESC".

Definition sql_select_task : string :=
  "SELECT " +:+ task_columns +:+ " " +:+ nl +:+ tab +:+ tab
  +:+ " FROM tasks WHERE id = $1 AND user_id = $2".

Definition sql_update_head : string := "UPDATE tasks SET updated_at = CURRENT_TIMESTAMP".

Definition sql_delete_task : string := "DELETE FROM tasks WHERE id = $1 AND user_id = $2".

Definition sql_toggle_task : string :=
  "UPDATE tasks SET is_completed = NOT is_completed, updated_at = CURRENT_TIMESTAMP "
  +:+ nl +:+ tab +:+ tab +:+ " WHERE id = $1 AND user_id = $2 "
  +:+ nl +:+ tab +:+ tab +:+ " RETURNING " +:+ task_columns.

Definition sql_count (c : CountKind) : string :=
  "SELECT COUNT(*) FROM tasks WHERE user_id = $1" +:+
  match c with
  | CntTotal => ""
  | CntCompleted => " AND is_completed = true"
  | CntPending => " AND is_completed = false"
  | CntHigh => " AND priority = 'high'"
  | CntOverdue => " AND is_completed = false AND due_date < $2"
  end.

Definition sql_email_exists : string := "SELECT EXISTS(SELECT 1 FROM users WHERE email = $1)".
Definition sql_insert_user : string :=
  "INSERT INTO users (name, email, password) VALUES ($1, $2, $3) RETURNING id, name, email, created_at, updated_at".
Definition sql_select_user_by_email : string :=
  "SELECT id, name, email, password, created_at, updated_at FROM users WHERE email = $1".
Definition sql_select_user_by_id : string :=
  "SELECT id, name, email, created_at, updated_at FROM users WHERE id = $1".
Definition sql_user_id_exists : string := "SELECT EXISTS(SELECT 1 FROM users WHERE id = $1)".

(** ** Rendering the dynamic statements *)

Definition render_filter (k : FilterKind) (n : nat) : string :=
  match k with
  | FPriority => " AND priority = $" +:+ itoa n
  | FCategory => " AND category = $" +:+ itoa n
  | FIsCompleted => " AND is_completed = $" +:+ itoa n
  | FSearch => " AND (title ILIKE $" +:+ itoa n +:+ " OR description ILIKE $" +:+ itoa n +:+ ")"
  end.

Fixpoint render_filters (n : nat) (ks : list FilterKind) : string :=
  match ks with
  | [] => ""
  | k :: ks' => render_filter k n +:+ render_filters (S n) ks'
  end.

Definition upd_column (f : UpdField) : string :=
  match f with
  | UTitle => "title" | UDescription => "description" | UPriority => "priority"
  | UCategory => "category" | UIsCompleted => "is_completed" | UDueDate => "due_date"
  end.

Fixpoint render_sets (n : nat) (fs : list UpdField) : string :=
  match fs with
  | [] => ""
  | f :: fs' => ", " +:+ upd_column f +:+ " = $" +:+ itoa n +:+ render_sets (S n) fs'
  end.

Definition render_stmt (st : Stmt) : string :=
  match st with
  | SInsertTask => sql_insert_task
  | SSelectTasks ks => sql_select_tasks_base +:+ render_filters 2 ks +:+ sql_order_by
  | SSelectTask => sql_select_task
  | SUpdateTask fs =>
      let m := length fs in
      sql_update_head +:+ render_sets 1 fs
      +:+ " WHERE id = $" +:+ itoa (S m) +:+ " AND user_id = $" +:+ itoa (S (S m))
      +:+ " RETURNING " +:+ task_columns
  | SDeleteTask => sql_delete_task
  | SToggleTask => sql_toggle_task
  | SCount c => sql_count c
  | SEmailExists => sql_email_exists
  | SInsertUser => sql_insert_user
  | SSelectUserByEmail => sql_select_user_by_email
  | SSelectUserByID => sql_select_user_by_id
  | SUserIDExists => sql_user_id_exists
  end.

(** ** The language of the program, and its parser *)

Definition all_stmts : list Stmt :=
  [SInsertTask; SSelectTask; SDeleteTask; SToggleTask;
   SEmailExists; SInsertUser; SSelectUserByEmail; SSelectUserByID; SUserIDExists]
  ++ map SCount [CntTotal; CntCompleted; CntPending; CntHigh; CntOverdue]
  ++ map SSelectTasks (sublists filter_kinds)
  ++ map SUpdateTask (sublists upd_fields).

Definition parse_stmt (text : string) : option Stmt :=
  find (fun st => String.eqb (render_stmt st) text) all_stmts.

(** Every statement of the language is parsed back to itself: the texts
    of the 93 statements are pairwise distinct. *)
Lemma parse_render_all :
  forallb (fun st => bool_decide (parse_stmt (render_stmt st) = Some st)) all_stmts = true.
Proof. vm_compute. reflexivity. Qed.

Lemma parse_render (st : Stmt) : st ∈ all_stmts -> parse_stmt (render_stmt st) = Some st.
Proof.
  intros Hin. pose proof parse_render_all as H.
  apply forallb_forall with (x := st) in H; [|by apply list_elem_of_In].
  by apply bool_decide_eq_true in H.
Qed.

Lemma select_tasks_in_lang (ks : list FilterKind) :
  ks ∈ sublists filter_kinds -> SSelectTasks ks ∈ all_stmts.
Proof.
  intros H. unfold all_stmts. rewrite !elem_of_app. right. right. left.
  by apply list_elem_of_fmap_2.
Qed.

Lemma update_task_in_lang (fs : list UpdField) :
  fs ∈ sublists upd_fields -> SUpdateTask fs ∈ all_stmts.
Proof.
  intros H. unfold all_stmts. rewrite !elem_of_app. right. right. right.
  by apply list_elem_of_fmap_2.
Qed.

#[export] Hint Resolve select_tasks_in_lang update_task_in_lang : taskflow.

(** ** Evaluation *)

Local Open Scope tf_scope.

(** *** Arguments: [$n] is the [n]-th bound value *)

Definition arg (args : list Value) (n : nat) : option Value := args !! Nat.pred n.

(** PostgreSQL's [int4] input function on a text argument (decimal
    syntax): blanks around an optional sign and at least one digit, and
    the 32-bit range. *)
Definition is_pg_space (c : ascii) : bool :=
  let n := Ascii.nat_of_ascii c in (n =? 32)%nat || ((9 <=? n)%nat && (n <=? 13)%nat).

Fixpoint skip_spaces (s : string) : string :=
  match s with
  | String c s' => if is_pg_space c then skip_spaces s' else s
  | EmptyString => EmptyString
  end.

Definition digit_val (c : ascii) : option Z :=
  let n := Ascii.nat_of_ascii c in
  if (48 <=? n)%nat && (n <=? 57)%nat then Some (Z.of_nat (n - 48)) else None.

Fixpoint digits_prefix (s : string) : list Z * string :=
  match s with
  | String c s' =>
      match digit_val c with
      | Some d => let '(ds, r) := digits_prefix s' in (d :: ds, r)
      | None => ([], s)
      end
  | EmptyString => ([], EmptyString)
  end.

Definition digits_value (ds : list Z) : Z := fold_left (fun acc d => acc * 10 + d) ds 0.

Definition int4_min : Z := - 2 ^ 31.

Definition pg_parse_int (s : string) : SqlError + Z :=
  let s1 := skip_spaces s in
  let '(neg, s2) :=
    match s1 with
    | String c r =>
        if Ascii.eqb c "-"%char then (true, r)
        else if Ascii.eqb c "+"%char then (false, r) else (false, s1)
    | EmptyString => (false, EmptyString)
    end in
  let '(ds, rest) := digits_prefix s2 in
  match ds, skip_spaces rest with
  | _ :: _, EmptyString =>
      let v := if neg then - digits_value ds else digits_value ds in
      if decide (int4_min <= v <= int4_max) then inr v else inl ErrOutOfRange
  | _, _ => inl ErrInvalidText
  end.

(** Coercion of an argument to the type of the column it is compared with
    or assigned to.  lib/pq sends a Go [string] as text, which PostgreSQL
    reads with the column type's input function. *)
Definition to_int (v : option Value) : SqlError + Z :=
  match v with
  | Some (VInt z) => inr z
  | Some (VText s) => pg_parse_int s
  | _ => inl ErrBadArg
  end.

Definition to_text (v : option Value) : SqlError + string :=
  match v with Some (VText s) => inr s | _ => inl ErrBadArg end.

Definition to_bool (v : option Value) : SqlError + bool :=
  match v with Some (VBool b) => inr b | _ => inl ErrBadArg end.

Definition to_time (v : option Value) : SqlError + Time :=
  match v with Some (VTime t) => inr t | _ => inl ErrBadArg end.

Definition to_time_opt (v : option Value) : SqlError + option Time :=
  match v with
  | Some (VTime t) => inr (Some t)
  | Some VNull => inr None
  | _ => inl ErrBadArg
  end.

(** *** [LIKE] and [ILIKE]

    [%] matches any sequence, [_] any one character, and the default
    escape character [\] makes the next character literal. *)
Fixpoint like_match (p s : string) {struct p} : bool :=
  match p with
  | EmptyString => match s with EmptyString => true | String _ _ => false end
  | String c p' =>
      if Ascii.eqb c "%"%char then
        (fix any (s : string) : bool :=
           like_match p' s || match s with EmptyString => false | String _ s' => any s' end) s
      else if Ascii.eqb c "_"%char then
        match s with EmptyString => false | String _ s' => like_match p' s' end
      else if Ascii.eqb c "\"%char then
        match p', s with
        | String e p'', String d s' => Ascii.eqb e d && like_match p'' s'
        | _, _ => false
        end
      else
        match s with EmptyString => false | String d s' => Ascii.eqb c d && like_match p' s' end
  end.

(** [s ILIKE pat]: [LIKE] on the lower-cased strings. *)
Definition ilike (s pat : string) : bool := like_match (str_lower pat) (str_lower s).

(** *** Result sets *)

Inductive Rows :=
| RTasks (l : list Task.t)
| RUsers (l : list User.t)
| RBool (b : bool)
| RCount (n : Z)
| RAffected (n : Z).

(** *** The listing query *)

Inductive BoundFilter :=
| BPriority (s : string)
| BCategory (s : string)
| BIsCompleted (b : bool)
| BSearch (pat : string).

Definition bind_filter (args : list Value) (k : FilterKind) (n : nat) : SqlError + BoundFilter :=
  match k with
  | FPriority => let? s := to_text (arg args n) in inr (BPriority s)
  | FCategory => let? s := to_text (arg args n) in inr (BCategory s)
  | FIsCompleted => let? b := to_bool (arg args n) in inr (BIsCompleted b)
  | FSearch => let? p := to_text (arg args n) in inr (BSearch p)
  end.

Fixpoint bind_filters (args : list Value) (n : nat) (ks : list FilterKind)
  : SqlError + list BoundFilter :=
  match ks with
  | [] => inr []
  | k :: ks' =>
      let? b := bind_filter args k n in
      let? bs := bind_filters args (S n) ks' in inr (b :: bs)
  end.

Definition filter_holds (b : BoundFilter) (t : Task.t) : bool :=
  match b with
  | BPriority s => bool_decide (Task.Priority t = s)
  | BCategory s => bool_decide (Task.Category t = s)
  | BIsCompleted c => bool_decide (Task.IsCompleted t = c)
  | BSearch p => ilike (Task.Title t) p || ilike (Task.Description t) p
  end.

Definition listing_row (uid : Z) (bs : list BoundFilter) (t : Task.t) : bool :=
  bool_decide (Task.UserID t = uid) && forallb (fun b => filter_holds b t) bs.

(** [ORDER BY created_at DESC]; rows with equal [created_at] come in an
    order SQL leaves open (here: the order of the scan). *)
Definition created_desc (a b : Task.t) : Prop := Task.CreatedAt b <= Task.CreatedAt a.

#[global] Instance created_desc_dec : RelDecision created_desc.
Proof. intros a b. unfold created_desc. apply _. Defined.

Definition order_by_created_desc (l : list Task.t) : list Task.t := merge_sort created_desc l.

Definition eval_select_tasks (ks : list FilterKind) (args : list Value) (db : DB)
  : SqlError + (Rows * DB) :=
  let? uid := to_int (arg args 1) in
  let? bs := bind_filters args 2 ks in
  inr (RTasks (order_by_created_desc
                 (select_rows (fun t => listing_row uid bs t = true) (tasks db))), db).

(** *** Row updates: [UPDATE ... WHERE P] applies [f] to the rows of [P] *)

Definition update_where (P : Task.t -> Prop) `{!forall t, Decision (P t)}
    (f : Task.t -> Task.t) (db : DB) : Rows * DB :=
  (RTasks (map f (select_rows P (tasks db))),
   with_tasks db ((fun t => if decide (P t) then f t else t) <$> tasks db)).
Arguments update_where : simpl never.

Definition owned_row (id uid : Z) (t : Task.t) : Prop := Task.ID t = id /\ Task.UserID t = uid.

Inductive Assign :=
| ATitle (s : string)
| ADescription (s : string)
| APriority (s : string)
| ACategory (s : string)
| AIsCompleted (b : bool)
| ADueDate (d : option Time).

Definition bind_set (args : list Value) (f : UpdField) (n : nat) : SqlError + Assign :=
  match f with
  | UTitle => let? s := to_text (arg args n) in inr (ATitle s)
  | UDescription => let? s := to_text (arg args n) in inr (ADescription s)
  | UPriority => let? s := to_text (arg args n) in inr (APriority s)
  | UCategory => let? s := to_text (arg args n) in inr (ACategory s)
  | UIsCompleted => let? b := to_bool (arg args n) in inr (AIsCompleted b)
  | UDueDate => let? d := to_time_opt (arg args n) in inr (ADueDate d)
  end.

Fixpoint bind_sets (args : list Value) (n : nat) (fs : list UpdField) : SqlError + list Assign :=
  match fs with
  | [] => inr []
  | f :: fs' =>
      let? a := bind_set args f n in
      let? as' := bind_sets args (S n) fs' in inr (a :: as')
  end.

Definition apply_assign (a : Assign) (t : Task.t) : Task.t :=
  let 'Task.mk i u ti de pr ca co du cr up := t in
  match a with
  | ATitle s => Task.mk i u s de pr ca co du cr up
  | ADescription s => Task.mk i u ti s pr ca co du cr up
  | APriority s => Task.mk i u ti de s ca co du cr up
  | ACategory s => Task.mk i u ti de pr s co du cr up
  | AIsCompleted b => Task.mk i u ti de pr ca b du cr up
  | ADueDate d => Task.mk i u ti de pr ca co d cr up
  end.

Definition set_updated_at (now : Time) (t : Task.t) : Task.t :=
  let 'Task.mk i u ti de pr ca co du cr _ := t in Task.mk i u ti de pr ca co du cr now.

(** [SET updated_at = CURRENT_TIMESTAMP, c1 = $1, ...]. *)
Definition update_row (now : Time) (asg : list Assign) (t : Task.t) : Task.t :=
  foldr apply_assign (set_updated_at now t) asg.

Definition eval_update_task (fs : list UpdField) (args : list Value) (db : DB) (now : Time)
  : SqlError + (Rows * DB) :=
  let m := length fs in
  let? asg := bind_sets args 1 fs in
  let? id := to_int (arg args (S m)) in
  let? uid := to_int (arg args (S (S m))) in
  inr (update_where (owned_row id uid) (update_row now asg) db).

(** [SET is_completed = NOT is_completed, updated_at = CURRENT_TIMESTAMP]. *)
Definition toggle_row (now : Time) (t : Task.t) : Task.t :=
  let 'Task.mk i u ti de pr ca co du cr _ := t in Task.mk i u ti de pr ca (negb co) du cr now.

Definition eval_toggle_task (args : list Value) (db : DB) (now : Time) : SqlError + (Rows * DB) :=
  let? id := to_int (arg args 1) in
  let? uid := to_int (arg args 2) in
  inr (update_where (owned_row id uid) (toggle_row now) db).

(** *** The other task statements *)

(** [INSERT ... RETURNING]: the serial [id] is the next value of the
    sequence, which fails past the [int4] range. *)
Definition eval_insert_task (args : list Value) (db : DB) (now : Time) : SqlError + (Rows * DB) :=
  let? uid := to_int (arg args 1) in
  let? title := to_text (arg args 2) in
  let? desc := to_text (arg args 3) in
  let? prio := to_text (arg args 4) in
  let? cat := to_text (arg args 5) in
  let? due := to_time_opt (arg args 6) in
  let id := next_task_id db in
  if decide (id <= int4_max) then
    let t := Task.mk id uid title desc prio cat false due now now in
    inr (RTasks [t],
         {| users := users db; tasks := <[id := t]> (tasks db);
            next_user_id := next_user_id db; next_task_id := id + 1 |})
  else inl ErrOutOfRange.

Definition eval_select_task (args : list Value) (db : DB) : SqlError + (Rows * DB) :=
  let? id := to_int (arg args 1) in
  let? uid := to_int (arg args 2) in
  inr (RTasks (select_rows (owned_row id uid) (tasks db)), db).

Definition eval_delete_task (args : list Value) (db : DB) : SqlError + (Rows * DB) :=
  let? id := to_int (arg args 1) in
  let? uid := to_int (arg args 2) in
  inr (RAffected (Z.of_nat (length (select_rows (owned_row id uid) (tasks db)))),
       with_tasks db (filter (fun kv => ~ owned_row id uid kv.2) (tasks db))).

(** The condition each [COUNT( * )] adds to [user_id = $1].  A [NULL]
    [due_date] makes [due_date < $2] unknown, so the row is not counted. *)
Definition count_cond (c : CountKind) (now : Time) (t : Task.t) : bool :=
  match c with
  | CntTotal => true
  | CntCompleted => Task.IsCompleted t
  | CntPending => negb (Task.IsCompleted t)
  | CntHigh => bool_decide (Task.Priority t = "high")
  | CntOverdue =>
      negb (Task.IsCompleted t) &&
      match Task.DueDate t with Some d => bool_decide (d < now) | None => false end
  end.

Definition count_rows (uid : Z) (c : CountKind) (now : Time) (db : DB) : Z :=
  Z.of_nat (length (select_rows (fun t => Task.UserID t = uid /\ count_cond c now t = true) (tasks db))).

Definition eval_count (c : CountKind) (args : list Value) (db : DB) : SqlError + (Rows * DB) :=
  let? uid := to_int (arg args 1) in
  let? now := match c with CntOverdue => to_time (arg args 2) | _ => inr 0 end in
  inr (RCount (count_rows uid c now db), db).

(** *** The user statements *)

(** The columns a [SELECT] or [RETURNING] list without [password] leaves
    at Go's zero value. *)
Definition hide_password (u : User.t) : User.t :=
  let 'User.mk i n e _ c up := u in User.mk i n e "" c up.

Definition eval_email_exists (args : list Value) (db : DB) : SqlError + (Rows * DB) :=
  let? e := to_text (arg args 1) in
  inr (RBool (bool_decide (select_rows (fun u => User.Email u = e) (users db) <> [])), db).

Definition eval_insert_user (args : list Value) (db : DB) (now : Time) : SqlError + (Rows * DB) :=
  let? name := to_text (arg args 1) in
  let? email := to_text (arg args 2) in
  let? hash := to_text (arg args 3) in
  let id := next_user_id db in
  if decide (select_rows (fun u => User.Email u = email) (users db) <> []) then inl ErrUnique
  else if decide (id <= int4_max) then
    let u := User.mk id name email hash now now in
    inr (RUsers [hide_password u],
         {| users := <[id := u]> (users db); tasks := tasks db;
            next_user_id := id + 1; next_task_id := next_task_id db |})
  else inl ErrOutOfRange.

Definition eval_select_user_by_email (args : list Value) (db : DB) : SqlError + (Rows * DB) :=
  let? e := to_text (arg args 1) in
  inr (RUsers (select_rows (fun u => User.Email u = e) (users db)), db).

Definition eval_select_user_by_id (args : list Value) (db : DB) : SqlError + (Rows * DB) :=
  let? i := to_int (arg args 1) in
  inr (RUsers (hide_password <$> select_rows (fun u => User.ID u = i) (users db)), db).

Definition eval_user_id_exists (args : list Value) (db : DB) : SqlError + (Rows * DB) :=
  let? i := to_int (arg args 1) in
  inr (RBool (bool_decide (select_rows (fun u => User.ID u = i) (users db) <> [])), db).

(** *** Dispatch; [now] is [CURRENT_TIMESTAMP] *)

Definition eval_stmt (st : Stmt) (args : list Value) (db : DB) (now : Time)
  : SqlError + (Rows * DB) :=
  match st with
  | SInsertTask => eval_insert_task args db now
  | SSelectTasks ks => eval_select_tasks ks args db
  | SSelectTask => eval_select_task args db
  | SUpdateTask fs => eval_update_task fs args db now
  | SDeleteTask => eval_delete_task args db
  | SToggleTask => eval_toggle_task args db now
  | SCount c => eval_count c args db
  | SEmailExists => eval_email_exists args db
  | SInsertUser => eval_insert_user args db now
  | SSelectUserByEmail => eval_select_user_by_email args db
  | SSelectUserByID => eval_select_user_by_id args db
  | SUserIDExists => eval_user_id_exists args db
  end.

(** The server's view of a statement text: parse it, then run it. *)
Definition pg_run (db : DB) (now : Time) (text : string) (args : list Value)
  : SqlError + (Rows * DB) :=
  match parse_stmt text with
  | Some st => eval_stmt st args db now
  | None => inl ErrSyntax
  end.

Lemma pg_run_render db now st args :
  st ∈ all_stmts -> pg_run db now (render_stmt st) args = eval_stmt st args db now.
Proof. intros Hin. unfold pg_run. by rewrite parse_render. Qed.

(** ** The evaluator on one owner's row

    Under [keyed], a predicate [id = $i AND user_id = $u] selects, updates
    or deletes at most the row stored under [i], and only when it is
    owned by [u]. *)

Lemma select_owned next m id uid :
  keyed Task.ID next m ->
  select_rows (owned_row id uid) m =
    match m !! id with
    | Some t => if decide (Task.UserID t = uid) then [t] else []
    | None => []
    end.
Proof.
  intros Hk. rewrite (select_rows_by_key Task.ID _ next m id Hk) by (by intros ? [? ?]).
  destruct (m !! id) as [t|] eqn:E; [|done].
  destruct (Hk _ _ E) as [Hid _]. unfold owned_row.
  destruct (decide _) as [[_ ?]|Hn], (decide (Task.UserID t = uid)); try done.
  exfalso. by apply Hn.
Qed.

Lemma fmap_owned next m id uid (f : Task.t -> Task.t) :
  keyed Task.ID next m ->
  (fun t => if decide (owned_row id uid t) then f t else t) <$> m =
    match m !! id with
    | Some t => if decide (Task.UserID t = uid) then <[id := f t]> m else m
    | None => m
    end.
Proof.
  intros Hk. apply map_eq. intros j. rewrite lookup_fmap.
  destruct (m !! j) as [r|] eqn:Ej; simpl.
  - destruct (Hk _ _ Ej) as [Hj _]. subst j.
    destruct (decide (owned_row id uid r)) as [[Hid Hu]|Hn].
    + subst. rewrite Ej, decide_True by done. by rewrite lookup_insert_eq.
    + destruct (m !! id) as [t|] eqn:Ei; [|by rewrite Ej].
      destruct (decide (Task.UserID t = uid)); [|by rewrite Ej].
      rewrite lookup_insert_ne, Ej; [done|]. intros Heq. rewrite Heq, Ej in Ei.
      injection Ei as <-. by apply Hn.
  - destruct (m !! id) as [t|] eqn:Ei; [|by rewrite Ej].
    destruct (decide _); [|by rewrite Ej].
    rewrite lookup_insert_ne, Ej; [done|]. congruence.
Qed.

Lemma update_owned db id uid (f : Task.t -> Task.t) :
  keyed Task.ID (next_task_id db) (tasks db) ->
  update_where (owned_row id uid) f db =
    match tasks db !! id with
    | Some t =>
        if decide (Task.UserID t = uid)
        then (RTasks [f t], with_tasks db (<[id := f t]> (tasks db)))
        else (RTasks [], db)
    | None => (RTasks [], db)
    end.
Proof.
  intros Hk. unfold update_where.
  rewrite (select_owned _ _ _ _ Hk), (fmap_owned _ _ _ _ _ Hk).
  destruct (tasks db !! id); [case_decide|]; by autorewrite with tf_rw.
Qed.

Lemma filter_not_owned next m id uid :
  keyed Task.ID next m ->
  filter (fun kv => ~ owned_row id uid kv.2) m =
    match m !! id with
    | Some t => if decide (Task.UserID t = uid) then delete id m else m
    | None => m
    end.
Proof.
  intros Hk. apply map_eq. intros j. rewrite map_lookup_filter.
  destruct (m !! j) as [r|] eqn:Ej; simpl.
  - destruct (Hk _ _ Ej) as [Hj _]. subst j.
    destruct (decide (owned_row id uid r)) as [[Hid Hu]|Hn].
    + subst. rewrite option_guard_False by (intros Hn; apply Hn; by split).
      rewrite Ej, decide_True by done. by rewrite lookup_delete_eq.
    + rewrite option_guard_True by done.
      destruct (m !! id) as [t|] eqn:Ei; [|done].
      destruct (decide (Task.UserID t = uid)); [|done].
      rewrite lookup_delete_ne; [done|]. intros Heq. rewrite Heq, Ej in Ei.
      injection Ei as <-. by apply Hn.
  - destruct (m !! id) as [t|] eqn:Ei; [|by rewrite Ej].
    destruct (decide _); [|by rewrite Ej].
    rewrite lookup_delete_ne, Ej; [done|]. congruence.
Qed.

Lemma update_where_ext (P : Task.t -> Prop) `{!forall t, Decision (P t)} f g db :
  (forall t, f t = g t) -> update_where P f db = update_where P g db.
Proof.
  intros Hfg. unfold update_where. f_equal.
  - f_equal. apply map_ext. intros t. apply Hfg.
  - f_equal. apply map_fmap_ext. intros _ t _. by case_decide.
Qed.

(** ** [LIKE] on patterns built from [%] and literal text *)

Definition like_special (c : ascii) : bool :=
  Ascii.eqb c "%"%char || Ascii.eqb c "_"%char || Ascii.eqb c "\"%char.

(** A search term in which no character is a wildcard or the escape. *)
Fixpoint wildcard_free (w : string) : bool :=
  match w with
  | EmptyString => true
  | String c w' => negb (like_special c) && wildcard_free w'
  end.

Lemma like_pct_nil p : like_match (String "%" p) "" = like_match p "".
Proof. simpl. by destruct (like_match p ""). Qed.

Lemma like_pct_cons p c s :
  like_match (String "%" p) (String c s) = like_match p (String c s) || like_match (String "%" p) s.
Proof. reflexivity. Qed.

(** [%p] matches [s] when [p] matches a suffix of [s]. *)
Lemma like_pct_iff p s :
  like_match (String "%" p) s = true <-> exists a b, s = a +:+ b /\ like_match p b = true.
Proof.
  induction s as [|c s IH].
  - rewrite like_pct_nil. split.
    + intros H. by exists "", "".
    + intros (a & b & Hab & Hp). destruct a; [|discriminate].
      rewrite str_app_nil_l in Hab. by subst.
  - rewrite like_pct_cons, orb_true_iff, IH. split.
    + intros [H | (a & b & -> & Hp)].
      * by exists "", (String c s).
      * by exists (String c a), b.
    + intros (a & b & Hab & Hp). destruct a as [|c' a].
      * left. rewrite str_app_nil_l in Hab. by subst.
      * right. rewrite str_app_cons in Hab. injection Hab as -> ->. eauto.
Qed.

Lemma like_lit_cons c p s :
  like_special c = false ->
  like_match (String c p) s =
    match s with EmptyString => false | String d s' => Ascii.eqb c d && like_match p s' end.
Proof.
  unfold like_special. intros Hc. apply orb_false_iff in Hc as [Hc Hbs].
  apply orb_false_iff in Hc as [Hpct Hus]. simpl. by rewrite Hpct, Hus, Hbs.
Qed.

(** A wildcard-free [w] followed by [p] matches exactly the strings
    that start with [w] and continue with a match of [p]. *)
Lemma like_prefix_iff w p s :
  wildcard_free w = true ->
  like_match (w +:+ p) s = true <-> exists b, s = w +:+ b /\ like_match p b = true.
Proof.
  revert s. induction w as [|c w IH]; intros s Hw.
  - split; [eauto | by intros (b & -> & Hb)].
  - simpl in Hw. apply andb_true_iff in Hw as [Hc Hw]. apply negb_true_iff in Hc.
    rewrite str_app_cons, like_lit_cons by done. destruct s as [|d s].
    + split; [done|]. by intros (b & Hb & _).
    + rewrite andb_true_iff, IH by done. split.
      * intros [Hcd (b & -> & Hb)]. apply Ascii.eqb_eq in Hcd as ->. eauto.
      * intros (b & Hb & Hp). rewrite str_app_cons in Hb. injection Hb as -> ->.
        rewrite Ascii.eqb_refl. eauto.
Qed.

Lemma like_pct_all s : like_match "%" s = true.
Proof. apply like_pct_iff. exists s, "". by rewrite str_app_nil_r. Qed.

(** [%w%] with [w] wildcard free is substring search. *)
Lemma like_contains_iff w s :
  wildcard_free w = true ->
  like_match ("%" +:+ w +:+ "%") s = true <-> exists a b, s = a +:+ w +:+ b.
Proof.
  intros Hw. rewrite str_app_cons, str_app_nil_l, like_pct_iff. split.
  - intros (a & b & -> & Hb). apply like_prefix_iff in Hb as (b' & -> & _); [|done]. eauto.
  - intros (a & b & ->). exists a, (w +:+ b). split; [done|].
    apply like_prefix_iff; [done|]. exists b. split; [done|]. apply like_pct_all.
Qed.

(** Lower-casing neither creates nor removes a special character. *)
Lemma like_special_lower c : like_special (ascii_lower c) = like_special c.
Proof. destruct c as [[] [] [] [] [] [] [] []]; reflexivity. Qed.

Lemma wildcard_free_lower w : wildcard_free (str_lower w) = wildcard_free w.
Proof. induction w as [|c w IH]; simpl; [done|]. by rewrite like_special_lower, IH. Qed.

Lemma str_lower_pct : str_lower "%" = "%".
Proof. reflexivity. Qed.

(** [ILIKE '%' || w || '%'] with a term [w] free of [%], [_] and the
    escape [\] is case-insensitive substring search. *)
Theorem ilike_search_substring (s w : string) :
  wildcard_free w = true ->
  ilike s ("%" +:+ w +:+ "%") = true <-> exists a b, str_lower s = a +:+ str_lower w +:+ b.
Proof.
  intros Hw. unfold ilike. rewrite !str_lower_app, !str_lower_pct.
  apply like_contains_iff. by rewrite wildcard_free_lower.
Qed.

(** [_] is not escaped: [%_%] matches every non-empty string. *)
Lemma ilike_underscore_nonempty s : s <> "" -> ilike s "%_%" = true.
Proof.
  intros Hs. unfold ilike. change (str_lower "%_%") with (String "%" (String "_" "%")).
  apply like_pct_iff. destruct s as [|c s]; [done|].
  exists "", (String (ascii_lower c) (str_lower s)). split; [done|].
  change (like_match (String "_" "%") (String (ascii_lower c) (str_lower s)))
    with (like_match "%" (str_lower s)).
  apply like_pct_all.
Qed.
