(* ===== verification/Driver.v ===== *)
(** * Driver: [database/sql] as the handlers use it

    - [Env]: what a request runs against: the database, the instant of the
      request ([CURRENT_TIMESTAMP] and Go's [time.Now()]), and a fault
      oracle: the [i]-th flag says whether the [i]-th statement of the
      request fails on the connection (an exhausted list means no fault).
    - [M]: the state monad over [Env], with stdpp's [x ← m; k] notation.
    - [SqlDriver]: the interface the handlers are proved against: running
      the text of a statement of the program does what [eval_stmt] says.
      [pg_driver] is its instance, the PostgreSQL model of [Sql].
    - [exec]: [db.QueryRow]/[db.Query]/[db.Exec]; [scan_task] and the other
      scanners are [Row.Scan] and the [rows.Next()] loop. *)

From S2P Require Import Prelude Models Store Sql.

Local Open Scope Z_scope.

Record Env := mkEnv {
  env_db : DB;
  env_now : Time;
  env_faults : list bool
}.

Definition M (A : Type) : Type := Env -> A * Env.

#[global] Instance M_ret : MRet M := fun A x e => (x, e).
#[global] Instance M_bind : MBind M := fun A B f m e => let '(a, e') := m e in f a e'.

Lemma M_bind_run {A B} (m : M A) (f : A -> M B) e :
  (m ≫= f) e = let '(a, e') := m e in f a e'.
Proof. reflexivity. Qed.

Lemma M_ret_run {A} (x : A) e : (mret x : M A) e = (x, e).
Proof. reflexivity. Qed.

#[export] Hint Rewrite @M_bind_run @M_ret_run : tf_rw.

(** [time.Now()]: the instant of the request. *)
Definition get_now : M Time := fun e => (env_now e, e).

Class SqlDriver := {
  drv_run : DB -> Time -> string -> list Value -> SqlError + (Rows * DB);
  drv_run_render : forall db now st args,
    st ∈ all_stmts -> drv_run db now (render_stmt st) args = eval_stmt st args db now
}.

#[global] Instance pg_driver : SqlDriver :=
  {| drv_run := pg_run; drv_run_render := pg_run_render |}.

Definition pop_fault (fs : list bool) : bool * list bool :=
  match fs with [] => (false, []) | b :: fs' => (b, fs') end.

(** The environment after a statement: its database and the rest of the
    oracle. *)
Definition settle (r : SqlError + (Rows * DB)) (e : Env) (fs : list bool)
  : (SqlError + Rows) * Env :=
  match r with
  | inl err => (inl err, mkEnv (env_db e) (env_now e) fs)
  | inr (rows, db') => (inr rows, mkEnv db' (env_now e) fs)
  end.

Section WithDriver.
Context `{!SqlDriver}.

Definition exec (text : string) (args : list Value) : M (SqlError + Rows) := fun e =>
  let '(fault, fs) := pop_fault (env_faults e) in
  if fault then (inl ErrConn, mkEnv (env_db e) (env_now e) fs)
  else settle (drv_run (env_db e) (env_now e) text args) e fs.

Lemma exec_render st args e :
  st ∈ all_stmts ->
  exec (render_stmt st) args e =
    let '(fault, fs) := pop_fault (env_faults e) in
    if fault then (inl ErrConn, mkEnv (env_db e) (env_now e) fs)
    else settle (eval_stmt st args (env_db e) (env_now e)) e fs.
Proof. intros Hin. unfold exec. by rewrite drv_run_render. Qed.
End WithDriver.

Arguments exec {_} _ _ _ : simpl never.

(** ** Scanning *)

(** [QueryRow(...).Scan(&task...)]: the first row, [ErrNoRows] when
    there is none. *)
Definition scan_task (r : SqlError + Rows) : SqlError + Task.t :=
  match r with
  | inl e => inl e
  | inr (RTasks (t :: _)) => inr t
  | inr (RTasks []) => inl ErrNoRows
  | inr _ => inl ErrBadArg
  end.

Definition scan_user (r : SqlError + Rows) : SqlError + User.t :=
  match r with
  | inl e => inl e
  | inr (RUsers (u :: _)) => inr u
  | inr (RUsers []) => inl ErrNoRows
  | inr _ => inl ErrBadArg
  end.

Definition scan_bool (r : SqlError + Rows) : SqlError + bool :=
  match r with
  | inl e => inl e
  | inr (RBool b) => inr b
  | inr _ => inl ErrBadArg
  end.

Definition scan_count (r : SqlError + Rows) : SqlError + Z :=
  match r with
  | inl e => inl e
  | inr (RCount n) => inr n
  | inr _ => inl ErrBadArg
  end.

(** [for rows.Next() { if err := rows.Scan(...); err != nil { continue } ... }] *)
Definition rows_tasks (rows : Rows) : list Task.t :=
  match rows with RTasks l => l | _ => [] end.

(** [rowsAffected, _ := result.RowsAffected()]: the error is dropped and
    the count is then 0. *)
Definition rows_affected (rows : Rows) : Z :=
  match rows with RAffected n => n | _ => 0 end.

(** The sample database at instant 200, with no connection fault. *)
Definition sample_env : Env := mkEnv sample_db 200 [].

(** ** Running a statement of the program *)

(** A closed statement's membership in the language is decided by
    computation. *)
#[export] Hint Extern 1 (_ ∈ all_stmts) =>
  apply (bool_decide_unpack _); vm_compute; exact I : taskflow.

Section Running.
Context `{!SqlDriver}.

Lemma exec_nofault st args e :
  st ∈ all_stmts -> env_faults e = [] ->
  exec (render_stmt st) args e = settle (eval_stmt st args (env_db e) (env_now e)) e [].
Proof. intros Hin Hf. rewrite exec_render by done. by rewrite Hf. Qed.
End Running.

(** Unfold a handler down to the evaluation of its statement [st]. *)
Ltac run_stmt txt st :=
  autorewrite with tf_rw;
  change txt with (render_stmt st);
  rewrite exec_nofault by (auto with taskflow).
