(* ===== verification/QueryBuilder.v ===== *)
(** * QueryBuilder: the dynamic SQL of [GetTasks] and [UpdateTask]

    The Go code keeps three variables, [query], [args] and [argCount], and
    runs one [if] block per optional input (task_handler.go 61-94 and
    153-196).  [QB] is that triple; each block is one definition.  The
    theorems show that the text built is [render_stmt] of the statement
    whose shape is the set of present inputs, and that the arguments are
    the present values in the same order: every [$n] names the [n]-th
    argument, and no input value ever reaches the text. *)

From S2P Require Import Prelude Models Store Sql.

Local Open Scope Z_scope.

Record QB := mkQB { query : string; args : list Value; argCount : nat }.

(** ** [c.Query(key)]: the first value of [key] in the URL query, or [""] *)

Definition QueryParams := list (string * string).

Definition c_Query (qs : QueryParams) (key : string) : string :=
  match list_find (fun kv => kv.1 = key) qs with
  | Some (_, (_, v)) => v
  | None => ""
  end.

(** ** [GetTasks] (lines 61-94) *)

Definition gt_init (userID : Z) : QB :=
  {| query := sql_select_tasks_base; args := [VInt userID]; argCount := 1 |}.

Definition gt_priority (qs : QueryParams) (b : QB) : QB :=
  let priority := c_Query qs "priority" in
  if decide (priority <> "") then
    let n := S (argCount b) in
    {| query := query b +:+ " AND priority = $" +:+ itoa n;
       args := args b ++ [VText priority]; argCount := n |}
  else b.

Definition gt_category (qs : QueryParams) (b : QB) : QB :=
  let category := c_Query qs "category" in
  if decide (category <> "") then
    let n := S (argCount b) in
    {| query := query b +:+ " AND category = $" +:+ itoa n;
       args := args b ++ [VText category]; argCount := n |}
  else b.

Definition gt_is_completed (qs : QueryParams) (b : QB) : QB :=
  let isCompleted := c_Query qs "is_completed" in
  if decide (isCompleted <> "") then
    let n := S (argCount b) in
    {| query := query b +:+ " AND is_completed = $" +:+ itoa n;
       args := args b ++ [VBool (bool_decide (isCompleted = "true"))]; argCount := n |}
  else b.

Definition gt_search (qs : QueryParams) (b : QB) : QB :=
  let search := c_Query qs "search" in
  if decide (search <> "") then
    let n := S (argCount b) in
    {| query := query b +:+ " AND (title ILIKE $" +:+ itoa n
                +:+ " OR description ILIKE $" +:+ itoa n +:+ ")";
       args := args b ++ [VText ("%" +:+ search +:+ "%")]; argCount := n |}
  else b.

Definition build_get_tasks (userID : Z) (qs : QueryParams) : string * list Value :=
  let b := gt_search qs (gt_is_completed qs (gt_category qs (gt_priority qs (gt_init userID)))) in
  (query b +:+ " ORDER BY created_at DESC", args b).

(** ** [UpdateTask] (lines 153-196) *)

Definition ut_init : QB :=
  {| query := "UPDATE tasks SET updated_at = CURRENT_TIMESTAMP"; args := []; argCount := 0 |}.

(** One [if req.F != nil] block: [, col = $n] and the pointee. *)
Definition ut_field (col : string) (v : option Value) (b : QB) : QB :=
  match v with
  | Some x =>
      let n := S (argCount b) in
      {| query := query b +:+ ", " +:+ col +:+ " = $" +:+ itoa n;
         args := args b ++ [x]; argCount := n |}
  | None => b
  end.

Definition ut_fields (req : UpdateTaskRequest.t) (b : QB) : QB :=
  ut_field "due_date" (VTime <$> UpdateTaskRequest.DueDate req)
  (ut_field "is_completed" (VBool <$> UpdateTaskRequest.IsCompleted req)
  (ut_field "category" (VText <$> UpdateTaskRequest.Category req)
  (ut_field "priority" (VText <$> UpdateTaskRequest.Priority req)
  (ut_field "description" (VText <$> UpdateTaskRequest.Description req)
  (ut_field "title" (VText <$> UpdateTaskRequest.Title req) b))))).

Definition ut_where (taskID : string) (userID : Z) (b : QB) : QB :=
  let n1 := S (argCount b) in
  let b1 := {| query := query b +:+ " WHERE id = $" +:+ itoa n1;
               args := args b ++ [VText taskID]; argCount := n1 |} in
  let n2 := S (argCount b1) in
  {| query := query b1 +:+ " AND user_id = $" +:+ itoa n2;
     args := args b1 ++ [VInt userID]; argCount := n2 |}.

Definition build_update_task (req : UpdateTaskRequest.t) (taskID : string) (userID : Z)
  : string * list Value :=
  let b := ut_where taskID userID (ut_fields req ut_init) in
  (query b +:+ " RETURNING " +:+ task_columns, args b).

(** ** The listing query refines [SSelectTasks] *)

Definition filter_param (k : FilterKind) : string :=
  match k with
  | FPriority => "priority" | FCategory => "category"
  | FIsCompleted => "is_completed" | FSearch => "search"
  end.

(** The filters whose parameter is present and not empty, in code order. *)
Definition present_filters (qs : QueryParams) : list FilterKind :=
  filter (fun k => c_Query qs (filter_param k) <> "") filter_kinds.

(** The argument each filter binds. *)
Definition filter_value (qs : QueryParams) (k : FilterKind) : Value :=
  match k with
  | FPriority => VText (c_Query qs "priority")
  | FCategory => VText (c_Query qs "category")
  | FIsCompleted => VBool (bool_decide (c_Query qs "is_completed" = "true"))
  | FSearch => VText ("%" +:+ c_Query qs "search" +:+ "%")
  end.

(** The builder after the blocks of the filters [ks]. *)
Definition gt_state (uid : Z) (qs : QueryParams) (ks : list FilterKind) : QB :=
  {| query := sql_select_tasks_base +:+ render_filters 2 ks;
     args := VInt uid :: map (filter_value qs) ks;
     argCount := S (length ks) |}.

Lemma render_filters_snoc n ks k :
  render_filters n (ks ++ [k]) = render_filters n ks +:+ render_filter k (n + length ks).
Proof.
  revert n. induction ks as [|k' ks IH]; intros n; simpl.
  - by rewrite Nat.add_0_r, str_app_nil_r.
  - rewrite IH, str_app_assoc. do 3 f_equal. lia.
Qed.

Lemma gt_state_snoc uid qs ks k :
  {| query := query (gt_state uid qs ks) +:+ render_filter k (S (argCount (gt_state uid qs ks)));
     args := args (gt_state uid qs ks) ++ [filter_value qs k];
     argCount := S (argCount (gt_state uid qs ks)) |} = gt_state uid qs (ks ++ [k]).
Proof.
  unfold gt_state; simpl. f_equal.
  - by rewrite render_filters_snoc, str_app_assoc.
  - by rewrite map_app.
  - rewrite length_app. simpl. lia.
Qed.

(** Each [if] block appends its filter exactly when its parameter is set. *)
Ltac gt_block qs p :=
  rewrite filter_cons, filter_nil; cbn [filter_param];
  destruct (decide (c_Query qs p <> ""));
  [rewrite <- gt_state_snoc; reflexivity | by rewrite app_nil_r].

Lemma gt_priority_state uid qs ks :
  gt_priority qs (gt_state uid qs ks)
  = gt_state uid qs (ks ++ filter (fun k => c_Query qs (filter_param k) <> "") [FPriority]).
Proof. unfold gt_priority. gt_block qs "priority". Qed.

Lemma gt_category_state uid qs ks :
  gt_category qs (gt_state uid qs ks)
  = gt_state uid qs (ks ++ filter (fun k => c_Query qs (filter_param k) <> "") [FCategory]).
Proof. unfold gt_category. gt_block qs "category". Qed.

Lemma gt_is_completed_state uid qs ks :
  gt_is_completed qs (gt_state uid qs ks)
  = gt_state uid qs (ks ++ filter (fun k => c_Query qs (filter_param k) <> "") [FIsCompleted]).
Proof. unfold gt_is_completed. gt_block qs "is_completed". Qed.

Lemma gt_search_state uid qs ks :
  gt_search qs (gt_state uid qs ks)
  = gt_state uid qs (ks ++ filter (fun k => c_Query qs (filter_param k) <> "") [FSearch]).
Proof. unfold gt_search. gt_block qs "search". Qed.

(** The four blocks leave the builder in the state of the present filters. *)
Lemma gt_blocks_state uid qs :
  gt_search qs (gt_is_completed qs (gt_category qs (gt_priority qs (gt_init uid))))
  = gt_state uid qs (present_filters qs).
Proof.
  replace (gt_init uid) with (gt_state uid qs [])
    by (unfold gt_state, gt_init; simpl; by rewrite str_app_nil_r).
  rewrite gt_priority_state, gt_category_state, gt_is_completed_state, gt_search_state.
  by rewrite <- !app_assoc, !app_nil_l, <- !filter_app.
Qed.

Lemma build_get_tasks_state uid qs :
  build_get_tasks uid qs =
    (sql_select_tasks_base +:+ render_filters 2 (present_filters qs) +:+ sql_order_by,
     VInt uid :: map (filter_value qs) (present_filters qs)).
Proof.
  unfold build_get_tasks. rewrite gt_blocks_state. unfold gt_state; simpl.
  by rewrite str_app_assoc.
Qed.

(** C11. The text [GetTasks] builds is the rendering of the listing
    statement whose filters are the present parameters, and its
    arguments are the owner's id followed by one value per filter, in
    the same order. *)
Theorem build_get_tasks_refines (uid : Z) (qs : QueryParams) :
  build_get_tasks uid qs =
    (render_stmt (SSelectTasks (present_filters qs)),
     VInt uid :: map (filter_value qs) (present_filters qs)).
Proof. rewrite build_get_tasks_state. reflexivity. Qed.

(** ** The partial update refines [SUpdateTask] *)

(** The argument of each field, when its pointer is not nil. *)
Definition upd_value (req : UpdateTaskRequest.t) (f : UpdField) : option Value :=
  match f with
  | UTitle => VText <$> UpdateTaskRequest.Title req
  | UDescription => VText <$> UpdateTaskRequest.Description req
  | UPriority => VText <$> UpdateTaskRequest.Priority req
  | UCategory => VText <$> UpdateTaskRequest.Category req
  | UIsCompleted => VBool <$> UpdateTaskRequest.IsCompleted req
  | UDueDate => VTime <$> UpdateTaskRequest.DueDate req
  end.

Definition present_fields (req : UpdateTaskRequest.t) : list UpdField :=
  filter (fun f => is_Some (upd_value req f)) upd_fields.

Definition ut_state (req : UpdateTaskRequest.t) (fs : list UpdField) : QB :=
  {| query := sql_update_head +:+ render_sets 1 fs;
     args := omap (upd_value req) fs;
     argCount := length fs |}.

Lemma render_sets_snoc n fs f :
  render_sets n (fs ++ [f]) =
    render_sets n fs +:+ (", " +:+ upd_column f +:+ " = $" +:+ itoa (n + length fs)).
Proof.
  revert n. induction fs as [|f' fs IH]; intros n; simpl.
  - by rewrite Nat.add_0_r, str_app_nil_r, str_app_nil_l.
  - by rewrite IH, !str_app_assoc, Nat.add_succ_r.
Qed.

Lemma ut_field_state req fs f :
  ut_field (upd_column f) (upd_value req f) (ut_state req fs)
  = ut_state req (fs ++ filter (fun f => is_Some (upd_value req f)) [f]).
Proof.
  unfold ut_field. rewrite filter_cons, filter_nil.
  destruct (upd_value req f) as [x|] eqn:E; case_decide as Hs;
    try (destruct Hs; discriminate); try (exfalso; by apply Hs).
  - unfold ut_state; simpl. f_equal.
    + by rewrite render_sets_snoc, !str_app_assoc.
    + by rewrite omap_app; simpl; rewrite E.
    + rewrite length_app. simpl. lia.
  - by rewrite app_nil_r.
Qed.

(** The six blocks of [ut_fields] are [ut_field] at each column. *)
Lemma ut_fields_blocks req b :
  ut_fields req b =
    ut_field (upd_column UDueDate) (upd_value req UDueDate)
    (ut_field (upd_column UIsCompleted) (upd_value req UIsCompleted)
    (ut_field (upd_column UCategory) (upd_value req UCategory)
    (ut_field (upd_column UPriority) (upd_value req UPriority)
    (ut_field (upd_column UDescription) (upd_value req UDescription)
    (ut_field (upd_column UTitle) (upd_value req UTitle) b))))).
Proof. reflexivity. Qed.

Lemma build_update_task_state req taskID uid :
  build_update_task req taskID uid =
    (sql_update_head +:+ render_sets 1 (present_fields req)
       +:+ " WHERE id = $" +:+ itoa (S (length (present_fields req)))
       +:+ " AND user_id = $" +:+ itoa (S (S (length (present_fields req))))
       +:+ " RETURNING " +:+ task_columns,
     omap (upd_value req) (present_fields req) ++ [VText taskID; VInt uid]).
Proof.
  unfold build_update_task. rewrite ut_fields_blocks.
  replace ut_init with (ut_state req [])
    by (unfold ut_state, ut_init; simpl; by rewrite str_app_nil_r).
  rewrite (ut_field_state req [] UTitle), (ut_field_state req _ UDescription),
    (ut_field_state req _ UPriority), (ut_field_state req _ UCategory),
    (ut_field_state req _ UIsCompleted), (ut_field_state req _ UDueDate).
  rewrite <- !app_assoc, !app_nil_l, <- !filter_app.
  unfold ut_where, ut_state; simpl. rewrite !str_app_assoc, <- app_assoc. reflexivity.
Qed.

(** C12. The text [UpdateTask] builds is the rendering of the update
    statement whose assignments are the non-nil fields; the arguments
    are their values in the same order, then the task id and the owner's
    id. *)
Theorem build_update_task_refines (req : UpdateTaskRequest.t) (taskID : string) (uid : Z) :
  build_update_task req taskID uid =
    (render_stmt (SUpdateTask (present_fields req)),
     omap (upd_value req) (present_fields req) ++ [VText taskID; VInt uid]).
Proof. rewrite build_update_task_state. reflexivity. Qed.

(** C13. No input value reaches the SQL text: two requests with the same
    present parameters (fields) produce the same text, whatever the
    values, the task id and the owner. *)
Theorem builders_text_value_independent :
  (forall (u1 u2 : Z) (qs1 qs2 : QueryParams),
     present_filters qs1 = present_filters qs2 ->
     (build_get_tasks u1 qs1).1 = (build_get_tasks u2 qs2).1) /\
  (forall (r1 r2 : UpdateTaskRequest.t) (id1 id2 : string) (u1 u2 : Z),
     present_fields r1 = present_fields r2 ->
     (build_update_task r1 id1 u1).1 = (build_update_task r2 id2 u2).1).
Proof.
  split; intros * Heq.
  - by rewrite !build_get_tasks_state, Heq.
  - by rewrite !build_update_task_state, Heq.
Qed.

(** The texts the builders produce are in the language of the program. *)
Lemma present_filters_in_lang qs : SSelectTasks (present_filters qs) ∈ all_stmts.
Proof. apply select_tasks_in_lang, filter_in_sublists. Qed.

Lemma present_fields_in_lang req : SUpdateTask (present_fields req) ∈ all_stmts.
Proof. apply update_task_in_lang, filter_in_sublists. Qed.

#[export] Hint Resolve present_filters_in_lang present_fields_in_lang : taskflow.

(** ** The server binds the built arguments *)

(** The predicate each present filter contributes, once bound. *)
Definition filter_bound (qs : QueryParams) (k : FilterKind) : BoundFilter :=
  match k with
  | FPriority => BPriority (c_Query qs "priority")
  | FCategory => BCategory (c_Query qs "category")
  | FIsCompleted => BIsCompleted (bool_decide (c_Query qs "is_completed" = "true"))
  | FSearch => BSearch ("%" +:+ c_Query qs "search" +:+ "%")
  end.

Lemma arg_app_length (pre rest : list Value) v :
  arg (pre ++ v :: rest) (S (length pre)) = Some v.
Proof. unfold arg. simpl. rewrite lookup_app_r, Nat.sub_diag by lia. done. Qed.

Lemma bind_filters_values qs pre ks :
  bind_filters (pre ++ map (filter_value qs) ks) (S (length pre)) ks = inr (map (filter_bound qs) ks).
Proof.
  revert pre. induction ks as [|k ks IH]; intros pre; [done|].
  cbn [bind_filters map].
  assert (bind_filter (pre ++ filter_value qs k :: map (filter_value qs) ks) k (S (length pre))
          = inr (filter_bound qs k)) as ->
    by (destruct k; unfold bind_filter; rewrite arg_app_length; reflexivity).
  rewrite sbind_inr.
  replace (pre ++ filter_value qs k :: map (filter_value qs) ks)
    with ((pre ++ [filter_value qs k]) ++ map (filter_value qs) ks) by by rewrite <- app_assoc.
  pose proof (IH (pre ++ [filter_value qs k])) as IHk.
  rewrite length_app, Nat.add_1_r in IHk. by rewrite IHk.
Qed.
