(* ===== verification/TaskHandlers.v ===== *)
(** * TaskHandlers: the seven handlers of [task_handler.go]

    Each handler is a computation of the monad [M] (database, request
    instant, fault oracle) returning the response envelope, over any
    [SqlDriver].  [userID] is [c.GetInt("user_id")], set by the auth
    middleware; [taskID] is [c.Param("id")], a string that PostgreSQL
    reads as an integer; the request body is the decoder's result.

    The theorems give each handler's behaviour on every branch under the
    invariant [db_wf], show that every handler keeps [db_wf] and never
    touches a task of another owner, and state the findings (the [ILIKE]
    wildcards, the [is_completed] coercion, the dropped [COUNT] errors). *)

From S2P Require Import Prelude Models Store Sql Driver QueryBuilder.

Local Open Scope Z_scope.


(** A nil [*time.Time] is bound as SQL [NULL]. *)
Definition time_ptr_value (d : option Time) : Value :=
  match d with Some t => VTime t | None => VNull end.

(** Lines 33-38: the defaults of a new task. *)
Definition create_defaults (req : CreateTaskRequest.t) : CreateTaskRequest.t :=
  let 'CreateTaskRequest.mk ti de pr ca du := req in
  CreateTaskRequest.mk ti de
    (if decide (pr = "") then PriorityMedium else pr)
    (if decide (ca = "") then CategoryPersonal else ca) du.

(** The body of [PUT /tasks/:id] decoded into [UpdateTaskRequest]. *)
Definition decode_update_body (body : string + UpdateTaskBody.t) : string + UpdateTaskRequest.t :=
  match body with inl e => inl e | inr b => inr (decode_update b) end.

(** [Scan(&stats.X)] leaves [X] at zero when the query failed. *)
Definition count_or_zero (r : SqlError + Rows) : Z :=
  match scan_count r with inr n => n | inl _ => 0 end.

Section Handlers.
Context `{!SqlDriver}.

Definition CreateTask (userID : Z) (body : string + CreateTaskRequest.t) : M Response :=
  match should_bind validate_create body with
  | inl err => mret (ErrorResponse StatusBadRequest err)
  | inr req0 =>
      let req := create_defaults req0 in
      r ← exec sql_insert_task
            [VInt userID; VText (CreateTaskRequest.Title req);
             VText (CreateTaskRequest.Description req); VText (CreateTaskRequest.Priority req);
             VText (CreateTaskRequest.Category req); time_ptr_value (CreateTaskRequest.DueDate req)];
      mret match scan_task r with
           | inl _ => ErrorResponse StatusInternalServerError "Failed to create task"
           | inr task => SuccessResponse StatusCreated "Task created successfully" (PTask task)
           end
  end.

Definition GetTasks (userID : Z) (qs : QueryParams) : M Response :=
  let '(q, a) := build_get_tasks userID qs in
  r ← exec q a;
  mret match r with
       | inl _ => ErrorResponse StatusInternalServerError "Failed to fetch tasks"
       | inr rows => SuccessResponse StatusOK "Tasks retrieved successfully" (PTasks (rows_tasks rows))
       end.

Definition GetTask (userID : Z) (taskID : string) : M Response :=
  r ← exec sql_select_task [VText taskID; VInt userID];
  mret match scan_task r with
       | inl ErrNoRows => ErrorResponse StatusNotFound "Task not found"
       | inl _ => ErrorResponse StatusInternalServerError "Failed to fetch task"
       | inr task => SuccessResponse StatusOK "Task retrieved successfully" (PTask task)
       end.

Definition UpdateTask (userID : Z) (taskID : string) (body : string + UpdateTaskBody.t)
  : M Response :=
  match should_bind validate_update (decode_update_body body) with
  | inl err => mret (ErrorResponse StatusBadRequest err)
  | inr req =>
      let '(q, a) := build_update_task req taskID userID in
      r ← exec q a;
      mret match scan_task r with
           | inl ErrNoRows => ErrorResponse StatusNotFound "Task not found"
           | inl _ => ErrorResponse StatusInternalServerError "Failed to update task"
           | inr task => SuccessResponse StatusOK "Task updated successfully" (PTask task)
           end
  end.

Definition DeleteTask (userID : Z) (taskID : string) : M Response :=
  r ← exec sql_delete_task [VText taskID; VInt userID];
  mret match r with
       | inl _ => ErrorResponse StatusInternalServerError "Failed to delete task"
       | inr res =>
           if decide (rows_affected res = 0) then ErrorResponse StatusNotFound "Task not found"
           else SuccessResponse StatusOK "Task deleted successfully" PNone
       end.

Definition ToggleComplete (userID : Z) (taskID : string) : M Response :=
  r ← exec sql_toggle_task [VText taskID; VInt userID];
  mret match scan_task r with
       | inl ErrNoRows => ErrorResponse StatusNotFound "Task not found"
       | inl _ => ErrorResponse StatusInternalServerError "Failed to toggle task"
       | inr task => SuccessResponse StatusOK "Task toggled successfully" (PTask task)
       end.

(** Five independent counts; a failed one is silently left at zero. *)
Definition GetStats (userID : Z) : M Response :=
  total ← exec (sql_count CntTotal) [VInt userID];
  completed ← exec (sql_count CntCompleted) [VInt userID];
  pending ← exec (sql_count CntPending) [VInt userID];
  high ← exec (sql_count CntHigh) [VInt userID];
  now ← get_now;
  overdue ← exec (sql_count CntOverdue) [VInt userID; VTime now];
  mret (SuccessResponse StatusOK "Statistics retrieved successfully"
          (PStats (TaskStats.mk (count_or_zero total) (count_or_zero completed)
                     (count_or_zero pending) (count_or_zero high) (count_or_zero overdue)))).
End Handlers.

(** PostgreSQL's integer input never reports [sql.ErrNoRows]. *)
Lemma pg_parse_int_not_norows s : pg_parse_int s <> inl ErrNoRows.
Proof.
  unfold pg_parse_int.
  destruct (skip_spaces s) as [|c r]; [done|].
  repeat case_match; try done; by case_decide.
Qed.

(** The [404]/[500] split of a failed [Scan] on an integer parse error. *)
Lemma scan_parse_error {A} s (e : SqlError) (r404 r500 : A) :
  pg_parse_int s = inl e ->
  match e with ErrNoRows => r404 | _ => r500 end = r500.
Proof.
  intros H. destruct e; try done. exfalso. by eapply pg_parse_int_not_norows.
Qed.

(** ** The handlers on one task *)

(** The toggle statement on a keyed table touches at most the row stored
    under the id, and only when the owner matches. *)
Lemma eval_toggle_owned uid taskID db now :
  keyed Task.ID (next_task_id db) (tasks db) ->
  eval_toggle_task [VText taskID; VInt uid] db now =
    match pg_parse_int taskID with
    | inl err => inl err
    | inr id =>
        inr match tasks db !! id with
            | Some t =>
                if decide (Task.UserID t = uid)
                then (RTasks [toggle_row now t], with_tasks db (<[id := toggle_row now t]> (tasks db)))
                else (RTasks [], db)
            | None => (RTasks [], db)
            end
    end.
Proof.
  intros Hk. unfold eval_toggle_task. simpl.
  destruct (pg_parse_int taskID); [done|]. by rewrite sbind_inr, update_owned.
Qed.

Section OneTask.
Context `{!SqlDriver}.

(** C18. [ToggleComplete] on every branch: a task id PostgreSQL cannot
    read as an integer is a [500]; a task that does not exist or has
    another owner is a [404] and nothing changes; the owner's task has
    [is_completed] negated and [updated_at] set, and is returned. *)
Theorem ToggleComplete_spec (uid : Z) (taskID : string) (e : Env) :
  db_wf (env_db e) -> env_faults e = [] ->
  ToggleComplete uid taskID e =
    match pg_parse_int taskID with
    | inl _ => (ErrorResponse StatusInternalServerError "Failed to toggle task",
                mkEnv (env_db e) (env_now e) [])
    | inr id =>
        match tasks (env_db e) !! id with
        | Some t =>
            if decide (Task.UserID t = uid) then
              (SuccessResponse StatusOK "Task toggled successfully"
                 (PTask (toggle_row (env_now e) t)),
               mkEnv (with_tasks (env_db e) (<[id := toggle_row (env_now e) t]> (tasks (env_db e))))
                 (env_now e) [])
            else (ErrorResponse StatusNotFound "Task not found", mkEnv (env_db e) (env_now e) [])
        | None => (ErrorResponse StatusNotFound "Task not found", mkEnv (env_db e) (env_now e) [])
        end
    end.
Proof.
  intros [Hk _] Hf. unfold ToggleComplete. run_stmt sql_toggle_task SToggleTask.
  simpl eval_stmt. rewrite (eval_toggle_owned _ _ _ _ Hk).
  destruct (pg_parse_int taskID) as [err|id] eqn:Hp; simpl.
  - by rewrite (scan_parse_error _ _ _ _ Hp).
  - destruct (tasks (env_db e) !! id); [case_decide|]; done.
Qed.

(** C19. [GetTask] on every branch: the owner's task, a [404] for a task
    that is missing or has another owner, a [500] for an id that is not
    an integer; the database is unchanged. *)
Theorem GetTask_spec (uid : Z) (taskID : string) (e : Env) :
  db_wf (env_db e) -> env_faults e = [] ->
  GetTask uid taskID e =
    (match pg_parse_int taskID with
     | inl _ => ErrorResponse StatusInternalServerError "Failed to fetch task"
     | inr id =>
         match tasks (env_db e) !! id with
         | Some t =>
             if decide (Task.UserID t = uid)
             then SuccessResponse StatusOK "Task retrieved successfully" (PTask t)
             else ErrorResponse StatusNotFound "Task not found"
         | None => ErrorResponse StatusNotFound "Task not found"
         end
     end, mkEnv (env_db e) (env_now e) []).
Proof.
  intros [Hk _] Hf. unfold GetTask. run_stmt sql_select_task SSelectTask.
  simpl. unfold eval_select_task. simpl.
  destruct (pg_parse_int taskID) as [err|id] eqn:Hp; simpl.
  - by rewrite (scan_parse_error _ _ _ _ Hp).
  - rewrite (select_owned _ _ _ _ Hk).
    destruct (tasks (env_db e) !! id); [case_decide|]; done.
Qed.

(** C20. [DeleteTask] on every branch: the owner's task is removed; a
    missing task or one of another owner is a [404] and nothing is
    removed; an id that is not an integer is a [500]. *)
Theorem DeleteTask_spec (uid : Z) (taskID : string) (e : Env) :
  db_wf (env_db e) -> env_faults e = [] ->
  DeleteTask uid taskID e =
    match pg_parse_int taskID with
    | inl _ => (ErrorResponse StatusInternalServerError "Failed to delete task",
                mkEnv (env_db e) (env_now e) [])
    | inr id =>
        match tasks (env_db e) !! id with
        | Some t =>
            if decide (Task.UserID t = uid) then
              (SuccessResponse StatusOK "Task deleted successfully" PNone,
               mkEnv (with_tasks (env_db e) (delete id (tasks (env_db e)))) (env_now e) [])
            else (ErrorResponse StatusNotFound "Task not found", mkEnv (env_db e) (env_now e) [])
        | None => (ErrorResponse StatusNotFound "Task not found", mkEnv (env_db e) (env_now e) [])
        end
    end.
Proof.
  intros [Hk _] Hf. unfold DeleteTask. run_stmt sql_delete_task SDeleteTask.
  simpl. unfold eval_delete_task. simpl.
  destruct (pg_parse_int taskID) as [err|id] eqn:Hp; simpl; [done|].
  rewrite (select_owned _ _ _ _ Hk), (filter_not_owned _ _ _ _ Hk).
  destruct (tasks (env_db e) !! id) as [t|]; [destruct (decide (Task.UserID t = uid))|];
    simpl; by autorewrite with tf_rw.
Qed.
End OneTask.

(** ** [UpdateTask] refines the partial update

    The specification of spec section 4.4 (update mode): every field the
    request carries replaces the stored value, [updated_at] becomes the
    request instant, everything else is kept. *)

Definition apply_update (req : UpdateTaskRequest.t) (now : Time) (t : Task.t) : Task.t :=
  Task.mk (Task.ID t) (Task.UserID t)
    (default (Task.Title t) (UpdateTaskRequest.Title req))
    (default (Task.Description t) (UpdateTaskRequest.Description req))
    (default (Task.Priority t) (UpdateTaskRequest.Priority req))
    (default (Task.Category t) (UpdateTaskRequest.Category req))
    (default (Task.IsCompleted t) (UpdateTaskRequest.IsCompleted req))
    (match UpdateTaskRequest.DueDate req with Some d => Some d | None => Task.DueDate t end)
    (Task.CreatedAt t) now.

(** The assignments the server binds for the non-nil fields. *)
Definition field_assign (req : UpdateTaskRequest.t) (f : UpdField) : option Assign :=
  match f with
  | UTitle => ATitle <$> UpdateTaskRequest.Title req
  | UDescription => ADescription <$> UpdateTaskRequest.Description req
  | UPriority => APriority <$> UpdateTaskRequest.Priority req
  | UCategory => ACategory <$> UpdateTaskRequest.Category req
  | UIsCompleted => AIsCompleted <$> UpdateTaskRequest.IsCompleted req
  | UDueDate => (fun d => ADueDate (Some d)) <$> UpdateTaskRequest.DueDate req
  end.

Definition req_assigns (req : UpdateTaskRequest.t) : list Assign := omap (field_assign req) upd_fields.

(** The server binds the arguments of the built statement to the
    request's assignments, the task id and the owner (64 shapes). *)
Lemma eval_update_present req taskID uid db now :
  eval_update_task (present_fields req)
    (omap (upd_value req) (present_fields req) ++ [VText taskID; VInt uid]) db now =
  (let? id := pg_parse_int taskID in
   inr (update_where (owned_row id uid) (update_row now (req_assigns req)) db))%tf.
Proof.
  destruct req as [[?|] [?|] [?|] [?|] [?|] [?|]]; reflexivity.
Qed.

Lemma update_row_apply req now t : update_row now (req_assigns req) t = apply_update req now t.
Proof.
  destruct t, req as [[?|] [?|] [?|] [?|] [?|] [?|]]; reflexivity.
Qed.

Section Update.
Context `{!SqlDriver}.

(** C10. [UpdateTask] refines the partial update on every branch: a body
    that does not bind is a [400] and runs nothing; an id that is not an
    integer is a [500]; a task that is missing or of another owner is a
    [404] and nothing changes; otherwise the owner's task becomes
    [apply_update req now t] and is returned. *)
Theorem UpdateTask_spec (uid : Z) (taskID : string) (body : string + UpdateTaskBody.t) (e : Env) :
  db_wf (env_db e) -> env_faults e = [] ->
  UpdateTask uid taskID body e =
    match should_bind validate_update (decode_update_body body) with
    | inl err => (ErrorResponse StatusBadRequest err, e)
    | inr req =>
        match pg_parse_int taskID with
        | inl _ => (ErrorResponse StatusInternalServerError "Failed to update task",
                    mkEnv (env_db e) (env_now e) [])
        | inr id =>
            match tasks (env_db e) !! id with
            | Some t =>
                if decide (Task.UserID t = uid) then
                  (SuccessResponse StatusOK "Task updated successfully"
                     (PTask (apply_update req (env_now e) t)),
                   mkEnv (with_tasks (env_db e)
                            (<[id := apply_update req (env_now e) t]> (tasks (env_db e))))
                     (env_now e) [])
                else (ErrorResponse StatusNotFound "Task not found", mkEnv (env_db e) (env_now e) [])
            | None => (ErrorResponse StatusNotFound "Task not found", mkEnv (env_db e) (env_now e) [])
            end
        end
    end.
Proof.
  intros [Hk _] Hf. unfold UpdateTask.
  destruct (should_bind _ _) as [err|req]; [done|].
  rewrite build_update_task_state.
  change (sql_update_head +:+ _) with (render_stmt (SUpdateTask (present_fields req))).
  autorewrite with tf_rw. rewrite exec_nofault by (auto with taskflow).
  simpl eval_stmt. rewrite eval_update_present.
  destruct (pg_parse_int taskID) as [err|id] eqn:Hp.
  - simpl. by rewrite (scan_parse_error _ _ _ _ Hp).
  - rewrite sbind_inr, (update_where_ext _ _ (apply_update req (env_now e))) by apply update_row_apply.
    rewrite (update_owned _ _ _ _ Hk).
    destruct (tasks (env_db e) !! id); [case_decide|]; done.
Qed.
End Update.

(** ** Explicit [null] in an update body *)

Definition null_to_absent {A} (f : JSONField A) : JSONField A :=
  match f with JNull => JAbsent | _ => f end.

(** The body with every explicit [null] replaced by an absent field. *)
Definition drop_nulls (b : UpdateTaskBody.t) : UpdateTaskBody.t :=
  UpdateTaskBody.mk (null_to_absent (UpdateTaskBody.Title b))
    (null_to_absent (UpdateTaskBody.Description b)) (null_to_absent (UpdateTaskBody.Priority b))
    (null_to_absent (UpdateTaskBody.Category b)) (null_to_absent (UpdateTaskBody.IsCompleted b))
    (null_to_absent (UpdateTaskBody.DueDate b)).

Lemma decode_ptr_null_to_absent {A} (f : JSONField A) : decode_ptr (null_to_absent f) = decode_ptr f.
Proof. by destruct f. Qed.

Lemma decode_update_drop_nulls b : decode_update (drop_nulls b) = decode_update b.
Proof. unfold decode_update, drop_nulls. simpl. by rewrite !decode_ptr_null_to_absent. Qed.

Section Nulls.
Context `{!SqlDriver}.

(** C37 (finding). [UpdateTask] cannot tell an explicit [null] from an
    absent field: on every body, every environment and under any fault,
    replacing each [null] by an absent field changes neither the answer
    nor the stored state.  So ["due_date": null] leaves the due date as it
    was, though the specification keeps the two apart. *)
Theorem UpdateTask_null_is_absent (uid : Z) (taskID : string) (b : UpdateTaskBody.t) (e : Env) :
  UpdateTask uid taskID (inr b) e = UpdateTask uid taskID (inr (drop_nulls b)) e.
Proof. unfold UpdateTask, decode_update_body. by rewrite decode_update_drop_nulls. Qed.
End Nulls.

(** ** Witnesses on the sample database *)

Lemma ToggleComplete_spec_witness :
  db_wf (env_db sample_env) /\ env_faults sample_env = [] /\
  fst (ToggleComplete 1 "1" sample_env) =
    SuccessResponse StatusOK "Task toggled successfully"
      (PTask (Task.mk 1 1 "Buy milk" "" "medium" "personal" true None 100 200)).
Proof.
  split; [wf_sample|split; [reflexivity|]].
  rewrite (ToggleComplete_spec 1 "1" sample_env); [vm_compute; reflexivity | wf_sample | reflexivity].
Defined.

Lemma GetTask_spec_witness :
  db_wf (env_db sample_env) /\ env_faults sample_env = [] /\
  fst (GetTask 1 "2" sample_env) = ErrorResponse StatusNotFound "Task not found".
Proof.
  split; [wf_sample|split; [reflexivity|]].
  rewrite (GetTask_spec 1 "2" sample_env); [vm_compute; reflexivity | wf_sample | reflexivity].
Defined.

Lemma DeleteTask_spec_witness :
  db_wf (env_db sample_env) /\ env_faults sample_env = [] /\
  fst (DeleteTask 1 "abc" sample_env) = ErrorResponse StatusInternalServerError "Failed to delete task".
Proof.
  split; [wf_sample|split; [reflexivity|]].
  rewrite (DeleteTask_spec 1 "abc" sample_env); [vm_compute; reflexivity | wf_sample | reflexivity].
Defined.

Lemma UpdateTask_spec_witness :
  db_wf (env_db sample_env) /\ env_faults sample_env = [] /\
  fst (UpdateTask 1 "1" (inr (UpdateTaskBody.mk (JValue "x") JAbsent JAbsent JAbsent JAbsent JNull))
         sample_env) =
    SuccessResponse StatusOK "Task updated successfully"
      (PTask (Task.mk 1 1 "x" "" "medium" "personal" false None 100 200)).
Proof.
  split; [wf_sample|split; [reflexivity|]].
  rewrite (UpdateTask_spec 1 "1" _ sample_env); [vm_compute; reflexivity | wf_sample | reflexivity].
Defined.

(** ** [GetTasks] lists exactly the matching tasks, newest first

    The specification of spec section 4.4 (filter mode): the owner's
    tasks, each present parameter adding one constraint. *)

Definition matches_query (uid : Z) (qs : QueryParams) (t : Task.t) : Prop :=
  Task.UserID t = uid /\
  (c_Query qs "priority" <> "" -> Task.Priority t = c_Query qs "priority") /\
  (c_Query qs "category" <> "" -> Task.Category t = c_Query qs "category") /\
  (c_Query qs "is_completed" <> "" ->
     Task.IsCompleted t = bool_decide (c_Query qs "is_completed" = "true")) /\
  (c_Query qs "search" <> "" ->
     ilike (Task.Title t) ("%" +:+ c_Query qs "search" +:+ "%") = true \/
     ilike (Task.Description t) ("%" +:+ c_Query qs "search" +:+ "%") = true).

Lemma listing_row_matches uid qs t :
  listing_row uid (map (filter_bound qs) (present_filters qs)) t = true <-> matches_query uid qs t.
Proof.
  unfold listing_row, matches_query, present_filters, filter_kinds.
  rewrite !filter_cons, filter_nil. cbn [filter_param].
  destruct (decide (c_Query qs "priority" <> "")), (decide (c_Query qs "category" <> "")),
    (decide (c_Query qs "is_completed" <> "")), (decide (c_Query qs "search" <> ""));
    simpl; rewrite ?andb_true_iff, ?orb_true_iff, ?bool_decide_eq_true; naive_solver.
Qed.

#[global] Instance created_desc_total : Total created_desc.
Proof. intros a b. unfold created_desc. lia. Qed.

Section Listing.
Context `{!SqlDriver}.

Lemma GetTasks_run (uid : Z) (qs : QueryParams) (e : Env) :
  env_faults e = [] ->
  GetTasks uid qs e =
    (SuccessResponse StatusOK "Tasks retrieved successfully"
       (PTasks (order_by_created_desc
          (select_rows (fun t => listing_row uid (map (filter_bound qs) (present_filters qs)) t = true)
             (tasks (env_db e))))),
     mkEnv (env_db e) (env_now e) []).
Proof.
  intros Hf. unfold GetTasks. rewrite build_get_tasks_state.
  change (sql_select_tasks_base +:+ _ +:+ sql_order_by)
    with (render_stmt (SSelectTasks (present_filters qs))).
  autorewrite with tf_rw. rewrite exec_nofault by (auto with taskflow).
  simpl eval_stmt. unfold eval_select_tasks.
  change (to_int (arg (VInt uid :: _) 1)) with (inr uid : SqlError + Z). rewrite sbind_inr.
  pose proof (bind_filters_values qs [VInt uid] (present_filters qs)) as Hb. simpl in Hb.
  by rewrite Hb.
Qed.

(** C16. Listing: with no connection fault, [GetTasks] answers [200] with
    exactly the stored tasks that satisfy [matches_query] (the owner's,
    each present parameter a constraint), sorted by [created_at]
    descending, and changes nothing. *)
Theorem GetTasks_lists_matching (uid : Z) (qs : QueryParams) (e : Env) :
  env_faults e = [] ->
  exists l,
    GetTasks uid qs e =
      (SuccessResponse StatusOK "Tasks retrieved successfully" (PTasks l),
       mkEnv (env_db e) (env_now e) []) /\
    Sorted created_desc l /\
    forall t, t ∈ l <-> (exists k, tasks (env_db e) !! k = Some t) /\ matches_query uid qs t.
Proof.
  intros Hf. rewrite (GetTasks_run _ _ _ Hf). eexists. split; [reflexivity|]. split.
  - apply Sorted_merge_sort, _.
  - intros t. unfold order_by_created_desc. rewrite (merge_sort_Permutation _ _).
    rewrite elem_of_select_rows, listing_row_matches. done.
Qed.
End Listing.

Lemma GetTasks_lists_matching_witness :
  env_faults sample_env = [] /\
  exists l,
    GetTasks 1 [("priority", "medium")] sample_env =
      (SuccessResponse StatusOK "Tasks retrieved successfully" (PTasks l),
       mkEnv (env_db sample_env) (env_now sample_env) []) /\
    Sorted created_desc l /\
    forall t, t ∈ l <-> (exists k, tasks (env_db sample_env) !! k = Some t) /\
                       matches_query 1 [("priority", "medium")] t.
Proof. split; [reflexivity|]. apply GetTasks_lists_matching. reflexivity. Defined.

(** ** Two findings on the listing query *)

Lemma order_by_select_elem (P : Task.t -> Prop) `{!forall t, Decision (P t)} m t :
  t ∈ order_by_created_desc (select_rows P m) <-> (exists k, m !! k = Some t) /\ P t.
Proof.
  unfold order_by_created_desc. rewrite (merge_sort_Permutation _ _). apply elem_of_select_rows.
Qed.

Section ListingFindings.
Context `{!SqlDriver}.

(** C36 (finding). The search term is bound inside [%...%] without
    escaping: with [search=_] the listing contains every task of the
    owner whose title is not empty, though no title need contain [_]. *)
Theorem GetTasks_search_underscore (uid : Z) (e : Env) (t : Task.t) :
  env_faults e = [] -> (exists k, tasks (env_db e) !! k = Some t) ->
  Task.UserID t = uid -> Task.Title t <> "" ->
  exists l, fst (GetTasks uid [("search", "_")] e) =
              SuccessResponse StatusOK "Tasks retrieved successfully" (PTasks l) /\ t ∈ l.
Proof.
  intros Hf Hin Hu Ht. rewrite (GetTasks_run _ _ _ Hf). eexists. split; [reflexivity|].
  apply order_by_select_elem. split; [done|]. apply listing_row_matches.
  repeat split; try done; try (by vm_compute).
  intros _. left. by apply ilike_underscore_nonempty.
Qed.


(** [is_completed] is coerced by [== "true"]: any other
    non-empty value ([TRUE], [1], [yes]) filters for the tasks that are
    not completed. *)
Theorem GetTasks_is_completed_coercion (uid : Z) (qs : QueryParams) (e : Env) :
  env_faults e = [] -> c_Query qs "is_completed" <> "" -> c_Query qs "is_completed" <> "true" ->
  exists l, fst (GetTasks uid qs e) =
              SuccessResponse StatusOK "Tasks retrieved successfully" (PTasks l) /\
            forall t, t ∈ l -> Task.IsCompleted t = false.
Proof.
  intros Hf Hne Hnt. rewrite (GetTasks_run _ _ _ Hf). eexists. split; [reflexivity|].
  intros t Ht. apply order_by_select_elem in Ht as [_ Ht].
  apply listing_row_matches in Ht as (_ & _ & _ & Hc & _).
  rewrite (Hc Hne). by apply bool_decide_eq_false.
Qed.

End ListingFindings.

Lemma GetTasks_search_underscore_witness :
  env_faults sample_env = [] /\ (exists k, tasks (env_db sample_env) !! k =
    Some (Task.mk 1 1 "Buy milk" "" "medium" "personal" false None 100 100)) /\
  exists l, fst (GetTasks 1 [("search", "_")] sample_env) =
              SuccessResponse StatusOK "Tasks retrieved successfully" (PTasks l) /\
            Task.mk 1 1 "Buy milk" "" "medium" "personal" false None 100 100 ∈ l.
Proof.
  split; [reflexivity|]. split; [exists 1; reflexivity|].
  apply GetTasks_search_underscore; [reflexivity | exists 1; reflexivity | reflexivity | done].
Defined.

(** ** [CreateTask] *)

(** The task a valid request creates, as the spec describes it: the
    request's fields, ["medium"] and ["personal"] in place of an empty
    priority or category, not completed, both timestamps the request
    instant. It is written out independently of [create_defaults]. *)
Definition new_task (id uid : Z) (req : CreateTaskRequest.t) (now : Time) : Task.t :=
  Task.mk id uid (CreateTaskRequest.Title req) (CreateTaskRequest.Description req)
    (if String.eqb (CreateTaskRequest.Priority req) "" then "medium"
     else CreateTaskRequest.Priority req)
    (if String.eqb (CreateTaskRequest.Category req) "" then "personal"
     else CreateTaskRequest.Category req)
    false (CreateTaskRequest.DueDate req) now now.

(** [create_defaults] fills exactly the spec's defaults. *)
Lemma create_defaults_new_task id uid req now :
  let r := create_defaults req in
  new_task id uid req now =
    Task.mk id uid (CreateTaskRequest.Title r) (CreateTaskRequest.Description r)
      (CreateTaskRequest.Priority r) (CreateTaskRequest.Category r) false
      (CreateTaskRequest.DueDate r) now now.
Proof.
  destruct req as [ti de pr ca du]; cbv zeta; unfold new_task, create_defaults; cbn.
  destruct (String.eqb_spec pr "") as [->|], (String.eqb_spec ca "") as [->|];
    repeat case_decide; done.
Qed.

Lemma eval_insert_new db now uid req :
  eval_insert_task
    [VInt uid; VText (CreateTaskRequest.Title (create_defaults req));
     VText (CreateTaskRequest.Description (create_defaults req));
     VText (CreateTaskRequest.Priority (create_defaults req));
     VText (CreateTaskRequest.Category (create_defaults req));
     time_ptr_value (CreateTaskRequest.DueDate (create_defaults req))] db now =
  if decide (next_task_id db <= int4_max) then
    inr (RTasks [new_task (next_task_id db) uid req now],
         {| users := users db;
            tasks := <[next_task_id db := new_task (next_task_id db) uid req now]> (tasks db);
            next_user_id := next_user_id db; next_task_id := next_task_id db + 1 |})
  else inl ErrOutOfRange.
Proof. rewrite create_defaults_new_task. by destruct req as [? ? ? ? []]. Qed.

Section Create.
Context `{!SqlDriver}.

(** C17. [CreateTask] on every branch: a body that does not bind is a
    [400] and runs nothing; otherwise the task gets the next serial id,
    the caller as owner, [priority] ["medium"] and [category]
    ["personal"] when left empty, [is_completed] false and both
    timestamps the request instant, and is returned with [201]; once the
    [int4] sequence is exhausted the insert fails with a [500]. *)
Theorem CreateTask_spec (uid : Z) (body : string + CreateTaskRequest.t) (e : Env) :
  env_faults e = [] ->
  CreateTask uid body e =
    match should_bind validate_create body with
    | inl err => (ErrorResponse StatusBadRequest err, e)
    | inr req =>
        let id := next_task_id (env_db e) in
        if decide (id <= int4_max) then
          (SuccessResponse StatusCreated "Task created successfully"
             (PTask (new_task id uid req (env_now e))),
           mkEnv {| users := users (env_db e);
                    tasks := <[id := new_task id uid req (env_now e)]> (tasks (env_db e));
                    next_user_id := next_user_id (env_db e); next_task_id := id + 1 |}
             (env_now e) [])
        else (ErrorResponse StatusInternalServerError "Failed to create task",
              mkEnv (env_db e) (env_now e) [])
    end.
Proof.
  intros Hf. unfold CreateTask. destruct (should_bind _ _) as [err|req]; [done|].
  run_stmt sql_insert_task SInsertTask. simpl eval_stmt. rewrite eval_insert_new.
  by case_decide.
Qed.

End Create.

Lemma CreateTask_spec_witness :
  env_faults sample_env = [] /\
  fst (CreateTask 1 (inr (CreateTaskRequest.mk "Buy milk" "" "" "" None)) sample_env) =
    SuccessResponse StatusCreated "Task created successfully"
      (PTask (Task.mk 3 1 "Buy milk" "" "medium" "personal" false None 200 200)).
Proof.
  split; [reflexivity|]. rewrite (CreateTask_spec 1 _ sample_env); [vm_compute; reflexivity | reflexivity].
Defined.

(** ** [GetStats] *)

Lemma count_total_split uid now db :
  count_rows uid CntTotal now db = count_rows uid CntCompleted now db + count_rows uid CntPending now db.
Proof.
  unfold count_rows.
  erewrite (length_select_split _ (fun t => Task.UserID t = uid /\ count_cond CntCompleted now t = true)
              (fun t => Task.UserID t = uid /\ count_cond CntPending now t = true)).
  - lia.
  - intros t. simpl. destruct (Task.IsCompleted t); naive_solver.
  - intros t. simpl. destruct (Task.IsCompleted t); naive_solver.
Qed.

(** The five counts as the handler scans them. *)
Definition stats_of (uid : Z) (now : Time) (db : DB) : TaskStats.t :=
  TaskStats.mk (count_rows uid CntTotal 0 db) (count_rows uid CntCompleted 0 db)
    (count_rows uid CntPending 0 db) (count_rows uid CntHigh 0 db) (count_rows uid CntOverdue now db).

Section Stats.
Context `{!SqlDriver}.

Lemma exec_count c args e :
  exec (sql_count c) args e =
    let '(fault, fs) := pop_fault (env_faults e) in
    if fault then (inl ErrConn, mkEnv (env_db e) (env_now e) fs)
    else settle (eval_count c args (env_db e)) e fs.
Proof.
  change (sql_count c) with (render_stmt (SCount c)).
  by rewrite exec_render by (destruct c; auto with taskflow).
Qed.

Ltac run_counts Hf :=
  unfold GetStats, mbind, M_bind, mret, M_ret; cbn beta;
  rewrite exec_count, Hf; simpl;
  repeat (rewrite exec_count; simpl).

(** C21. [GetStats] without connection faults answers [200] with the
    five counts of the owner's tasks: all, completed, not completed,
    priority ["high"], and not completed with a due date strictly before
    the request instant (a task without due date is never overdue); the
    total is the sum of the completed and the pending counts. *)
Theorem GetStats_spec (uid : Z) (e : Env) :
  env_faults e = [] ->
  GetStats uid e =
    (SuccessResponse StatusOK "Statistics retrieved successfully"
       (PStats (stats_of uid (env_now e) (env_db e))),
     mkEnv (env_db e) (env_now e) []) /\
  TaskStats.Total (stats_of uid (env_now e) (env_db e)) =
    TaskStats.Completed (stats_of uid (env_now e) (env_db e)) +
    TaskStats.Pending (stats_of uid (env_now e) (env_db e)).
Proof.
  intros Hf. split.
  - run_counts Hf. reflexivity.
  - apply count_total_split.
Qed.


(** C35 (finding). A failed count is dropped silently: when only the
    third query (pending) fails on the connection, [GetStats] still
    answers [200], reports [Pending = 0], and [Total] is then the
    completed count plus the true pending count: the five numbers are
    inconsistent as soon as the owner has a pending task. *)
Theorem GetStats_pending_fault_swallowed (uid : Z) (e : Env) :
  env_faults e = [false; false; true] ->
  exists s,
    fst (GetStats uid e) = SuccessResponse StatusOK "Statistics retrieved successfully" (PStats s) /\
    TaskStats.Pending s = 0 /\
    TaskStats.Total s = TaskStats.Completed s + count_rows uid CntPending 0 (env_db e).
Proof.
  intros Hf. run_counts Hf. eexists. split; [reflexivity|].
  split; [reflexivity|]. apply count_total_split.
Qed.

End Stats.

Lemma GetStats_spec_witness :
  env_faults sample_env = [] /\
  fst (GetStats 1 sample_env) =
    SuccessResponse StatusOK "Statistics retrieved successfully" (PStats (TaskStats.mk 1 0 1 0 0)).
Proof.
  split; [reflexivity|].
  destruct (GetStats_spec 1 sample_env) as [-> _]; [reflexivity | vm_compute; reflexivity].
Defined.

Lemma GetStats_pending_fault_swallowed_witness :
  env_faults (mkEnv sample_db 200 [false; false; true]) = [false; false; true] /\
  exists s,
    fst (GetStats 1 (mkEnv sample_db 200 [false; false; true])) =
      SuccessResponse StatusOK "Statistics retrieved successfully" (PStats s) /\
    TaskStats.Pending s = 0 /\ TaskStats.Total s = TaskStats.Completed s + 1.
Proof.
  split; [reflexivity|].
  destruct (GetStats_pending_fault_swallowed 1 (mkEnv sample_db 200 [false; false; true]))
    as (s & H1 & H2 & H3); [reflexivity|].
  exists s. split; [exact H1|]. split; [exact H2|]. rewrite H3. f_equal.
Defined.
