(* ===== verification/Safety.v ===== *)
(** * Safety: the task routes keep the invariant and isolate owners

    [task_route] dispatches the seven protected task routes of
    [main.go] (lines 50-60) to their handlers, with the owner id the
    middleware put in the context.  [guarded uid e e'] says that from a
    well-formed database the step leads to a well-formed one, leaves
    every task of another owner exactly as it was, and does not touch the
    [users] table.  [respects R m] is the predicate transformer of the
    monad for such a relation; it is closed under [mret] and [≫=], and
    every statement the handlers send respects [guarded uid], under any
    fault of the connection. *)

From S2P Require Import Prelude Models Store Sql Driver QueryBuilder TaskHandlers.

Local Open Scope Z_scope.

(** The protected task routes of [main.go], with their path parameter
    and decoded body. *)
Inductive TaskRequest :=
| RCreate (body : string + CreateTaskRequest.t)
| RList (qs : QueryParams)
| RStats
| RGet (taskID : string)
| RUpdate (taskID : string) (body : string + UpdateTaskBody.t)
| RDelete (taskID : string)
| RToggle (taskID : string).

Definition task_route `{!SqlDriver} (uid : Z) (r : TaskRequest) : M Response :=
  match r with
  | RCreate body => CreateTask uid body
  | RList qs => GetTasks uid qs
  | RStats => GetStats uid
  | RGet id => GetTask uid id
  | RUpdate id body => UpdateTask uid id body
  | RDelete id => DeleteTask uid id
  | RToggle id => ToggleComplete uid id
  end.

(** ** The relation *)

Definition others_unchanged (uid : Z) (db db' : DB) : Prop :=
  filter (fun kv => Task.UserID kv.2 <> uid) (tasks db) =
  filter (fun kv => Task.UserID kv.2 <> uid) (tasks db').

Definition db_guarded (uid : Z) (db db' : DB) : Prop :=
  db_wf db -> db_wf db' /\ others_unchanged uid db db' /\ users db' = users db.

Definition guarded (uid : Z) (e e' : Env) : Prop := db_guarded uid (env_db e) (env_db e').

Lemma db_guarded_refl uid db : db_guarded uid db db.
Proof. done. Qed.

Lemma db_guarded_trans uid db1 db2 db3 :
  db_guarded uid db1 db2 -> db_guarded uid db2 db3 -> db_guarded uid db1 db3.
Proof.
  intros H12 H23 Hwf. destruct (H12 Hwf) as (Hwf2 & Ho12 & Hu12).
  destruct (H23 Hwf2) as (Hwf3 & Ho23 & Hu23). unfold others_unchanged in *.
  split; [exact Hwf3|split; congruence].
Qed.

#[export] Hint Resolve db_guarded_refl : taskflow.

(** ** The predicate transformer *)

Definition respects {A} (R : Env -> Env -> Prop) (m : M A) : Prop := forall e, R e (snd (m e)).

(** For any preorder on environments, [respects] is closed under the
    operations of the monad. *)
Section Preorder.
Context (R : Env -> Env -> Prop) `{!PreOrder R}.

Lemma respects_ret_gen {A} (x : A) : respects R (mret x).
Proof. intros e. reflexivity. Qed.

Lemma respects_bind_gen {A B} (m : M A) (f : A -> M B) :
  respects R m -> (forall x, respects R (f x)) -> respects R (m ≫= f).
Proof.
  intros Hm Hf e. rewrite M_bind_run.
  destruct (m e) as [a e1] eqn:E. etransitivity; [|apply Hf].
  specialize (Hm e). rewrite E in Hm. exact Hm.
Qed.

Lemma respects_get_now_gen : respects R get_now.
Proof. intros e. reflexivity. Qed.

Lemma respects_impl {A} (R' : Env -> Env -> Prop) (m : M A) :
  (forall e e', R e e' -> R' e e') -> respects R m -> respects R' m.
Proof. intros HR Hm e. apply HR, Hm. Qed.
End Preorder.

#[global] Instance guarded_preorder uid : PreOrder (guarded uid).
Proof. split; [intros ?; apply db_guarded_refl|intros ???; apply db_guarded_trans]. Qed.

Lemma respects_ret uid {A} (x : A) : respects (guarded uid) (mret x).
Proof. apply respects_ret_gen, _. Qed.

Lemma respects_bind uid {A B} (m : M A) (f : A -> M B) :
  respects (guarded uid) m -> (forall x, respects (guarded uid) (f x)) ->
  respects (guarded uid) (m ≫= f).
Proof. apply respects_bind_gen, _. Qed.

Lemma respects_get_now uid : respects (guarded uid) get_now.
Proof. apply respects_get_now_gen, _. Qed.

#[export] Hint Resolve respects_ret respects_get_now : taskflow.

Section Exec.
Context `{!SqlDriver}.

(** A statement whose every successful evaluation is guarded respects
    [guarded]: a faulted or failed statement leaves the database. *)
Lemma exec_respects uid st args :
  st ∈ all_stmts ->
  (forall db now rows db', eval_stmt st args db now = inr (rows, db') -> db_guarded uid db db') ->
  respects (guarded uid) (exec (render_stmt st) args).
Proof.
  intros Hin Hev e. unfold guarded. rewrite exec_render by done.
  destruct (pop_fault (env_faults e)) as [[] fs]; [apply db_guarded_refl|].
  unfold settle. destruct (eval_stmt st args (env_db e) (env_now e)) as [err|[rows db']] eqn:E.
  - apply db_guarded_refl.
  - simpl. by eapply Hev.
Qed.
End Exec.

(** ** Statements that keep the invariant and the other owners' rows *)

(** Two task maps agree on the rows of other owners, pointwise. *)
Lemma others_pointwise uid (m m' : gmap Z Task.t) :
  (forall k, (forall t, m !! k = Some t -> Task.UserID t <> uid -> m' !! k = Some t) /\
             (forall t, m' !! k = Some t -> Task.UserID t <> uid -> m !! k = Some t)) ->
  filter (fun kv => Task.UserID kv.2 <> uid) m = filter (fun kv => Task.UserID kv.2 <> uid) m'.
Proof.
  intros Hpt. apply map_eq. intros k. rewrite !map_lookup_filter.
  destruct (Hpt k) as [H1 H2].
  destruct (m !! k) as [t|] eqn:E1, (m' !! k) as [t'|] eqn:E2; simpl; try done;
    unfold guard; repeat case_decide; simpl; try done.
  - naive_solver.
  - naive_solver.
  - naive_solver.
  - naive_solver.
  - naive_solver.
Qed.

(** [f] keeps the key columns of a row. *)
Definition row_frame (f : Task.t -> Task.t) : Prop :=
  forall t, Task.ID (f t) = Task.ID t /\ Task.UserID (f t) = Task.UserID t.

Lemma update_where_guarded id uid f db :
  row_frame f -> db_guarded uid db (update_where (owned_row id uid) f db).2.
Proof.
  intros Hf (Hk & Hu & He & Hn). unfold update_where; simpl.
  split; [|split; [|done]].
  - split; [|done]. unfold keyed. apply map_Forall_fmap.
    intros k t Ht. destruct (Hk k t Ht) as [Hid Hb]. simpl.
    destruct (Hf t). case_decide; naive_solver.
  - apply others_pointwise. intros k. cbn [tasks with_tasks]. rewrite lookup_fmap.
    split; intros t; destruct (tasks db !! k) as [t0|]; simpl; intros E; try done.
    + invc E. intros. case_decide; [unfold owned_row in *; naive_solver|done].
    + invc E. destruct (Hf t0). case_decide; unfold owned_row in *; naive_solver.
Qed.

Lemma eval_insert_task_guarded uid args db now rows db' :
  to_int (arg args 1) = inr uid ->
  eval_insert_task args db now = inr (rows, db') -> db_guarded uid db db'.
Proof.
  intros Hu. unfold eval_insert_task. rewrite Hu, sbind_inr.
  intros E (Hk & Hku & He & Hn1 & Hn2 & Hm1 & Hm2).
  repeat (apply sbind_inr_inv in E as (? & _ & E)).
  case_decide; [|done]. invc E. split; [|split; [|done]].
  - split; [apply keyed_insert_next; auto|]. simpl. split_and!; auto; lia.
  - apply others_pointwise. intros k. simpl. split; intros t Ht Hne.
    + apply lookup_insert_Some. right. split; [|done]. intros <-. by rewrite (keyed_fresh _ _ _ Hk) in Ht.
    + apply lookup_insert_Some in Ht as [[<- <-]|[_ ?]]; [done|done].
Qed.

Lemma eval_delete_task_guarded uid args db rows db' :
  to_int (arg args 2) = inr uid ->
  eval_delete_task args db = inr (rows, db') -> db_guarded uid db db'.
Proof.
  intros Hu. unfold eval_delete_task. intros E.
  apply sbind_inr_inv in E as (id & _ & E). rewrite Hu, sbind_inr in E. invc E.
  intros (Hk & Hwf). split; [split; [|exact Hwf]|split; [|done]]; simpl.
  - intros k t Ht. apply map_lookup_filter_Some in Ht as [Ht _]. by apply Hk.
  - apply others_pointwise. intros k. split; intros t Ht Hne.
    + apply map_lookup_filter_Some. unfold owned_row. naive_solver.
    + by apply map_lookup_filter_Some in Ht as [Ht _].
Qed.

Lemma toggle_row_frame now : row_frame (toggle_row now).
Proof. by intros []. Qed.

Lemma update_row_frame now asg : row_frame (update_row now asg).
Proof.
  intros t. unfold update_row. induction asg as [|a asg IH]; simpl.
  - by destruct t.
  - destruct (foldr apply_assign (set_updated_at now t) asg), a; exact IH.
Qed.

(** The statements that only read. *)
Definition reads_only (st : Stmt) : bool :=
  match st with
  | SSelectTasks _ | SSelectTask | SCount _ | SEmailExists
  | SSelectUserByEmail | SSelectUserByID | SUserIDExists => true
  | _ => false
  end.

Lemma eval_reads_only st args db now rows db' :
  reads_only st = true -> eval_stmt st args db now = inr (rows, db') -> db' = db.
Proof.
  destruct st; simpl; try done; intros _ E;
    repeat (apply sbind_inr_inv in E as (? & _ & E)); by invc E.
Qed.

(** ** Every task route respects [guarded] *)

Section Routes.
Context `{!SqlDriver}.

Lemma exec_reads_respects uid st args :
  st ∈ all_stmts -> reads_only st = true -> respects (guarded uid) (exec (render_stmt st) args).
Proof.
  intros Hin Hr. apply exec_respects; [done|].
  intros db now rows db' E. rewrite (eval_reads_only _ _ _ _ _ _ Hr E). apply db_guarded_refl.
Qed.

Ltac respects_steps :=
  repeat first
    [ apply respects_ret
    | apply respects_get_now
    | apply respects_bind; [|intros ?] ].

Lemma task_route_respects uid r : respects (guarded uid) (task_route uid r).
Proof.
  destruct r as [body|qs| |id|id body|id|id]; simpl.
  - unfold CreateTask. destruct (should_bind _ _); respects_steps.
    change sql_insert_task with (render_stmt SInsertTask).
    apply exec_respects; [auto with taskflow|]. intros ????.
    apply eval_insert_task_guarded. reflexivity.
  - unfold GetTasks. rewrite build_get_tasks_state. respects_steps.
    change (sql_select_tasks_base +:+ _ +:+ sql_order_by)
      with (render_stmt (SSelectTasks (present_filters qs))).
    apply exec_reads_respects; auto with taskflow.
  - unfold GetStats. respects_steps;
      apply (exec_reads_respects _ (SCount _)); auto with taskflow.
  - unfold GetTask. respects_steps.
    apply (exec_reads_respects _ SSelectTask); auto with taskflow.
  - unfold UpdateTask. destruct (should_bind _ _) as [|req]; [respects_steps|].
    rewrite build_update_task_state. respects_steps.
    change (sql_update_head +:+ _) with (render_stmt (SUpdateTask (present_fields req))).
    apply exec_respects; [auto with taskflow|]. intros db now rows db'. simpl.
    rewrite eval_update_present. intros E. apply sbind_inr_inv in E as (? & _ & E). invc E.
    apply update_where_guarded, update_row_frame.
  - unfold DeleteTask. respects_steps.
    change sql_delete_task with (render_stmt SDeleteTask).
    apply exec_respects; [auto with taskflow|]. intros ????.
    by apply eval_delete_task_guarded.
  - unfold ToggleComplete. respects_steps.
    change sql_toggle_task with (render_stmt SToggleTask).
    apply exec_respects; [auto with taskflow|]. intros db now rows db' E. simpl in E.
    unfold eval_toggle_task in E. apply sbind_inr_inv in E as (? & _ & E). invc E.
    apply update_where_guarded, toggle_row_frame.
Qed.
End Routes.

(** A sequence of requests served one after the other, each by the owner
    its token names. *)
Definition owned_by (v : Z) (m : gmap Z Task.t) : gmap Z Task.t :=
  filter (fun kv => Task.UserID kv.2 = v) m.

Lemma owned_by_others uid v db db' :
  uid <> v -> others_unchanged uid db db' -> owned_by v (tasks db') = owned_by v (tasks db).
Proof.
  intros Hne Ho. unfold owned_by.
  rewrite <-(map_filter_filter_l (fun kv => Task.UserID kv.2 = v)
               (fun kv => Task.UserID kv.2 <> uid) (tasks db)),
    <-(map_filter_filter_l (fun kv => Task.UserID kv.2 = v)
         (fun kv => Task.UserID kv.2 <> uid) (tasks db')) by naive_solver.
  unfold others_unchanged in Ho. by rewrite Ho.
Qed.

(** ** The invariant and owner isolation *)

Section Claims.
Context `{!SqlDriver}.

(** C2. Every task route, on any input and under any pattern of
    connection faults, keeps the database well formed (keys are the [id]
    columns, [id]s below the sequences, e-mails unique), leaves the rows
    of every other owner as they were, and never writes the [users]
    table. *)
Theorem task_route_invariant (uid : Z) (r : TaskRequest) (e : Env) :
  db_wf (env_db e) ->
  db_wf (env_db (snd (task_route uid r e))) /\
  others_unchanged uid (env_db e) (env_db (snd (task_route uid r e))) /\
  users (env_db (snd (task_route uid r e))) = users (env_db e).
Proof. intros Hwf. exact (task_route_respects uid r e Hwf). Qed.

End Claims.

(** Owner 1 toggles its task and tries to delete owner 2's task. *)
Lemma task_route_invariant_witness :
  db_wf (env_db sample_env) /\
  db_wf (env_db (snd (task_route 1 (RToggle "1") sample_env))) /\
  others_unchanged 1 (env_db sample_env) (env_db (snd (task_route 1 (RToggle "1") sample_env))) /\
  users (env_db (snd (task_route 1 (RToggle "1") sample_env))) = users (env_db sample_env).
Proof. split; [wf_sample|]. apply task_route_invariant. wf_sample. Defined.

