(* ===== verification/Auth.v ===== *)
(** * Auth: the bearer-token gate and the account handlers

    - [PasswordHasher]: [utils.HashPassword] / [utils.CheckPassword] over
      [golang.org/x/crypto/bcrypt], as an interface with its laws: a hash
      verifies its password, and [GenerateFromPassword] refuses a password
      longer than 72 bytes ([ErrPasswordTooLong]).  The random salt bcrypt
      draws is an argument of [Register].
    - [EmailSyntax]: the [email] tag of go-playground/validator (a regular
      expression of the library), as an interface.
    - [AuthMiddleware] (auth_middleware.go): the [Authorization] header,
      [strings.Split] on [' '], [jwt.Parse] with the HMAC-only key
      function, the [user_id] claim, and the existence query; its outcome is
      [GateNext uid] ([c.Set("user_id", uid); c.Next()]), an abort with a
      [401], or a panic (a valid token without a numeric [user_id]: the
      type assertion [claims["user_id"].(float64)] panics).  The
      [token.Claims.(jwt.MapClaims)] assertion cannot fail ([jwt.Parse]
      always builds [MapClaims]), so its branch is not modelled.
    - [Register], [Login], [GetProfile] (auth_handler.go) in the request
      monad; [Login] issues the token of [Jwt.SignedString]. *)

From S2P Require Import Prelude Models Jwt Store Sql Driver.
From Stdlib Require Import Ascii.

Local Open Scope Z_scope.
Local Open Scope tf_scope.

Class PasswordHasher := {
  (** [bcrypt.GenerateFromPassword([]byte(password), DefaultCost)] with the
      salt it draws; [None] is its error. *)
  bcrypt_generate : string -> string -> option string;
  (** [bcrypt.CompareHashAndPassword([]byte(hash), []byte(password)) == nil]. *)
  bcrypt_compare : string -> string -> bool;
  bcrypt_generate_compare : forall salt p h,
    bcrypt_generate salt p = Some h -> bcrypt_compare h p = true;
  bcrypt_generate_none : forall salt p,
    bcrypt_generate salt p = None <-> (72 < String.length p)%nat
}.

Class EmailSyntax := { is_email : string -> bool }.

Section Hashing.
Context `{!PasswordHasher}.

Definition HashPassword (salt password : string) : option string := bcrypt_generate salt password.
Definition CheckPassword (password hash : string) : bool := bcrypt_compare hash password.
End Hashing.

(** ** Validation of the account requests *)

(** [utf8.RuneCountInString]: the bytes that do not continue a sequence
    (JSON decoding leaves only valid UTF-8 in a string). *)
Definition rune_count (s : string) : nat :=
  length (filter (fun c => negb (bool_decide (128 <= Ascii.nat_of_ascii c < 192)%nat))
            (String.list_ascii_of_string s)).

(** The tags of one field stop at the first that fails. *)
Definition first_tag (fe : string -> FieldError) (tags : list (string * bool)) : list FieldError :=
  match list_find (fun t => t.2 = false) tags with
  | Some (_, (tag, _)) => [fe tag]
  | None => []
  end.

Definition field (st f : string) (tag : string) : FieldError :=
  {| fe_struct := st; fe_field := f; fe_tag := tag |}.

Section Validation.
Context `{!EmailSyntax}.

Definition validate_register (r : RegisterRequest.t) : list FieldError :=
  first_tag (field "RegisterRequest" "Name") [("required", tag_required (RegisterRequest.Name r))]
  ++ first_tag (field "RegisterRequest" "Email")
       [("required", tag_required (RegisterRequest.Email r));
        ("email", is_email (RegisterRequest.Email r))]
  ++ first_tag (field "RegisterRequest" "Password")
       [("required", tag_required (RegisterRequest.Password r));
        ("min", bool_decide (6 <= rune_count (RegisterRequest.Password r))%nat)].

Definition validate_login (r : LoginRequest.t) : list FieldError :=
  first_tag (field "LoginRequest" "Email")
    [("required", tag_required (LoginRequest.Email r)); ("email", is_email (LoginRequest.Email r))]
  ++ first_tag (field "LoginRequest" "Password") [("required", tag_required (LoginRequest.Password r))].
End Validation.

(** ** The gate *)

Inductive GateResult :=
| GateAbort (r : Response)
| GatePanic
| GateNext (userID : Z).

(** [strings.Split(authHeader, " ")] has exactly two pieces, the first
    ["Bearer"]. *)
Definition bearer_token (authHeader : string) : option string :=
  match str_split " "%char authHeader with
  | [scheme; tok] => if bool_decide (scheme = "Bearer") then Some tok else None
  | _ => None
  end.

(** [int(claims["user_id"].(float64))]. *)
Definition claim_user_id (claims : JObj) : option Z :=
  match claims !! "user_id" with Some (JNum z) => Some z | _ => None end.

Section Gate.
Context `{!SqlDriver} `{!JsonCodec} `{!HmacHash}.

Definition AuthMiddleware (jwtSecret : string) (authHeader : string) : M GateResult :=
  if bool_decide (authHeader = "") then
    mret (GateAbort (ErrorResponse StatusUnauthorized "Authorization header required"))
  else
    match bearer_token authHeader with
    | None => mret (GateAbort (ErrorResponse StatusUnauthorized "Invalid authorization format"))
    | Some tokenString =>
        now ← get_now;
        match Parse jwtSecret now tokenString with
        | inl _ => mret (GateAbort (ErrorResponse StatusUnauthorized "Invalid or expired token"))
        | inr (_, claims) =>
            match claim_user_id claims with
            | None => mret GatePanic
            | Some userID =>
                r ← exec sql_user_id_exists [VInt userID];
                mret match scan_bool r with
                     | inr true => GateNext userID
                     | _ => GateAbort (ErrorResponse StatusUnauthorized "User not found")
                     end
            end
        end
    end.
End Gate.

(** ** The account handlers *)

Section Handlers.
Context `{!SqlDriver} `{!JsonCodec} `{!HmacHash} `{!PasswordHasher} `{!EmailSyntax}.

(** Lines 34-51: the e-mail check, then the hash; either the response
    that ends the request or the hash to store. *)
Definition register_check (salt : string) (req : RegisterRequest.t) : M (Response + string) :=
  r ← exec sql_email_exists [VText (RegisterRequest.Email req)];
  mret match scan_bool r with
       | inl _ => inl (ErrorResponse StatusInternalServerError "Database error")
       | inr true => inl (ErrorResponse StatusConflict "Email already registered")
       | inr false =>
           match HashPassword salt (RegisterRequest.Password req) with
           | None => inl (ErrorResponse StatusInternalServerError "Failed to hash password")
           | Some hashedPassword => inr hashedPassword
           end
       end.

(** Lines 53-65: the insert. *)
Definition register_insert (req : RegisterRequest.t) (hashedPassword : string) : M Response :=
  r ← exec sql_insert_user
        [VText (RegisterRequest.Name req); VText (RegisterRequest.Email req); VText hashedPassword];
  mret match scan_user r with
       | inl _ => ErrorResponse StatusInternalServerError "Failed to create user"
       | inr user => SuccessResponse StatusCreated "User registered successfully" (PUser user)
       end.

Definition Register (salt : string) (body : string + RegisterRequest.t) : M Response :=
  match should_bind validate_register body with
  | inl err => mret (ErrorResponse StatusBadRequest err)
  | inr req =>
      c ← register_check salt req;
      match c with
      | inl resp => mret resp
      | inr hashedPassword => register_insert req hashedPassword
      end
  end.

(** The claims [Login] signs: [user_id], [email], and [exp] the Unix
    second of [time.Now().Add(24 * time.Hour)]. *)
Definition login_claims (u : User.t) (now : Time) : JObj :=
  <["exp" := JNum (Unix (now + 24 * Hour))]>
    (<["email" := JStr (User.Email u)]> (<["user_id" := JNum (User.ID u)]> ∅)).

Definition Login (jwtSecret : string) (body : string + LoginRequest.t) : M Response :=
  match should_bind validate_login body with
  | inl err => mret (ErrorResponse StatusBadRequest err)
  | inr req =>
      r ← exec sql_select_user_by_email [VText (LoginRequest.Email req)];
      match scan_user r with
      | inl ErrNoRows => mret (ErrorResponse StatusUnauthorized "Invalid email or password")
      | inl _ => mret (ErrorResponse StatusInternalServerError "Database error")
      | inr u =>
          if negb (CheckPassword (LoginRequest.Password req) (User.Password u)) then
            mret (ErrorResponse StatusUnauthorized "Invalid email or password")
          else
            now ← get_now;
            mret match SignedString HS256 (login_claims u now) jwtSecret with
                 | inl _ => ErrorResponse StatusInternalServerError "Failed to generate token"
                 | inr tokenString =>
                     SuccessResponse StatusOK "Login successful"
                       (PLogin (LoginResponse.mk tokenString (hide_password u)))
                 end
      end
  end.

Definition GetProfile (userID : Z) : M Response :=
  r ← exec sql_select_user_by_id [VInt userID];
  mret match scan_user r with
       | inl _ => ErrorResponse StatusNotFound "User not found"
       | inr user => SuccessResponse StatusOK "Profile retrieved successfully" (PUser user)
       end.
End Handlers.

(** ** The gate *)

Lemma bearer_token_Some hdr tok :
  bearer_token hdr = Some tok <-> hdr = "Bearer " +:+ tok /\ str_free " "%char tok = true.
Proof.
  unfold bearer_token. split.
  - pose proof (str_join_split " "%char hdr) as J. pose proof (str_split_free_pieces " "%char hdr) as F.
    destruct (str_split " "%char hdr) as [|a [|b [|]]]; try discriminate.
    case_bool_decide; [|discriminate]. intros [= <-]. subst a.
    inversion_clear F as [|? ? _ F']. inversion_clear F'. split; [|done]. by rewrite <-J.
  - intros [-> Hf]. change ("Bearer " +:+ tok) with ("Bearer" +:+ String " " tok).
    rewrite str_split_app, str_split_free by done. by rewrite bool_decide_true.
Qed.

(** The existence query on a well-formed table. *)
Lemma eval_user_id_exists_wf db uid :
  keyed User.ID (next_user_id db) (users db) ->
  eval_user_id_exists [VInt uid] db = inr (RBool (bool_decide (is_Some (users db !! uid))), db).
Proof.
  intros Hk. unfold eval_user_id_exists. simpl.
  rewrite (select_rows_by_key User.ID _ _ _ uid Hk) by done.
  destruct (users db !! uid) as [u|] eqn:E; simpl.
  - rewrite decide_True by (by destruct (Hk _ _ E)).
    by rewrite !bool_decide_true by (done || by eexists).
  - reflexivity.
Qed.

Lemma bearer_token_nonempty hdr tok : bearer_token hdr = Some tok -> hdr <> "".
Proof. intros Hb ->. discriminate. Qed.

Section GateRun.
Context `{!SqlDriver} `{!JsonCodec} `{!HmacHash}.

(** The gate once the header carries a bearer token. *)
Lemma AuthMiddleware_bearer secret hdr tok e :
  bearer_token hdr = Some tok ->
  AuthMiddleware secret hdr e =
    match Parse secret (env_now e) tok with
    | inl _ => (GateAbort (ErrorResponse StatusUnauthorized "Invalid or expired token"), e)
    | inr (_, claims) =>
        match claim_user_id claims with
        | None => (GatePanic, e)
        | Some userID =>
            let '(r, e') := exec (render_stmt SUserIDExists) [VInt userID] e in
            (match scan_bool r with
             | inr true => GateNext userID
             | _ => GateAbort (ErrorResponse StatusUnauthorized "User not found")
             end, e')
        end
    end.
Proof.
  intros Hb. unfold AuthMiddleware.
  rewrite bool_decide_false by (eapply bearer_token_nonempty, Hb). rewrite Hb.
  unfold mbind, M_bind, get_now, mret, M_ret. cbn beta iota.
  destruct (Parse _ _ tok) as [|[m claims]]; [done|].
  destruct (claim_user_id claims); [|done]. reflexivity.
Qed.

(** The gate reads the database and never writes it. *)
Lemma AuthMiddleware_db secret hdr e : env_db (snd (AuthMiddleware secret hdr e)) = env_db e.
Proof.
  destruct (bearer_token hdr) as [tok|] eqn:Hb.
  - rewrite (AuthMiddleware_bearer _ _ _ _ Hb).
    destruct (Parse _ _ tok) as [|[m claims]]; [done|].
    destruct (claim_user_id claims) as [u|]; [|done].
    rewrite exec_render by (auto with taskflow).
    destruct (pop_fault _) as [[] fs]; [done|]. simpl.
    unfold eval_user_id_exists. simpl. done.
  - unfold AuthMiddleware. rewrite Hb. by case_bool_decide.
Qed.
End GateRun.

(** The format the spec asks of the header, [Authorization: Bearer
    <token>], read directly: the prefix ["Bearer "] and a token without
    space. *)
Definition bearer_spec (authHeader : string) : option string :=
  match cut_prefix "Bearer " authHeader with
  | Some tok => if str_free " "%char tok then Some tok else None
  | None => None
  end.

Section GateClaims.
Context `{!SqlDriver} `{!JsonCodec} `{!HmacHash}.

(** What the gate knows of a request it lets through. *)
Lemma AuthMiddleware_next_inv (secret hdr : string) (e : Env) (uid : Z) :
  db_wf (env_db e) -> fst (AuthMiddleware secret hdr e) = GateNext uid ->
  exists tok m claims,
    hdr = "Bearer " +:+ tok /\ str_free " "%char tok = true /\
    Parse secret (env_now e) tok = inr (m, claims) /\ is_hmac m = true /\
    claim_user_id claims = Some uid /\ is_Some (users (env_db e) !! uid).
Proof.
  intros (_ & Hk & _) Hg.
  destruct (bearer_token hdr) as [tok|] eqn:Hb.
  2: { unfold AuthMiddleware in Hg. rewrite Hb in Hg. by case_bool_decide. }
  rewrite (AuthMiddleware_bearer _ _ _ _ Hb) in Hg.
  destruct (Parse _ _ tok) as [|[m claims]] eqn:Hp; [discriminate|].
  destruct (claim_user_id claims) as [u|] eqn:Hc; [|discriminate].
  rewrite exec_render in Hg by (auto with taskflow).
  destruct (pop_fault _) as [[] fs]; cbv beta iota in Hg; [discriminate|].
  cbn [eval_stmt] in Hg. rewrite eval_user_id_exists_wf in Hg by done. simpl in Hg.
  case_bool_decide; [|discriminate]. injection Hg as ->.
  apply bearer_token_Some in Hb as [-> Hf].
  destruct (Parse_inr_inv _ _ _ _ _ Hp) as [Hm _]. eauto 10.
Qed.

(** C4. The gate lets a request through as owner [uid] only when the
    header is exactly [Bearer <token>] with a token free of spaces, the
    token parses under the server secret at the request instant with a
    method of the HMAC family, its [user_id] claim is [uid], and [uid] is
    a row of [users]; this holds under any connection fault. *)
Theorem AuthMiddleware_sound (secret hdr : string) (e : Env) (uid : Z) :
  db_wf (env_db e) -> fst (AuthMiddleware secret hdr e) = GateNext uid ->
  exists tok m claims,
    hdr = "Bearer " +:+ tok /\ str_free " "%char tok = true /\
    Parse secret (env_now e) tok = inr (m, claims) /\ is_hmac m = true /\
    claim_user_id claims = Some uid /\ is_Some (users (env_db e) !! uid).
Proof. apply AuthMiddleware_next_inv. Qed.

(** C5. The code's check of the header ([strings.Split] on a space,
    exactly two pieces, the first ["Bearer"]) accepts exactly the headers
    of the spec's format, ["Bearer "] followed by a token without space,
    and extracts the same token (the empty token included, which
    [jwt.Parse] then refuses). *)
Theorem bearer_token_spec (authHeader : string) : bearer_token authHeader = bearer_spec authHeader.
Proof.
  unfold bearer_spec. destruct (bearer_token authHeader) as [tok|] eqn:Hb.
  - apply bearer_token_Some in Hb as [-> Hf].
    rewrite (proj2 (cut_prefix_Some _ _ tok) eq_refl). by rewrite Hf.
  - destruct (cut_prefix _ _) as [tok|] eqn:Hp; [|done].
    apply cut_prefix_Some in Hp. destruct (str_free _ tok) eqn:Hf; [|done].
    enough (bearer_token authHeader = Some tok) by congruence. by apply bearer_token_Some.
Qed.
End GateClaims.

(** ** [Login] *)

(** With unique e-mails, the lookup by e-mail finds the one user. *)
Lemma select_email_unique (m : gmap Z User.t) k u :
  emails_unique m -> m !! k = Some u ->
  select_rows (fun u' => User.Email u' = User.Email u) m = [u].
Proof.
  intros Hu Hk. unfold select_rows.
  replace (filter _ m) with ({[k := u]} : gmap Z User.t); [by rewrite rows_of_singleton|].
  apply map_eq. intros k'. rewrite map_lookup_filter.
  destruct (decide (k' = k)) as [->|Hne].
  - rewrite lookup_singleton, Hk, decide_True by done. simpl. by rewrite option_guard_True.
  - rewrite lookup_singleton_ne by done.
    destruct (m !! k') as [u'|] eqn:Hk'; simpl; [|done].
    rewrite option_guard_False; [done|]. simpl. intros He. apply Hne. by eapply (Hu k' u' Hk' k u Hk).
Qed.

Lemma select_email_none (m : gmap Z User.t) email :
  (forall k u, m !! k = Some u -> User.Email u <> email) ->
  select_rows (fun u' => User.Email u' = email) m = [].
Proof.
  intros Hn. destruct (select_rows _ m) as [|u l] eqn:E; [done|].
  assert (Hin : u ∈ select_rows (fun u' => User.Email u' = email) m) by (rewrite E; left).
  apply elem_of_select_rows in Hin as [[k Hk] He]. by destruct (Hn k u Hk).
Qed.

Section LoginRun.
Context `{!SqlDriver} `{!JsonCodec} `{!HmacHash} `{!PasswordHasher} `{!EmailSyntax}.

(** [Login] on a valid body, without connection fault. *)
Lemma Login_run secret req e :
  env_faults e = [] -> validate_login req = [] ->
  Login secret (inr req) e =
    (match select_rows (fun u => User.Email u = LoginRequest.Email req) (users (env_db e)) with
     | [] => ErrorResponse StatusUnauthorized "Invalid email or password"
     | u :: _ =>
         if CheckPassword (LoginRequest.Password req) (User.Password u) then
           SuccessResponse StatusOK "Login successful"
             (PLogin (LoginResponse.mk (hmac_token HS256 (login_claims u (env_now e)) secret)
                                       (hide_password u)))
         else ErrorResponse StatusUnauthorized "Invalid email or password"
     end, mkEnv (env_db e) (env_now e) []).
Proof.
  intros Hf Hv. unfold Login. simpl. rewrite Hv.
  run_stmt sql_select_user_by_email SSelectUserByEmail. simpl.
  destruct (select_rows _ _) as [|u l]; [done|]. simpl.
  destruct (CheckPassword _ _); simpl; [|done].
  unfold mbind, M_bind, get_now, mret, M_ret, hmac_token, SigningString. simpl.
  by rewrite !str_app_assoc.
Qed.
End LoginRun.


Lemma login_claims_exp u t : login_claims u t !! "exp" = Some (JNum (Unix (t + 24 * Hour))).
Proof. reflexivity. Qed.

Lemma login_claims_nbf u t : login_claims u t !! "nbf" = None.
Proof. reflexivity. Qed.

Lemma claim_user_id_login u t : claim_user_id (login_claims u t) = Some (User.ID u).
Proof. reflexivity. Qed.

(** The default validation of the claims [Login] signs: valid strictly
    before the [exp] second. *)
Lemma Validate_login_claims now u t :
  Validate now (login_claims u t) =
    if bool_decide (now < time_Unix (Unix (t + 24 * Hour))) then inr tt else inl ErrTokenInvalidClaims.
Proof.
  unfold Validate, claim_time. rewrite login_claims_exp, login_claims_nbf. simpl.
  by rewrite andb_true_r.
Qed.

Section LoginGate.
Context `{!SqlDriver} `{!JsonCodec} `{!HmacHash}.

(** The gate on an HS256 token signed with the server secret, presented
    at a later request: its claims' validity at that instant decides. *)
Lemma hmac_token_gate secret claims uid e' :
  keyed User.ID (next_user_id (env_db e')) (users (env_db e')) -> env_faults e' = [] ->
  claim_user_id claims = Some uid -> is_Some (users (env_db e') !! uid) ->
  fst (AuthMiddleware secret ("Bearer " +:+ hmac_token HS256 claims secret) e') =
    match Validate (env_now e') claims with
    | inl _ => GateAbort (ErrorResponse StatusUnauthorized "Invalid or expired token")
    | inr _ => GateNext uid
    end.
Proof.
  intros Hk Hf Hc Hu.
  rewrite (AuthMiddleware_bearer _ _ (hmac_token HS256 claims secret))
    by (apply bearer_token_Some; split; [done|apply hmac_token_free_space]).
  rewrite Parse_SignedString_hmac by done.
  destruct (Validate _ _); [done|]. rewrite sbind_inr, Hc.
  rewrite exec_render, Hf by (auto with taskflow). cbn [pop_fault]. cbv beta iota.
  cbn [eval_stmt]. rewrite eval_user_id_exists_wf by done. simpl. by rewrite bool_decide_true.
Qed.

(** The gate on the token [Login] issues at [t], presented at a later
    request. *)
Lemma Login_token_gate secret u t e' :
  keyed User.ID (next_user_id (env_db e')) (users (env_db e')) -> env_faults e' = [] ->
  is_Some (users (env_db e') !! User.ID u) ->
  fst (AuthMiddleware secret ("Bearer " +:+ hmac_token HS256 (login_claims u t) secret) e') =
    if bool_decide (env_now e' < time_Unix (Unix (t + 24 * Hour))) then GateNext (User.ID u)
    else GateAbort (ErrorResponse StatusUnauthorized "Invalid or expired token").
Proof.
  intros Hk Hf Hu. rewrite (hmac_token_gate _ _ (User.ID u)) by (done || apply claim_user_id_login).
  rewrite Validate_login_claims. by case_bool_decide.
Qed.
End LoginGate.

Section LoginClaims.
Context `{!SqlDriver} `{!JsonCodec} `{!HmacHash} `{!PasswordHasher} `{!EmailSyntax}.

(** C22. [Login] on a valid body, without connection fault, writes
    nothing; for the user holding that e-mail, the right password is
    answered [200] with the HS256 token of the claims [user_id], [email],
    [exp] under the server secret and the user without its hash, and a
    wrong password with [401 Invalid email or password]; an e-mail nobody
    holds gets the very same [401]. *)
Theorem Login_spec (secret : string) (req : LoginRequest.t) (e : Env) :
  db_wf (env_db e) -> env_faults e = [] -> validate_login req = [] ->
  env_db (snd (Login secret (inr req) e)) = env_db e /\
  (forall k u, users (env_db e) !! k = Some u -> User.Email u = LoginRequest.Email req ->
     fst (Login secret (inr req) e) =
       if CheckPassword (LoginRequest.Password req) (User.Password u) then
         SuccessResponse StatusOK "Login successful"
           (PLogin (LoginResponse.mk (hmac_token HS256 (login_claims u (env_now e)) secret)
                                     (hide_password u)))
       else ErrorResponse StatusUnauthorized "Invalid email or password") /\
  ((forall k u, users (env_db e) !! k = Some u -> User.Email u <> LoginRequest.Email req) ->
     fst (Login secret (inr req) e) = ErrorResponse StatusUnauthorized "Invalid email or password").
Proof.
  intros (_ & _ & Hu & _) Hf Hv. rewrite Login_run by done. split; [done|]. split.
  - intros k u Hk <-. simpl. by rewrite (select_email_unique _ k u).
  - intros Hn. simpl. by rewrite select_email_none.
Qed.

(** C23. The token [Login] issues at instant [t] opens the gate as its
    user at every later request strictly before the [exp] second
    [Unix(t + 24h)], and is refused with [401 Invalid or expired token]
    from that second on (the user still existing, no connection fault). *)
Theorem Login_token_accepted (secret : string) (req : LoginRequest.t) (e : Env) (k : Z) (u : User.t) :
  db_wf (env_db e) -> env_faults e = [] -> validate_login req = [] ->
  users (env_db e) !! k = Some u -> User.Email u = LoginRequest.Email req ->
  CheckPassword (LoginRequest.Password req) (User.Password u) = true ->
  exists tok,
    fst (Login secret (inr req) e) =
      SuccessResponse StatusOK "Login successful" (PLogin (LoginResponse.mk tok (hide_password u))) /\
    forall e', db_wf (env_db e') -> env_faults e' = [] -> is_Some (users (env_db e') !! k) ->
      fst (AuthMiddleware secret ("Bearer " +:+ tok) e') =
        if bool_decide (env_now e' < time_Unix (Unix (env_now e + 24 * Hour))) then GateNext k
        else GateAbort (ErrorResponse StatusUnauthorized "Invalid or expired token").
Proof.
  intros (_ & Hk & Hu & _) Hf Hv Hku He Hc.
  assert (User.ID u = k) as Hid by (by destruct (Hk _ _ Hku)).
  exists (hmac_token HS256 (login_claims u (env_now e)) secret). split.
  - rewrite Login_run by done. simpl. rewrite <-He, (select_email_unique _ k u), Hc by done. done.
  - intros e' (_ & Hk' & _) Hf' Hs. rewrite <-Hid in *. by apply Login_token_gate.
Qed.

(** C33 (finding). [exp] is [time.Now().Add(24h).Unix()], rounded down
    to the second, and the validator requires [now < exp]: a token issued
    at an instant that is not a whole second is refused strictly before
    24 hours have passed, though the spec gives it exactly 24 hours. *)
Theorem Login_token_expires_early (secret : string) (req : LoginRequest.t) (e : Env) (k : Z) (u : User.t) :
  db_wf (env_db e) -> env_faults e = [] -> validate_login req = [] ->
  users (env_db e) !! k = Some u -> User.Email u = LoginRequest.Email req ->
  CheckPassword (LoginRequest.Password req) (User.Password u) = true ->
  env_now e mod Second <> 0 ->
  exists tok t',
    fst (Login secret (inr req) e) =
      SuccessResponse StatusOK "Login successful" (PLogin (LoginResponse.mk tok (hide_password u))) /\
    env_now e < t' < env_now e + 24 * Hour /\
    forall e', db_wf (env_db e') -> env_faults e' = [] -> env_now e' = t' ->
      fst (AuthMiddleware secret ("Bearer " +:+ tok) e') =
        GateAbort (ErrorResponse StatusUnauthorized "Invalid or expired token").
Proof.
  intros (_ & Hk & Hu & _) Hf Hv Hku He Hc Hs.
  exists (hmac_token HS256 (login_claims u (env_now e)) secret),
         (time_Unix (Unix (env_now e + 24 * Hour))).
  split; [|split].
  - rewrite Login_run by done. simpl. rewrite <-He, (select_email_unique _ k u), Hc by done. done.
  - unfold time_Unix, Unix, Hour, Second in *. Z.div_mod_to_equations. lia.
  - intros e' _ Hf' Ht.
    rewrite (AuthMiddleware_bearer _ _ (hmac_token HS256 (login_claims u (env_now e)) secret))
      by (apply bearer_token_Some; split; [done|apply hmac_token_free_space]).
    rewrite Parse_SignedString_hmac, Validate_login_claims, Ht by done.
    by rewrite bool_decide_false by lia.
Qed.
End LoginClaims.

(** ** [GetProfile] *)

Lemma eval_select_user_by_id_wf db uid :
  keyed User.ID (next_user_id db) (users db) ->
  eval_select_user_by_id [VInt uid] db =
    inr (RUsers (match users db !! uid with Some u => [hide_password u] | None => [] end), db).
Proof.
  intros Hk. unfold eval_select_user_by_id. simpl.
  rewrite (select_rows_by_key User.ID _ _ _ uid Hk) by done.
  destruct (users db !! uid) as [u|] eqn:E; [|done].
  by rewrite decide_True by (by destruct (Hk _ _ E)).
Qed.

Section ProfileClaims.
Context `{!SqlDriver}.

(** C25 (finding). [GetProfile] on every branch: without connection
    fault, the user of the context id without its hash ([200]) or [404
    User not found]; a failed connection is answered [404 User not found]
    as well (every error of the query is), where the spec asks a storage
    failure to surface as [500].  Nothing is written. *)
Theorem GetProfile_spec (uid : Z) (e : Env) :
  db_wf (env_db e) ->
  GetProfile uid e =
    (if (pop_fault (env_faults e)).1 then ErrorResponse StatusNotFound "User not found"
     else match users (env_db e) !! uid with
          | Some u => SuccessResponse StatusOK "Profile retrieved successfully" (PUser (hide_password u))
          | None => ErrorResponse StatusNotFound "User not found"
          end,
     mkEnv (env_db e) (env_now e) (pop_fault (env_faults e)).2).
Proof.
  intros (_ & Hk & _). unfold GetProfile. autorewrite with tf_rw.
  change sql_select_user_by_id with (render_stmt SSelectUserByID).
  rewrite exec_render by (auto with taskflow).
  destruct (pop_fault _) as [[] fs]; [done|]. cbn [eval_stmt].
  rewrite eval_select_user_by_id_wf by done. simpl. by destruct (users _ !! uid).
Qed.
End ProfileClaims.

(** ** Instances to run examples

    A password "hash" that keeps the password behind the bcrypt prefix and
    an e-mail syntax that asks for an ['@']: they satisfy the interfaces and
    serve the witnesses only. *)

Definition example_generate (salt p : string) : option string :=
  if bool_decide (72 < String.length p)%nat then None else Some ("$2a$10$" +:+ p).

Definition example_compare (h p : string) : bool :=
  bool_decide (h = "$2a$10$" +:+ p) && bool_decide (String.length p <= 72)%nat.

Lemma example_generate_compare salt p h :
  example_generate salt p = Some h -> example_compare h p = true.
Proof.
  unfold example_generate, example_compare. case_bool_decide; [done|].
  intros [= <-]. apply andb_true_intro. split; apply bool_decide_true; [done|lia].
Qed.

Lemma example_generate_none salt p :
  example_generate salt p = None <-> (72 < String.length p)%nat.
Proof. unfold example_generate. case_bool_decide; naive_solver. Qed.

#[export] Instance example_bcrypt : PasswordHasher := {|
  bcrypt_generate := example_generate;
  bcrypt_compare := example_compare;
  bcrypt_generate_compare := example_generate_compare;
  bcrypt_generate_none := example_generate_none
|}.

#[export] Instance example_email : EmailSyntax := {| is_email s := negb (str_free "@"%char s) |}.

Definition sample_ann : User.t := User.mk 1 "Ann" "ann@x.com" "$2a$10$secret1" 0 0.

(** Ann's token, issued at instant 0. *)
Definition ann_token : string := hmac_token HS256 (login_claims sample_ann 0) "secret".

Definition ann_login : LoginRequest.t := LoginRequest.mk "ann@x.com" "secret1".

Lemma AuthMiddleware_sound_witness :
  db_wf (env_db sample_env) /\
  fst (AuthMiddleware "secret" ("Bearer " +:+ ann_token) sample_env) = GateNext 1 /\
  exists tok m claims,
    "Bearer " +:+ ann_token = "Bearer " +:+ tok /\ str_free " "%char tok = true /\
    Parse "secret" (env_now sample_env) tok = inr (m, claims) /\ is_hmac m = true /\
    claim_user_id claims = Some 1 /\ is_Some (users (env_db sample_env) !! 1).
Proof.
  assert (Hwf : db_wf (env_db sample_env)) by wf_sample.
  assert (Hg : fst (AuthMiddleware "secret" ("Bearer " +:+ ann_token) sample_env) = GateNext 1)
    by (vm_compute; reflexivity).
  split; [exact Hwf|]. split; [exact Hg|]. exact (AuthMiddleware_sound _ _ _ _ Hwf Hg).
Defined.

Lemma Login_spec_witness :
  db_wf (env_db sample_env) /\ env_faults sample_env = [] /\ validate_login ann_login = [] /\
  env_db (snd (Login "secret" (inr ann_login) sample_env)) = env_db sample_env /\
  (forall k u, users (env_db sample_env) !! k = Some u -> User.Email u = LoginRequest.Email ann_login ->
     fst (Login "secret" (inr ann_login) sample_env) =
       if CheckPassword (LoginRequest.Password ann_login) (User.Password u) then
         SuccessResponse StatusOK "Login successful"
           (PLogin (LoginResponse.mk (hmac_token HS256 (login_claims u (env_now sample_env)) "secret")
                                     (hide_password u)))
       else ErrorResponse StatusUnauthorized "Invalid email or password") /\
  ((forall k u, users (env_db sample_env) !! k = Some u -> User.Email u <> LoginRequest.Email ann_login) ->
     fst (Login "secret" (inr ann_login) sample_env) = ErrorResponse StatusUnauthorized "Invalid email or password").
Proof.
  assert (Hwf : db_wf (env_db sample_env)) by wf_sample.
  split; [exact Hwf|]. split; [reflexivity|]. split; [vm_compute; reflexivity|].
  apply Login_spec; [exact Hwf | reflexivity | vm_compute; reflexivity].
Defined.

Lemma Login_token_accepted_witness :
  db_wf (env_db sample_env) /\ env_faults sample_env = [] /\ validate_login ann_login = [] /\
  users (env_db sample_env) !! 1 = Some sample_ann /\
  User.Email sample_ann = LoginRequest.Email ann_login /\
  CheckPassword (LoginRequest.Password ann_login) (User.Password sample_ann) = true /\
  exists tok,
    fst (Login "secret" (inr ann_login) sample_env) =
      SuccessResponse StatusOK "Login successful" (PLogin (LoginResponse.mk tok (hide_password sample_ann))) /\
    forall e', db_wf (env_db e') -> env_faults e' = [] -> is_Some (users (env_db e') !! 1) ->
      fst (AuthMiddleware "secret" ("Bearer " +:+ tok) e') =
        if bool_decide (env_now e' < time_Unix (Unix (env_now sample_env + 24 * Hour))) then GateNext 1
        else GateAbort (ErrorResponse StatusUnauthorized "Invalid or expired token").
Proof.
  assert (Hwf : db_wf (env_db sample_env)) by wf_sample.
  split; [exact Hwf|]. split; [reflexivity|]. split; [vm_compute; reflexivity|].
  split; [reflexivity|]. split; [reflexivity|]. split; [vm_compute; reflexivity|].
  apply Login_token_accepted; first [exact Hwf | reflexivity | vm_compute; reflexivity].
Defined.

Lemma Login_token_expires_early_witness :
  db_wf (env_db sample_env) /\ env_faults sample_env = [] /\ validate_login ann_login = [] /\
  users (env_db sample_env) !! 1 = Some sample_ann /\
  User.Email sample_ann = LoginRequest.Email ann_login /\
  CheckPassword (LoginRequest.Password ann_login) (User.Password sample_ann) = true /\
  env_now sample_env mod Second <> 0 /\
  exists tok t',
    fst (Login "secret" (inr ann_login) sample_env) =
      SuccessResponse StatusOK "Login successful" (PLogin (LoginResponse.mk tok (hide_password sample_ann))) /\
    env_now sample_env < t' < env_now sample_env + 24 * Hour /\
    forall e', db_wf (env_db e') -> env_faults e' = [] -> env_now e' = t' ->
      fst (AuthMiddleware "secret" ("Bearer " +:+ tok) e') =
        GateAbort (ErrorResponse StatusUnauthorized "Invalid or expired token").
Proof.
  assert (Hwf : db_wf (env_db sample_env)) by wf_sample.
  split; [exact Hwf|]. split; [reflexivity|]. split; [vm_compute; reflexivity|].
  split; [reflexivity|]. split; [reflexivity|]. split; [vm_compute; reflexivity|].
  split; [vm_compute; discriminate|].
  apply (Login_token_expires_early _ _ _ 1); first [exact Hwf | reflexivity | vm_compute; reflexivity | vm_compute; discriminate].
Defined.

(** ** [Register] *)

(** The row [INSERT INTO users] adds. *)
Definition new_user (db : DB) (req : RegisterRequest.t) (hashedPassword : string) (now : Time) : User.t :=
  User.mk (next_user_id db) (RegisterRequest.Name req) (RegisterRequest.Email req) hashedPassword now now.

Definition with_new_user (db : DB) (u : User.t) : DB :=
  {| users := <[next_user_id db := u]> (users db); tasks := tasks db;
     next_user_id := next_user_id db + 1; next_task_id := next_task_id db |}.

Definition email_rows (db : DB) (email : string) : list User.t :=
  select_rows (fun u => User.Email u = email) (users db).

Section RegisterRun.
Context `{!SqlDriver} `{!PasswordHasher}.

Lemma register_check_run salt req e :
  env_faults e = [] ->
  register_check salt req e =
    (if bool_decide (email_rows (env_db e) (RegisterRequest.Email req) <> []) then
       inl (ErrorResponse StatusConflict "Email already registered")
     else match HashPassword salt (RegisterRequest.Password req) with
          | None => inl (ErrorResponse StatusInternalServerError "Failed to hash password")
          | Some h => inr h
          end, mkEnv (env_db e) (env_now e) []).
Proof.
  intros Hf. unfold register_check. run_stmt sql_email_exists SEmailExists. simpl.
  unfold email_rows. by case_bool_decide.
Qed.

Lemma register_insert_run req h e :
  env_faults e = [] ->
  register_insert req h e =
    if decide (email_rows (env_db e) (RegisterRequest.Email req) <> []) then
      (ErrorResponse StatusInternalServerError "Failed to create user", mkEnv (env_db e) (env_now e) [])
    else if decide (next_user_id (env_db e) <= int4_max) then
      (SuccessResponse StatusCreated "User registered successfully"
         (PUser (hide_password (new_user (env_db e) req h (env_now e)))),
       mkEnv (with_new_user (env_db e) (new_user (env_db e) req h (env_now e))) (env_now e) [])
    else (ErrorResponse StatusInternalServerError "Failed to create user", mkEnv (env_db e) (env_now e) []).
Proof.
  intros Hf. unfold register_insert. run_stmt sql_insert_user SInsertUser.
  cbn [eval_stmt]. unfold eval_insert_user. simpl. unfold email_rows. by repeat case_decide.
Qed.
End RegisterRun.

(** Adding a user with a fresh e-mail under the next id keeps the
    invariant. *)
Lemma with_new_user_wf db req h now :
  db_wf db -> email_rows db (RegisterRequest.Email req) = [] -> next_user_id db <= int4_max ->
  db_wf (with_new_user db (new_user db req h now)).
Proof.
  intros (Hk & Hku & Hu & Hn1 & Hn2 & Hm1 & Hm2) He Hm. unfold with_new_user. split_and!; simpl; try done; try lia.
  - by apply keyed_insert_next.
  - intros k1 u1 Hk1 k2 u2 Hk2 Heq.
    apply lookup_insert_Some in Hk1 as [[<- <-]|[Hne1 Hk1]], Hk2 as [[<- <-]|[Hne2 Hk2]]; try done.
    + exfalso. assert (u2 ∈ email_rows db (RegisterRequest.Email req)) as Hin.
      { apply elem_of_select_rows. split; [eauto|]. by rewrite <-Heq. }
      rewrite He in Hin. set_solver.
    + exfalso. assert (u1 ∈ email_rows db (RegisterRequest.Email req)) as Hin.
      { apply elem_of_select_rows. split; [eauto|]. by rewrite Heq. }
      rewrite He in Hin. set_solver.
    + exact (Hu k1 u1 Hk1 k2 u2 Hk2 Heq).
Qed.

Section RegisterClaims.
Context `{!SqlDriver} `{!PasswordHasher} `{!EmailSyntax}.

Lemma Register_run salt req e :
  env_faults e = [] -> validate_register req = [] ->
  Register salt (inr req) e =
    if bool_decide (email_rows (env_db e) (RegisterRequest.Email req) <> []) then
      (ErrorResponse StatusConflict "Email already registered", mkEnv (env_db e) (env_now e) [])
    else match HashPassword salt (RegisterRequest.Password req) with
         | None => (ErrorResponse StatusInternalServerError "Failed to hash password",
                    mkEnv (env_db e) (env_now e) [])
         | Some h => register_insert req h (mkEnv (env_db e) (env_now e) [])
         end.
Proof.
  intros Hf Hv. unfold Register. simpl. rewrite Hv.
  unfold mbind at 1, M_bind at 1. rewrite register_check_run by done.
  case_bool_decide; [done|]. by destruct (HashPassword _ _).
Qed.

(** C24. [Register] on a valid body without connection fault: an
    e-mail already registered is a [409] and nothing changes; otherwise,
    for a password bcrypt accepts and while the [users] sequence lasts,
    the new user gets the next id, the name and e-mail of the request and
    a hash that verifies the password, is answered [201] without its
    hash, and the database stays well formed. *)
Theorem Register_spec (salt : string) (req : RegisterRequest.t) (e : Env) :
  db_wf (env_db e) -> env_faults e = [] -> validate_register req = [] ->
  (email_rows (env_db e) (RegisterRequest.Email req) <> [] ->
     Register salt (inr req) e =
       (ErrorResponse StatusConflict "Email already registered", mkEnv (env_db e) (env_now e) [])) /\
  (email_rows (env_db e) (RegisterRequest.Email req) = [] ->
   (String.length (RegisterRequest.Password req) <= 72)%nat -> next_user_id (env_db e) <= int4_max ->
   exists h,
     CheckPassword (RegisterRequest.Password req) h = true /\
     Register salt (inr req) e =
       (SuccessResponse StatusCreated "User registered successfully"
          (PUser (hide_password (new_user (env_db e) req h (env_now e)))),
        mkEnv (with_new_user (env_db e) (new_user (env_db e) req h (env_now e))) (env_now e) []) /\
     db_wf (with_new_user (env_db e) (new_user (env_db e) req h (env_now e)))).
Proof.
  intros Hwf Hf Hv. rewrite Register_run by done. split.
  - intros Hne. by rewrite bool_decide_true.
  - intros He Hl Hn. rewrite bool_decide_false by (intros Hc; by apply Hc).
    destruct (HashPassword salt _) as [h|] eqn:Hh.
    + exists h. split; [unfold CheckPassword, HashPassword in *; by eapply bcrypt_generate_compare|].
      split; [|by apply with_new_user_wf].
      rewrite register_insert_run by done. simpl. rewrite He, decide_False by (intros Hc; by apply Hc).
      rewrite decide_True by done.
      reflexivity.
    + apply bcrypt_generate_none in Hh. lia.
Qed.

(** A password made of ASCII bytes only: each byte is one rune. *)
Definition ascii_only (s : string) : bool :=
  forallb (fun c => Nat.ltb (Ascii.nat_of_ascii c) 128) (String.list_ascii_of_string s).

Lemma rune_count_ascii s : ascii_only s = true -> rune_count s = String.length s.
Proof.
  unfold ascii_only, rune_count. induction s as [|c s IH]; [done|].
  cbn [String.list_ascii_of_string forallb String.length].
  intros [Hc Hs]%andb_true_iff. apply Nat.ltb_lt in Hc.
  rewrite filter_cons, bool_decide_false, decide_True by (done || lia).
  cbn [length]. by rewrite IH.
Qed.

(** C34 (finding). The tags of [RegisterRequest] put no upper bound on the
    password: a request with a name, an e-mail the syntax accepts and an
    ASCII password longer than 72 bytes passes validation, and bcrypt then
    refuses the password, so the answer is [500 Failed to hash password]
    for an input error the spec leaves unbounded. *)
Theorem Register_long_password (salt : string) (req : RegisterRequest.t) (e : Env) :
  env_faults e = [] ->
  RegisterRequest.Name req <> "" -> RegisterRequest.Email req <> "" ->
  is_email (RegisterRequest.Email req) = true ->
  ascii_only (RegisterRequest.Password req) = true ->
  (72 < String.length (RegisterRequest.Password req))%nat ->
  email_rows (env_db e) (RegisterRequest.Email req) = [] ->
  validate_register req = [] /\
  Register salt (inr req) e =
    (ErrorResponse StatusInternalServerError "Failed to hash password", mkEnv (env_db e) (env_now e) []).
Proof.
  intros Hf Hn Hm He Ha Hl Hr.
  assert (Hv : validate_register req = []).
  { unfold validate_register, tag_required. rewrite rune_count_ascii, He by done.
    rewrite !bool_decide_false by (done || by intros Hp; rewrite Hp in Hl; cbn in Hl; lia).
    by rewrite bool_decide_true by lia. }
  split; [done|]. rewrite Register_run by done. rewrite bool_decide_false by (intros Hc; by apply Hc).
  unfold HashPassword. by rewrite (proj2 (bcrypt_generate_none salt _) Hl).
Qed.
End RegisterClaims.

Lemma email_rows_new_user db req h now :
  email_rows (with_new_user db (new_user db req h now)) (RegisterRequest.Email req) <> [].
Proof.
  intros E. assert (new_user db req h now ∈ email_rows (with_new_user db (new_user db req h now))
                      (RegisterRequest.Email req)) as Hin.
  { apply elem_of_select_rows. split; [|done]. exists (next_user_id db). simpl.
    by rewrite lookup_insert_eq. }
  rewrite E in Hin. set_solver.
Qed.

Lemma HashPassword_short `{!PasswordHasher} salt p :
  (String.length p <= 72)%nat -> exists h, HashPassword salt p = Some h.
Proof.
  intros Hl. unfold HashPassword. destruct (bcrypt_generate salt p) as [h|] eqn:E; [by eauto|].
  apply bcrypt_generate_none in E. lia.
Qed.

Section Race.
Context `{!SqlDriver} `{!PasswordHasher} `{!EmailSyntax}.

(** C31 (finding). [Register] checks the e-mail, then inserts: two
    registrations of the same new e-mail served one after the other give
    [201] then [409], but when both checks run before either insert the
    second insert hits the unique constraint and is answered [500 Failed
    to create user] instead of the spec's [409]. *)
Theorem Register_race (saltA saltB : string) (reqA reqB : RegisterRequest.t) (e : Env) :
  db_wf (env_db e) -> env_faults e = [] ->
  validate_register reqA = [] -> validate_register reqB = [] ->
  RegisterRequest.Email reqB = RegisterRequest.Email reqA ->
  email_rows (env_db e) (RegisterRequest.Email reqA) = [] ->
  (String.length (RegisterRequest.Password reqA) <= 72)%nat ->
  (String.length (RegisterRequest.Password reqB) <= 72)%nat ->
  next_user_id (env_db e) <= int4_max ->
  fst (Register saltB (inr reqB) (snd (Register saltA (inr reqA) e))) =
    ErrorResponse StatusConflict "Email already registered" /\
  exists hA hB,
    let e1 := snd (register_check saltA reqA e) in
    let e2 := snd (register_check saltB reqB e1) in
    let e3 := snd (register_insert reqA hA e2) in
    fst (register_check saltA reqA e) = inr hA /\ fst (register_check saltB reqB e1) = inr hB /\
    fst (register_insert reqA hA e2) =
      SuccessResponse StatusCreated "User registered successfully"
        (PUser (hide_password (new_user (env_db e) reqA hA (env_now e)))) /\
    fst (register_insert reqB hB e3) = ErrorResponse StatusInternalServerError "Failed to create user".
Proof.
  intros Hwf Hf HvA HvB HeB He HlA HlB Hn.
  destruct (HashPassword_short saltA _ HlA) as [hA HhA].
  destruct (HashPassword_short saltB _ HlB) as [hB HhB].
  assert (Hne : ~ (email_rows (env_db e) (RegisterRequest.Email reqA) <> [])) by (intros Hc; by apply Hc).
  split.
  - rewrite (Register_run saltA) by done. rewrite bool_decide_false, HhA by done.
    rewrite register_insert_run by done. simpl. rewrite decide_False, decide_True by done. simpl.
    rewrite Register_run by done. rewrite bool_decide_true; [done|]. simpl. rewrite HeB.
    apply email_rows_new_user.
  - exists hA, hB. cbv zeta.
    rewrite (register_check_run saltA) by done. rewrite bool_decide_false, HhA by done. cbn [fst snd].
    rewrite (register_check_run saltB) by done. cbn [env_db env_now env_faults fst snd].
    rewrite HeB, bool_decide_false, HhB by done. split_and!; try done.
    + rewrite register_insert_run by done. cbn [env_db env_now].
      by rewrite decide_False, decide_True by done.
    + rewrite (register_insert_run reqA) by done. cbn [env_db env_now].
      rewrite decide_False, decide_True by done. cbn [snd].
      rewrite register_insert_run by done. cbn [env_db env_now]. rewrite HeB, decide_True; [done|].
      apply email_rows_new_user.
Qed.
End Race.

(** A new account for the [Register] witnesses: Cat with a 7-rune
    password, and Dan whose password is 73 bytes long. *)
Definition cat_req : RegisterRequest.t := RegisterRequest.mk "Cat" "cat@x.com" "secret3".

Definition dan_req : RegisterRequest.t :=
  RegisterRequest.mk "Dan" "dan@x.com" (String.concat "" (repeat "x" 73)).

Lemma Register_spec_witness :
  exists h, CheckPassword "secret3" h = true /\
    Register "s" (inr cat_req) sample_env =
      (SuccessResponse StatusCreated "User registered successfully"
         (PUser (hide_password (new_user sample_db cat_req h 200))),
       mkEnv (with_new_user sample_db (new_user sample_db cat_req h 200)) 200 []).
Proof.
  assert (Hwf : db_wf (env_db sample_env)) by wf_sample.
  assert (Hv : validate_register cat_req = []) by (vm_compute; reflexivity).
  assert (He : email_rows (env_db sample_env) (RegisterRequest.Email cat_req) = []) by (vm_compute; reflexivity).
  assert (Hl : (String.length (RegisterRequest.Password cat_req) <= 72)%nat) by (vm_compute; lia).
  assert (Hn : next_user_id (env_db sample_env) <= int4_max) by (vm_compute; congruence).
  destruct (proj2 (Register_spec "s" cat_req sample_env Hwf eq_refl Hv) He Hl Hn) as (h & Hc & Hr & _).
  exists h. split; [exact Hc|exact Hr].
Defined.

Lemma Register_long_password_witness :
  validate_register dan_req = [] /\
  Register "s" (inr dan_req) sample_env =
    (ErrorResponse StatusInternalServerError "Failed to hash password", mkEnv sample_db 200 []).
Proof.
  apply (Register_long_password "s" dan_req sample_env);
    first [reflexivity | vm_compute; reflexivity | vm_compute; lia | vm_compute; congruence].
Defined.

Lemma Register_race_witness :
  fst (Register "t" (inr cat_req) (snd (Register "s" (inr cat_req) sample_env))) =
    ErrorResponse StatusConflict "Email already registered" /\
  exists hA hB,
    let e1 := snd (register_check "s" cat_req sample_env) in
    let e2 := snd (register_check "t" cat_req e1) in
    let e3 := snd (register_insert cat_req hA e2) in
    fst (register_check "s" cat_req sample_env) = inr hA /\ fst (register_check "t" cat_req e1) = inr hB /\
    fst (register_insert cat_req hA e2) =
      SuccessResponse StatusCreated "User registered successfully"
        (PUser (hide_password (new_user sample_db cat_req hA 200))) /\
    fst (register_insert cat_req hB e3) = ErrorResponse StatusInternalServerError "Failed to create user".
Proof.
  assert (Hwf : db_wf (env_db sample_env)) by wf_sample.
  apply (Register_race "s" "t" cat_req cat_req sample_env Hwf);
    first [reflexivity | vm_compute; reflexivity | vm_compute; lia | vm_compute; congruence].
Defined.


Lemma GetProfile_spec_witness :
  GetProfile 2 (mkEnv sample_db 200 [true]) =
    (ErrorResponse StatusNotFound "User not found", mkEnv sample_db 200 []) /\
  GetProfile 2 sample_env =
    (SuccessResponse StatusOK "Profile retrieved successfully"
       (PUser (User.mk 2 "Bob" "bob@x.com" "" 0 0)), mkEnv sample_db 200 []).
Proof.
  assert (Hwf : db_wf sample_db) by wf_sample.
  split; [exact (GetProfile_spec 2 (mkEnv sample_db 200 [true]) Hwf)|].
  rewrite (GetProfile_spec 2 sample_env Hwf). vm_compute. reflexivity.
Defined.
