(* ===== verification/Api.v ===== *)
(** * Api: the router of [main.go] and the server as a step relation

    [main.go] registers, on [gin.Default()] (the [Logger] and [Recovery]
    middlewares), the health check, the three account routes (the profile
    behind [AuthMiddleware]) and the seven task routes of the [/tasks]
    group, which [Use]s [AuthMiddleware].  Here:

    - [routes] is that table, in the order of the source, each route with
      its method, its path pattern, the middlewares before its handler,
      and the handler;
    - [find_route] is gin's lookup in its per-method tree: segments are
      compared literally, a [:param] takes one non-empty segment, and a
      static segment wins over a parameter ([/tasks/stats] before
      [/tasks/:id]); a path that matches no route is [404], unless the
      same path with or without a trailing slash matches one, which gin
      redirects ([RedirectTrailingSlash]);
    - [run_chain] runs the middlewares then the handler: an [Abort] of
      the gate ends the request with its response, [Next] passes on the
      [user_id] it [Set]s, and a panic (the [user_id] type assertion) is
      caught by [Recovery] and answered [500];
    - [serve] is one request; [server_step] the relation it induces on
      the database, [reachable] the databases a server started on empty
      tables can reach, and [server_steps] any sequence of steps.

    The theorems: end-to-end authorization of task changes, the
    invariant of reachable databases, [users] only growing, a registered
    account always able to log in, the [401] of gated routes, and gin's
    route precedence. *)

From S2P Require Import Prelude Models Jwt Store Sql Driver QueryBuilder TaskHandlers Safety Auth.
From Stdlib Require Import Ascii.

Local Open Scope Z_scope.
Local Open Scope tf_scope.

(** ** Requests and replies *)

Inductive Method := GET | POST | PUT | DELETE | PATCH | HEAD | OPTIONS.

#[global] Instance Method_eq_dec : EqDecision Method.
Proof. solve_decision. Defined.

(** The request as the handlers see it: method, [URL.Path], the
    [Authorization] header ([""] when absent), the query parameters and
    the raw body. *)
Record Request := mkRequest {
  req_method : Method;
  req_path : string;
  req_auth : string;
  req_query : QueryParams;
  req_body : string
}.

(** What the client receives: an envelope of [utils], the health JSON,
    gin's [404 page not found], a trailing-slash redirect with its code,
    or the empty [500] of [Recovery]. *)
Inductive Reply :=
| RJson (r : Response)
| RHealth
| RNotFound
| RRedirect (code : Z)
| RPanic.

Definition reply_status (r : Reply) : Z :=
  match r with
  | RJson r => Code r
  | RHealth => 200
  | RNotFound => 404
  | RRedirect code => code
  | RPanic => 500
  end.

(** ** The route table (main.go lines 30-60) *)

Inductive Seg := Lit (s : string) | Param (name : string).

Inductive Middleware := MAuth.

Inductive TaskKind := KCreate | KList | KStats | KGet | KUpdate | KDelete | KToggle.

#[global] Instance TaskKind_eq_dec : EqDecision TaskKind.
Proof. solve_decision. Defined.

Inductive HandlerFunc := HHealth | HRegister | HLogin | HProfile | HTask (k : TaskKind).

#[global] Instance HandlerFunc_eq_dec : EqDecision HandlerFunc.
Proof. solve_decision. Defined.

Record Route := mkRoute {
  rt_method : Method;
  rt_path : list Seg;
  rt_middleware : list Middleware;
  rt_handler : HandlerFunc
}.

Definition v1 : list Seg := [Lit "api"; Lit "v1"].

Definition routes : list Route := [
  mkRoute GET [Lit "health"] [] HHealth;
  mkRoute POST (v1 ++ [Lit "auth"; Lit "register"]) [] HRegister;
  mkRoute POST (v1 ++ [Lit "auth"; Lit "login"]) [] HLogin;
  mkRoute GET (v1 ++ [Lit "auth"; Lit "profile"]) [MAuth] HProfile;
  mkRoute POST (v1 ++ [Lit "tasks"]) [MAuth] (HTask KCreate);
  mkRoute GET (v1 ++ [Lit "tasks"]) [MAuth] (HTask KList);
  mkRoute GET (v1 ++ [Lit "tasks"; Lit "stats"]) [MAuth] (HTask KStats);
  mkRoute GET (v1 ++ [Lit "tasks"; Param "id"]) [MAuth] (HTask KGet);
  mkRoute PUT (v1 ++ [Lit "tasks"; Param "id"]) [MAuth] (HTask KUpdate);
  mkRoute DELETE (v1 ++ [Lit "tasks"; Param "id"]) [MAuth] (HTask KDelete);
  mkRoute PATCH (v1 ++ [Lit "tasks"; Param "id"; Lit "complete"]) [MAuth] (HTask KToggle)
].

(** ** gin's lookup *)

(** The segments of an absolute path: ["/a/b"] is [["a"; "b"]], ["/a/"]
    is [["a"; ""]]. *)
Definition path_segments (p : string) : option (list string) :=
  match str_split "/"%char p with
  | "" :: segs => Some segs
  | _ => None
  end.

Fixpoint seg_match (pat : list Seg) (segs : list string) : option (list (string * string)) :=
  match pat, segs with
  | [], [] => Some []
  | Lit l :: pat', s :: segs' => if String.eqb l s then seg_match pat' segs' else None
  | Param n :: pat', s :: segs' =>
      if String.eqb s "" then None else (fun ps => (n, s) :: ps) <$> seg_match pat' segs'
  | _, _ => None
  end.

(** At the first segment where two patterns differ in kind, the static
    one is tried first. *)
Fixpoint more_static (p q : list Seg) : bool :=
  match p, q with
  | Lit _ :: p', Lit _ :: q' | Param _ :: p', Param _ :: q' => more_static p' q'
  | Lit _ :: _, Param _ :: _ => true
  | _, _ => false
  end.

Definition matches (m : Method) (segs : list string) : list (Route * list (string * string)) :=
  omap (fun rt => if bool_decide (rt_method rt = m) then (fun ps => (rt, ps)) <$> seg_match (rt_path rt) segs
                  else None) routes.

Definition best (c c' : Route * list (string * string)) : Route * list (string * string) :=
  if more_static (rt_path c'.1) (rt_path c.1) then c' else c.

Definition find_route (m : Method) (segs : list string) : option (Route * list (string * string)) :=
  match matches m segs with
  | [] => None
  | c :: cs => Some (foldl best c cs)
  end.

(** [RedirectTrailingSlash]: [301] for [GET], [307] for the others. *)
Definition trailing_slash_redirect (m : Method) (segs : list string) : option Z :=
  let alt := match last segs with
             | Some "" => removelast segs
             | _ => segs ++ [""]
             end in
  match find_route m alt with
  | Some _ => Some (if bool_decide (m = GET) then 301 else 307)
  | None => None
  end.

(** [c.Param(name)]: [""] when the route has no such parameter. *)
Definition c_Param (ps : list (string * string)) (name : string) : string :=
  match list_find (fun kv => kv.1 = name) ps with Some (_, (_, v)) => v | None => "" end.

(** ** Running a route *)

(** The JSON decoding step of [c.ShouldBindJSON] for each request struct
    ([encoding/json], a library): the decoded struct or the decoder's
    error text.  Validation of the binding tags is the handlers' own. *)
Class BodyDecoder := {
  bind_create : string -> string + CreateTaskRequest.t;
  bind_update : string -> string + UpdateTaskBody.t;
  bind_register : string -> string + RegisterRequest.t;
  bind_login : string -> string + LoginRequest.t
}.

(** [c.GetInt("user_id")]: the value [Set] by the gate, [0] when unset. *)
Definition ctx_user_id (uid : option Z) : Z := default 0 uid.

Section Serve.
Context `{!SqlDriver} `{!JsonCodec} `{!HmacHash} `{!PasswordHasher} `{!EmailSyntax} `{!BodyDecoder}.

(** The task route a handler of the [/tasks] group serves, with its
    path parameter and body. *)
Definition task_request (k : TaskKind) (ps : list (string * string)) (req : Request) : TaskRequest :=
  match k with
  | KCreate => RCreate (bind_create (req_body req))
  | KList => RList (req_query req)
  | KStats => RStats
  | KGet => RGet (c_Param ps "id")
  | KUpdate => RUpdate (c_Param ps "id") (bind_update (req_body req))
  | KDelete => RDelete (c_Param ps "id")
  | KToggle => RToggle (c_Param ps "id")
  end.

Definition run_handler (secret salt : string) (req : Request) (ps : list (string * string))
    (uid : option Z) (h : HandlerFunc) : M Reply :=
  match h with
  | HHealth => mret RHealth
  | HRegister => r ← Register salt (bind_register (req_body req)); mret (RJson r)
  | HLogin => r ← Login secret (bind_login (req_body req)); mret (RJson r)
  | HProfile => r ← GetProfile (ctx_user_id uid); mret (RJson r)
  | HTask k => r ← task_route (ctx_user_id uid) (task_request k ps req); mret (RJson r)
  end.

(** The middlewares in order, then the handler. *)
Fixpoint run_chain (secret salt : string) (req : Request) (ps : list (string * string))
    (uid : option Z) (mws : list Middleware) (h : HandlerFunc) : M Reply :=
  match mws with
  | [] => run_handler secret salt req ps uid h
  | MAuth :: mws' =>
      g ← AuthMiddleware secret (req_auth req);
      match g with
      | GateAbort r => mret (RJson r)
      | GatePanic => mret RPanic
      | GateNext u => run_chain secret salt req ps (Some u) mws' h
      end
  end.

(** One request: [salt] is what bcrypt draws if the request registers. *)
Definition serve (secret salt : string) (req : Request) : M Reply :=
  match path_segments (req_path req) with
  | None => mret RNotFound
  | Some segs =>
      match find_route (req_method req) segs with
      | Some (rt, ps) => run_chain secret salt req ps None (rt_middleware rt) (rt_handler rt)
      | None =>
          mret match trailing_slash_redirect (req_method req) segs with
               | Some code => RRedirect code
               | None => RNotFound
               end
      end
  end.
End Serve.

(** ** The server as a step relation on the database *)

(** The tables a fresh schema starts with. *)
Definition init_db : DB := mkDB ∅ ∅ 1 1.

(** One request served at instant [now] under the connection faults
    [fs]: the database before, the request and its reply, the database
    after. *)
Inductive server_step `{!SqlDriver} `{!JsonCodec} `{!HmacHash} `{!PasswordHasher} `{!EmailSyntax}
    `{!BodyDecoder} (secret : string) : DB -> Request -> Reply -> DB -> Prop :=
| ServerStep salt req db now fs :
    server_step secret db req (fst (serve secret salt req (mkEnv db now fs)))
                (env_db (snd (serve secret salt req (mkEnv db now fs)))).

Inductive reachable `{!SqlDriver} `{!JsonCodec} `{!HmacHash} `{!PasswordHasher} `{!EmailSyntax}
    `{!BodyDecoder} (secret : string) : DB -> Prop :=
| reach_init : reachable secret init_db
| reach_step db req rep db' : reachable secret db -> server_step secret db req rep db' -> reachable secret db'.

(** ** Relations between the database before and after a request *)

Definition db_rel (P : DB -> DB -> Prop) (e e' : Env) : Prop := P (env_db e) (env_db e').

#[global] Instance db_rel_preorder P `{!PreOrder P} : PreOrder (db_rel P).
Proof. split; [intros ?; unfold db_rel; reflexivity|intros ???; unfold db_rel; apply transitivity]. Qed.

Definition wf_kept (db db' : DB) : Prop := db_wf db -> db_wf db'.

#[global] Instance wf_kept_preorder : PreOrder wf_kept.
Proof. split; [by intros ??|intros ??? H1 H2 ?; by apply H2, H1]. Qed.

(** The invariant, and the tasks of owner [v]. *)
Definition frame_kept (v : Z) (db db' : DB) : Prop :=
  db_wf db -> db_wf db' /\ owned_by v (tasks db') = owned_by v (tasks db).

#[global] Instance frame_kept_preorder v : PreOrder (frame_kept v).
Proof.
  split; [by intros ??|].
  intros ??? H1 H2 Hwf. destruct (H1 Hwf) as [Hwf2 E1]. destruct (H2 Hwf2) as [? E2]. split; congruence.
Qed.

Lemma guarded_wf_kept uid e e' : guarded uid e e' -> db_rel wf_kept e e'.
Proof. intros Hg Hwf. by destruct (Hg Hwf). Qed.

Lemma guarded_frame_kept uid v e e' : uid <> v -> guarded uid e e' -> db_rel (frame_kept v) e e'.
Proof.
  intros Hne Hg Hwf. destruct (Hg Hwf) as (Hwf' & Ho & _). split; [done|].
  by apply (owned_by_others uid).
Qed.

(** What a successful [INSERT INTO users] did. *)
Lemma eval_insert_user_inv args db now rows db' :
  eval_insert_user args db now = inr (rows, db') ->
  exists req h, db' = with_new_user db (new_user db req h now) /\
    email_rows db (RegisterRequest.Email req) = [] /\ next_user_id db <= int4_max.
Proof.
  unfold eval_insert_user. intros E.
  apply sbind_inr_inv in E as (name & _ & E). apply sbind_inr_inv in E as (email & _ & E).
  apply sbind_inr_inv in E as (hash & _ & E).
  case_decide as Hne; [done|]. case_decide as Hm; [|done]. invc E.
  by exists (RegisterRequest.mk name email hash), hash.
Qed.

Lemma eval_insert_user_frame v args db now rows db' :
  eval_insert_user args db now = inr (rows, db') -> frame_kept v db db'.
Proof.
  intros (req & h & -> & He & Hm)%eval_insert_user_inv Hwf. split; [|done]. by apply with_new_user_wf.
Qed.

Lemma eval_insert_user_wf args db now rows db' :
  eval_insert_user args db now = inr (rows, db') -> wf_kept db db'.
Proof. intros E Hwf. by apply (eval_insert_user_frame 0 _ _ _ _ _ E). Qed.

(** The invariant, and every row of [users] kept as it was. *)
Definition users_kept (db db' : DB) : Prop := db_wf db -> db_wf db' /\ users db ⊆ users db'.

#[global] Instance users_kept_preorder : PreOrder users_kept.
Proof.
  split; [by intros ??|].
  intros ??? H1 H2 Hwf. destruct (H1 Hwf) as [Hwf2 S1]. destruct (H2 Hwf2) as [? S2]. split; [done|].
  by etransitivity.
Qed.

Lemma guarded_users_kept uid e e' : guarded uid e e' -> db_rel users_kept e e'.
Proof. intros Hg Hwf. destruct (Hg Hwf) as (? & _ & ->). done. Qed.

Lemma eval_insert_user_users args db now rows db' :
  eval_insert_user args db now = inr (rows, db') -> users_kept db db'.
Proof.
  intros (req & h & -> & He & Hm)%eval_insert_user_inv Hwf. split; [by apply with_new_user_wf|].
  apply insert_subseteq. destruct Hwf as (_ & Hk & _). by apply (keyed_fresh User.ID).
Qed.

(** Unfold a computation of the monad down to its statements. *)
Ltac respects_gen :=
  repeat first
    [ apply respects_ret_gen; exact _
    | apply respects_get_now_gen; exact _
    | apply respects_bind_gen; [exact _| |intros ?]
    | case_bool_decide
    | case_match ].

Section Respects.
Context `{!SqlDriver}.

Lemma exec_db_rel P `{!Reflexive P} st args :
  st ∈ all_stmts ->
  (forall db now rows db', eval_stmt st args db now = inr (rows, db') -> P db db') ->
  respects (db_rel P) (exec (render_stmt st) args).
Proof.
  intros Hin Hev e. unfold db_rel. rewrite exec_render by done.
  destruct (pop_fault (env_faults e)) as [[] fs]; [simpl; reflexivity|].
  unfold settle. destruct (eval_stmt _ _ _ _) as [|[rows db']] eqn:E; [simpl; reflexivity|].
  by eapply Hev.
Qed.

Lemma exec_reads_db_rel P `{!Reflexive P} st args :
  st ∈ all_stmts -> reads_only st = true -> respects (db_rel P) (exec (render_stmt st) args).
Proof.
  intros Hin Hr. apply exec_db_rel; [exact _|done|]. intros ???? E.
  rewrite (eval_reads_only _ _ _ _ _ _ Hr E). reflexivity.
Qed.
End Respects.

(** A statement of the account handlers that only reads. *)
Ltac exec_reads :=
  lazymatch goal with
  | |- respects _ (exec ?txt _) =>
      let st := lazymatch txt with
                | sql_user_id_exists => constr:(SUserIDExists)
                | sql_select_user_by_email => constr:(SSelectUserByEmail)
                | sql_select_user_by_id => constr:(SSelectUserByID)
                | sql_email_exists => constr:(SEmailExists)
                end in
      change txt with (render_stmt st)
  end;
  apply exec_reads_db_rel; [exact _|auto with taskflow|reflexivity].

(** The account handlers and the gate, for any preorder their inserts
    respect. *)
Section AccountHandlers.
Context `{!SqlDriver} `{!JsonCodec} `{!HmacHash} `{!PasswordHasher} `{!EmailSyntax}.
Context (P : DB -> DB -> Prop) `{!PreOrder P}.

Lemma AuthMiddleware_respects secret hdr : respects (db_rel P) (AuthMiddleware secret hdr).
Proof. unfold AuthMiddleware. respects_gen. exec_reads. Qed.

Lemma Login_respects secret body : respects (db_rel P) (Login secret body).
Proof. unfold Login. respects_gen. exec_reads. Qed.

Lemma GetProfile_respects uid : respects (db_rel P) (GetProfile uid).
Proof. unfold GetProfile. respects_gen. exec_reads. Qed.

Lemma Register_respects salt body :
  (forall args db now rows db', eval_insert_user args db now = inr (rows, db') -> P db db') ->
  respects (db_rel P) (Register salt body).
Proof.
  intros Hins. unfold Register, register_check, register_insert. respects_gen; [exec_reads|].
  change sql_insert_user with (render_stmt SInsertUser). apply exec_db_rel; [exact _|auto with taskflow|].
  intros ????. apply Hins.
Qed.
End AccountHandlers.

(** ** Every request keeps the invariant; a task route changes only the
    tasks of the owner the gate admitted *)

Section Serving.
Context `{!SqlDriver} `{!JsonCodec} `{!HmacHash} `{!PasswordHasher} `{!EmailSyntax} `{!BodyDecoder}.

(** A handler respects a preorder that every insert of a user and every
    task route it may run respect. *)
Lemma run_handler_respects P `{!PreOrder P} secret salt req ps uid h :
  (forall args db now rows db', eval_insert_user args db now = inr (rows, db') -> P db db') ->
  (forall k, h = HTask k -> respects (db_rel P) (task_route (ctx_user_id uid) (task_request k ps req))) ->
  respects (db_rel P) (run_handler secret salt req ps uid h).
Proof.
  intros Hins Htask. destruct h; simpl; [apply respects_ret_gen, _|..];
    (apply respects_bind_gen; [exact _| |intros; apply respects_ret_gen, _]);
    auto using Register_respects, Login_respects, GetProfile_respects.
Qed.

(** A request respects a preorder that every insert of a user and every
    task route respect. *)
Lemma run_chain_respects P `{!PreOrder P} secret salt req ps uid mws h :
  (forall args db now rows db', eval_insert_user args db now = inr (rows, db') -> P db db') ->
  (forall u r, respects (db_rel P) (task_route u r)) ->
  respects (db_rel P) (run_chain secret salt req ps uid mws h).
Proof.
  intros Hins Htask. revert uid. induction mws as [|[] mws IH]; intros uid; simpl.
  - by apply run_handler_respects.
  - apply respects_bind_gen; [exact _|apply AuthMiddleware_respects, _|intros []]; auto.
    all: apply respects_ret_gen, _.
Qed.

Lemma serve_respects P `{!PreOrder P} secret salt req :
  (forall args db now rows db', eval_insert_user args db now = inr (rows, db') -> P db db') ->
  (forall u r, respects (db_rel P) (task_route u r)) ->
  respects (db_rel P) (serve secret salt req).
Proof. intros Hins Htask. unfold serve. respects_gen. by apply run_chain_respects. Qed.

Lemma run_handler_frame v secret salt req ps uid h :
  (forall k, h = HTask k -> ctx_user_id uid <> v) ->
  respects (db_rel (frame_kept v)) (run_handler secret salt req ps uid h).
Proof.
  intros Hh. apply run_handler_respects; [exact _|apply eval_insert_user_frame|].
  intros k ->. eapply respects_impl; [intros ??; apply (guarded_frame_kept _ _ _ _ (Hh k eq_refl))|].
  apply task_route_respects.
Qed.

Lemma serve_wf secret salt req : respects (db_rel wf_kept) (serve secret salt req).
Proof.
  apply serve_respects; [exact _|apply eval_insert_user_wf|].
  intros u r. eapply respects_impl; [apply guarded_wf_kept|]. apply task_route_respects.
Qed.

Lemma serve_users secret salt req : respects (db_rel users_kept) (serve secret salt req).
Proof.
  apply serve_respects; [exact _|apply eval_insert_user_users|].
  intros u r. eapply respects_impl; [apply guarded_users_kept|]. apply task_route_respects.
Qed.

Lemma server_step_wf secret db req rep db' :
  server_step secret db req rep db' -> db_wf db -> db_wf db'.
Proof. intros [salt r d now fs]. exact (serve_wf secret salt r (mkEnv d now fs)). Qed.

(** The handlers of the table: public ones without the gate, all
    others behind it. *)
Lemma best_elem c c' : best c c' = c \/ best c c' = c'.
Proof. unfold best. destruct (more_static _ _); auto. Qed.

Lemma foldl_best_elem c cs : foldl best c cs ∈ c :: cs.
Proof.
  revert c. induction cs as [|c' cs IH]; intros c; simpl; [set_solver|].
  destruct (best_elem c c') as [E|E]; rewrite E; specialize (IH (best c c')); rewrite E in IH; set_solver.
Qed.

Lemma find_route_in m segs rt ps : find_route m segs = Some (rt, ps) -> rt ∈ routes.
Proof.
  unfold find_route. destruct (matches m segs) as [|c cs] eqn:Hm; [done|]. intros [= Hc].
  assert (Hin : (rt, ps) ∈ matches m segs) by (rewrite Hm, <-Hc; apply foldl_best_elem).
  unfold matches in Hin. apply list_elem_of_omap in Hin as (rt' & Hrt & E).
  case_bool_decide; [|done]. destruct (seg_match _ _); simplify_eq/=. done.
Qed.

Lemma routes_gated rt :
  rt ∈ routes ->
  (rt_middleware rt = [] /\ forall k, rt_handler rt <> HTask k) \/ rt_middleware rt = [MAuth].
Proof. intros Hin. repeat (apply elem_of_cons in Hin as [->|Hin]; [simpl; naive_solver|]). set_solver. Qed.
End Serving.

Section ServingClaims.
Context `{!SqlDriver} `{!JsonCodec} `{!HmacHash} `{!PasswordHasher} `{!EmailSyntax} `{!BodyDecoder}.

(** C1. End-to-end authorization: whatever the request (any method,
    path, header and body), the instant and the connection faults, if
    serving it changes the tasks of owner [v] then its [Authorization]
    header is [Bearer <token>] for a token that [jwt.Parse] accepts under
    the server secret at that instant and whose [user_id] claim is [v]. *)
Theorem serve_tasks_authorized (secret salt : string) (req : Request) (e : Env) (v : Z) :
  db_wf (env_db e) ->
  owned_by v (tasks (env_db (snd (serve secret salt req e)))) <> owned_by v (tasks (env_db e)) ->
  exists tok m claims,
    req_auth req = "Bearer " +:+ tok /\ Parse secret (env_now e) tok = inr (m, claims) /\
    claim_user_id claims = Some v.
Proof.
  intros Hwf Hch. unfold serve in Hch.
  destruct (path_segments _) as [segs|]; [|done].
  destruct (find_route _ _) as [[rt ps]|] eqn:Hr; [|done].
  destruct (routes_gated rt (find_route_in _ _ _ _ Hr)) as [[Hm Hh]|Hm]; rewrite Hm in Hch; simpl in Hch.
  - exfalso. apply Hch.
    apply (run_handler_frame v secret salt req ps None (rt_handler rt)); [|done].
    intros k Hk. by destruct (Hh k).
  - rewrite M_bind_run in Hch. destruct (AuthMiddleware secret (req_auth req) e) as [g e1] eqn:Hg.
    assert (He1 : env_db e1 = env_db e).
    { pose proof (AuthMiddleware_db secret (req_auth req) e) as D. by rewrite Hg in D. }
    destruct g as [r| |u]; simpl in Hch; [by rewrite He1 in Hch|by rewrite He1 in Hch|].
    destruct (AuthMiddleware_next_inv secret (req_auth req) e u Hwf)
      as (tok & m & claims & Ha & _ & Hp & _ & Hc & _); [by rewrite Hg|].
    destruct (decide (u = v)) as [<-|Hne]; [eauto 10|].
    exfalso. apply Hch. rewrite <-He1.
    apply (run_handler_frame v secret salt req ps (Some u) (rt_handler rt)); [done|by rewrite He1].
Qed.
End ServingClaims.

Section ServingBounds.
Context `{!SqlDriver} `{!JsonCodec} `{!HmacHash} `{!PasswordHasher} `{!EmailSyntax} `{!BodyDecoder}.

(** C3. The invariant of the server: every database reachable from the
    empty tables by any sequence of requests, at any instants and under
    any connection faults, is well formed (rows under their own serial
    id, below the sequence, e-mails unique, sequences within [integer]). *)
Theorem reachable_db_wf (secret : string) (db : DB) : reachable secret db -> db_wf db.
Proof. induction 1 as [|db req rep db' _ IH Hs]; [wf_sample|]. by eapply server_step_wf. Qed.

(** C26. No request removes or alters a row of [users]: from a
    well-formed database, every step keeps each user exactly as it was
    (the only write to [users] is [Register]'s insert of a fresh id).  So
    the user a token opened the gate for is still there when the handler
    runs, and [GetProfile]'s [404] can only come from the connection. *)
Theorem server_step_users_grow (secret : string) (db : DB) (req : Request) (rep : Reply) (db' : DB) :
  db_wf db -> server_step secret db req rep db' -> users db ⊆ users db'.
Proof.
  intros Hwf Hs. revert Hwf. destruct Hs as [salt r d now fs]. intros Hwf.
  exact (proj2 (serve_users secret salt r (mkEnv d now fs) Hwf)).
Qed.
End ServingBounds.

Section RoutingClaims.
Context `{!SqlDriver} `{!JsonCodec} `{!HmacHash} `{!PasswordHasher} `{!EmailSyntax} `{!BodyDecoder}.

(** C6. A request to a route behind the gate (the profile and every
    task route) whose [Authorization] header does not carry a token that
    [jwt.Parse] accepts at that instant is answered [401] and changes
    nothing, under any connection fault. *)
Theorem serve_unauthenticated (secret salt : string) (req : Request) (e : Env)
    (segs : list string) (rt : Route) (ps : list (string * string)) :
  path_segments (req_path req) = Some segs -> find_route (req_method req) segs = Some (rt, ps) ->
  rt_middleware rt = [MAuth] ->
  (forall tok m claims, req_auth req = "Bearer " +:+ tok -> Parse secret (env_now e) tok <> inr (m, claims)) ->
  reply_status (fst (serve secret salt req e)) = 401 /\ env_db (snd (serve secret salt req e)) = env_db e.
Proof.
  intros Hp Hr Hm Hn. unfold serve. rewrite Hp, Hr, Hm. simpl. rewrite M_bind_run.
  destruct (bearer_token (req_auth req)) as [tok|] eqn:Hb.
  - rewrite (AuthMiddleware_bearer _ _ _ _ Hb).
    destruct (Parse _ _ tok) as [|[m claims]] eqn:Hpa; [done|].
    apply bearer_token_Some in Hb as [Ha _]. by destruct (Hn tok m claims Ha).
  - unfold AuthMiddleware. rewrite Hb. by case_bool_decide.
Qed.
End RoutingClaims.

(** gin's precedence on [GET /api/v1/tasks/<seg>]: the static route
    [/tasks/stats] is taken for [stats], and every other non-empty
    segment reaches [GetTask] with that segment as [c.Param("id")]. *)
Theorem route_tasks_segment (id : string) :
  id <> "" ->
  (fun c => (rt_handler c.1, c_Param c.2 "id")) <$> find_route GET ["api"; "v1"; "tasks"; id] =
    Some (if bool_decide (id = "stats") then (HTask KStats, "") else (HTask KGet, id)).
Proof.
  intros Hne. destruct (decide (id = "stats")) as [->|Hs]; [vm_compute; reflexivity|].
  unfold find_route, matches. cbn -[String.eqb].
  rewrite (proj2 (String.eqb_neq "stats" id)), (proj2 (String.eqb_neq id "")) by congruence.
  rewrite (bool_decide_false (id = "stats")) by done. vm_compute. reflexivity.
Qed.

(** ** A registered account can always log in *)

(** Any number of requests served one after the other. *)
Inductive server_steps `{!SqlDriver} `{!JsonCodec} `{!HmacHash} `{!PasswordHasher} `{!EmailSyntax}
    `{!BodyDecoder} (secret : string) : DB -> DB -> Prop :=
| steps_refl db : server_steps secret db db
| steps_step db req rep db' db'' :
    server_step secret db req rep db' -> server_steps secret db' db'' -> server_steps secret db db''.

Lemma first_tag_nil fe tags : first_tag fe tags = [] <-> Forall (fun t => t.2 = true) tags.
Proof.
  unfold first_tag. destruct (list_find _ _) as [[i [tag b]]|] eqn:E.
  - split; [done|]. intros HF. apply list_find_Some in E as (Hi & Hb & _).
    rewrite Forall_lookup in HF. specialize (HF _ _ Hi). simpl in *. congruence.
  - apply list_find_None in E. split; [intros _|done].
    eapply Forall_impl; [exact E|]. intros [? []]; simpl; congruence.
Qed.

Lemma validate_register_login `{!EmailSyntax} r :
  validate_register r = [] ->
  validate_login (LoginRequest.mk (RegisterRequest.Email r) (RegisterRequest.Password r)) = [].
Proof.
  unfold validate_register, validate_login. intros Hr.
  apply app_eq_nil in Hr as [_ Hr]. apply app_eq_nil in Hr as [E P].
  apply first_tag_nil in E, P. simpl. rewrite (proj2 (first_tag_nil _ _) E). simpl.
  apply first_tag_nil. inversion_clear P as [|? ? HP _]. by constructor.
Qed.

Section Accounts.
Context `{!SqlDriver} `{!JsonCodec} `{!HmacHash} `{!PasswordHasher} `{!EmailSyntax} `{!BodyDecoder}.

Lemma server_steps_users secret db db' :
  db_wf db -> server_steps secret db db' -> db_wf db' /\ users db ⊆ users db'.
Proof.
  intros Hwf Hs. induction Hs as [|db req rep db' db'' Hst _ IH]; [done|].
  revert Hwf IH. destruct Hst as [salt r d now fs]. intros Hwf IH.
  destruct (serve_users secret salt r (mkEnv d now fs) Hwf) as [Hwf' S].
  destruct (IH Hwf') as [? S']. split; [done|]. by etransitivity.
Qed.

(** What a registration answered [201] added. *)
Lemma Register_created salt req e :
  db_wf (env_db e) -> env_faults e = [] -> validate_register req = [] ->
  Code (fst (Register salt (inr req) e)) = StatusCreated ->
  exists h, CheckPassword (RegisterRequest.Password req) h = true /\
    users (env_db (snd (Register salt (inr req) e))) !! next_user_id (env_db e) =
      Some (new_user (env_db e) req h (env_now e)) /\
    db_wf (env_db (snd (Register salt (inr req) e))).
Proof.
  intros Hwf Hf Hv. rewrite Register_run by done.
  case_bool_decide as Hne; [done|]. destruct (HashPassword salt _) as [h|] eqn:Hh; [|done].
  rewrite register_insert_run by done. cbn [env_db env_now].
  case_decide; [done|]. case_decide as Hm; [|done]. intros _. exists h. split_and!.
  - unfold CheckPassword, HashPassword in *. by eapply bcrypt_generate_compare.
  - simpl. by rewrite lookup_insert_eq.
  - apply with_new_user_wf; [done| |done].
    destruct (decide (email_rows (env_db e) (RegisterRequest.Email req) = [])); [done|]. by destruct Hne.
Qed.
End Accounts.

Section AccountClaims.
Context `{!SqlDriver} `{!JsonCodec} `{!HmacHash} `{!PasswordHasher} `{!EmailSyntax} `{!BodyDecoder}.

(** C27. A registered account can always log in: once [Register] has
    answered [201], then after any further requests (at any instants,
    under any faults), logging in with that e-mail and password, without
    connection fault, is answered [200] with a token for the new user. *)
Theorem registered_can_login (secret salt : string) (req : RegisterRequest.t) (e : Env) (db : DB) (now : Time) :
  db_wf (env_db e) -> env_faults e = [] -> validate_register req = [] ->
  Code (fst (Register salt (inr req) e)) = StatusCreated ->
  server_steps secret (env_db (snd (Register salt (inr req) e))) db ->
  exists u,
    User.ID u = next_user_id (env_db e) /\ User.Email u = RegisterRequest.Email req /\
    fst (Login secret (inr (LoginRequest.mk (RegisterRequest.Email req) (RegisterRequest.Password req)))
           (mkEnv db now [])) =
      SuccessResponse StatusOK "Login successful"
        (PLogin (LoginResponse.mk (hmac_token HS256 (login_claims u now) secret) (hide_password u))).
Proof.
  intros Hwf Hf Hv Hc Hs.
  destruct (Register_created salt req e Hwf Hf Hv Hc) as (h & Hh & Hu & Hwf1).
  destruct (server_steps_users _ _ _ Hwf1 Hs) as [(_ & _ & Hue & _) S].
  set (u := new_user (env_db e) req h (env_now e)).
  assert (Hu' : users db !! next_user_id (env_db e) = Some u) by (eapply lookup_weaken; [exact Hu|exact S]).
  exists u. split_and!; [done|done|].
  rewrite Login_run by (done || by apply validate_register_login). cbn [fst LoginRequest.Email env_db].
  change (RegisterRequest.Email req) with (User.Email u).
  rewrite (select_email_unique _ _ u Hue Hu'). subst u. simpl. by rewrite Hh.
Qed.
End AccountClaims.

Definition bearer (tok : string) : string := "Bearer " +:+ tok.

(** ** Instances to run examples

    The JSON decoding of the request structs on the example codec of
    [Jwt]: string fields read from the object ([""] when absent), pointer
    fields [absent], [null] or a value.  It serves the witnesses only. *)

Definition jobj (kvs : list (string * JVal)) : JObj := list_to_map kvs.

Definition jstr (o : JObj) (k : string) : string :=
  match o !! k with Some (JStr s) => s | _ => "" end.

Definition jfield {A} (proj : JVal -> option A) (o : JObj) (k : string) : JSONField A :=
  match o !! k with
  | None => JAbsent
  | Some Jwt.JNull => Models.JNull
  | Some v => match proj v with Some a => JValue a | None => JAbsent end
  end.

Definition as_str (v : JVal) : option string := match v with JStr s => Some s | _ => None end.
Definition as_bool (v : JVal) : option bool := match v with JBool b => Some b | _ => None end.
Definition as_num (v : JVal) : option Z := match v with JNum z => Some z | _ => None end.

Definition decode_body {A} (f : JObj -> A) (s : string) : string + A :=
  match example_unmarshal s with Some o => inr (f o) | None => inl "invalid character in JSON body" end.

#[export] Instance example_body : BodyDecoder := {|
  bind_create := decode_body (fun o =>
    CreateTaskRequest.mk (jstr o "title") (jstr o "description") (jstr o "priority") (jstr o "category") None);
  bind_update := decode_body (fun o =>
    UpdateTaskBody.mk (jfield as_str o "title") (jfield as_str o "description") (jfield as_str o "priority")
      (jfield as_str o "category") (jfield as_bool o "is_completed") (jfield as_num o "due_date"));
  bind_register := decode_body (fun o => RegisterRequest.mk (jstr o "name") (jstr o "email") (jstr o "password"));
  bind_login := decode_body (fun o => LoginRequest.mk (jstr o "email") (jstr o "password"))
|}.

(** ** Witnesses *)

(** Ann deletes her task 1 with her token. *)
Definition ann_delete : Request := mkRequest DELETE "/api/v1/tasks/1" (bearer ann_token) [] "".

Lemma serve_tasks_authorized_witness :
  exists tok m claims,
    req_auth ann_delete = "Bearer " +:+ tok /\ Parse "secret" (env_now sample_env) tok = inr (m, claims) /\
    claim_user_id claims = Some 1.
Proof.
  assert (Hwf : db_wf (env_db sample_env)) by wf_sample.
  apply (serve_tasks_authorized "secret" "" ann_delete sample_env 1 Hwf).
  intros E. apply (f_equal (lookup 1)) in E. vm_compute in E. discriminate.
Defined.

Definition register_request (name email password : string) : Request :=
  mkRequest POST "/api/v1/auth/register" "" []
    (example_marshal (jobj [("name", JStr name); ("email", JStr email); ("password", JStr password)])).

Definition register_ann : Request := register_request "Ann" "ann@x.com" "secret1".

(** The database after Ann registers on the empty tables. *)
Definition after_register : DB := env_db (snd (serve "secret" "" register_ann (mkEnv init_db 0 []))).

Lemma after_register_reachable : reachable "secret" after_register.
Proof. eapply reach_step; [apply reach_init|constructor]. Qed.

Lemma reachable_db_wf_witness : db_wf after_register.
Proof. apply (reachable_db_wf "secret"). exact after_register_reachable. Defined.

(** A listing without [Authorization] header, and one with a forged token. *)
Definition list_anonymous : Request := mkRequest GET "/api/v1/tasks" "" [] "".

Lemma serve_unauthenticated_witness :
  reply_status (fst (serve "secret" "" list_anonymous sample_env)) = 401 /\
  env_db (snd (serve "secret" "" list_anonymous sample_env)) = env_db sample_env.
Proof.
  apply (serve_unauthenticated "secret" "" list_anonymous sample_env ["api"; "v1"; "tasks"]
           (mkRoute GET (v1 ++ [Lit "tasks"]) [MAuth] (HTask KList)) []);
    [vm_compute; reflexivity|vm_compute; reflexivity|reflexivity|].
  intros tok m claims Ha. cbv [list_anonymous req_auth] in Ha. simpl in Ha. discriminate.
Defined.

Lemma server_step_users_grow_witness :
  users sample_db ⊆
    users (env_db (snd (serve "secret" "" (register_request "Cat" "cat@x.com" "secret3") sample_env))).
Proof.
  apply (server_step_users_grow "secret" sample_db (register_request "Cat" "cat@x.com" "secret3")
           (fst (serve "secret" "" (register_request "Cat" "cat@x.com" "secret3") sample_env)));
    [wf_sample|].
  exact (ServerStep "secret" "" (register_request "Cat" "cat@x.com" "secret3") sample_db 200 []).
Defined.

(** Cat registers on the sample database, then Ann deletes her task. *)
Definition after_cat : DB := env_db (snd (Register "s" (inr cat_req) sample_env)).
Definition after_cat_delete : DB := env_db (snd (serve "secret" "" ann_delete (mkEnv after_cat 300 []))).

Lemma registered_can_login_witness :
  exists u,
    User.ID u = next_user_id sample_db /\ User.Email u = "cat@x.com" /\
    fst (Login "secret" (inr (LoginRequest.mk "cat@x.com" "secret3")) (mkEnv after_cat_delete 400 [])) =
      SuccessResponse StatusOK "Login successful"
        (PLogin (LoginResponse.mk (hmac_token HS256 (login_claims u 400) "secret") (hide_password u))).
Proof.
  assert (Hwf : db_wf (env_db sample_env)) by wf_sample.
  apply (registered_can_login "secret" "s" cat_req sample_env after_cat_delete 400 Hwf);
    [reflexivity|vm_compute; reflexivity|vm_compute; reflexivity|].
  eapply steps_step; [apply (ServerStep "secret" "" ann_delete after_cat 300 [])|apply steps_refl].
Defined.

