(* ===== verification/Envelope.v ===== *)
(** * Envelope: every reply is in the spec's status taxonomy

    The spec fixes the taxonomy of statuses: [200]/[201] for success,
    [400] validation, [401] authentication, [404] not found or not owned,
    [409] conflict, [500] internal; [utils.ErrorResponse] sets
    [success: false] and no payload, [utils.SuccessResponse]
    [success: true].  [returns P m] says that every result [m] computes,
    from any environment, satisfies [P]; it is closed under the monad's
    operations, so each handler is checked branch by branch. *)

From S2P Require Import Prelude Models Jwt Store Sql Driver QueryBuilder TaskHandlers Safety Auth Api.

Local Open Scope Z_scope.
Local Open Scope tf_scope.

(** A response of the envelope: a success code with the success flag, or
    an error code of the taxonomy without flag nor payload. *)
Definition envelope_ok (r : Response) : bool :=
  if Success r then bool_decide (Code r ∈ [200; 201])
  else bool_decide (Code r ∈ [400; 401; 404; 409; 500]) &&
       match Data r with PNone => true | _ => false end.

(** Besides the envelope, gin answers [200] for the health check, [404]
    for an unknown path, [301]/[307] for a trailing-slash redirect, and
    [Recovery] [500] after a panic. *)
Definition reply_ok (rep : Reply) : bool :=
  match rep with
  | RJson r => envelope_ok r
  | RRedirect code => bool_decide (code ∈ [301; 307])
  | RHealth | RNotFound | RPanic => true
  end.

Definition returns {A} (P : A -> Prop) (m : M A) : Prop := forall e, P (fst (m e)).

Lemma returns_ret {A} (P : A -> Prop) (x : A) : P x -> returns P (mret x).
Proof. intros Hx e. exact Hx. Qed.

Lemma returns_bind {A B} (Q : A -> Prop) (P : B -> Prop) (m : M A) (f : A -> M B) :
  returns Q m -> (forall x, Q x -> returns P (f x)) -> returns P (m ≫= f).
Proof.
  intros Hm Hf e. rewrite M_bind_run. specialize (Hm e).
  destruct (m e) as [a e1]. by apply Hf.
Qed.

Lemma returns_any {A} (m : M A) : returns (fun _ => True) m.
Proof. done. Qed.

(** Through binds whose first step's result does not matter, down to
    the [mret]s, each checked by computation. *)
Ltac returns_steps :=
  repeat first
    [ apply returns_ret; reflexivity
    | apply (returns_bind (fun _ => True)); [apply returns_any|intros ? _]
    | case_bool_decide
    | case_match ].

Section Handlers.
Context `{!SqlDriver} `{!JsonCodec} `{!HmacHash} `{!PasswordHasher} `{!EmailSyntax}.

Definition resp_ok (r : Response) : Prop := envelope_ok r = true.

Lemma task_route_envelope uid r : returns resp_ok (task_route uid r).
Proof.
  destruct r; simpl;
    unfold CreateTask, GetTasks, GetStats, GetTask, UpdateTask, DeleteTask, ToggleComplete;
    returns_steps.
Qed.

Definition gate_ok (g : GateResult) : Prop :=
  match g with GateAbort r => resp_ok r | _ => True end.

Lemma AuthMiddleware_envelope secret hdr : returns gate_ok (AuthMiddleware secret hdr).
Proof. unfold AuthMiddleware. returns_steps. Qed.

Lemma Register_envelope salt body : returns resp_ok (Register salt body).
Proof.
  unfold Register. case_match; [returns_steps|].
  apply (returns_bind (fun c => match c with inl r => resp_ok r | inr _ => True end)).
  - unfold register_check. returns_steps.
  - intros [r|h] Hc; [by apply returns_ret|]. unfold register_insert. returns_steps.
Qed.

Lemma Login_envelope secret body : returns resp_ok (Login secret body).
Proof. unfold Login. returns_steps. Qed.

Lemma GetProfile_envelope uid : returns resp_ok (GetProfile uid).
Proof. unfold GetProfile. returns_steps. Qed.
End Handlers.

Section Serving.
Context `{!SqlDriver} `{!JsonCodec} `{!HmacHash} `{!PasswordHasher} `{!EmailSyntax} `{!BodyDecoder}.

Lemma run_handler_envelope secret salt req ps uid h :
  returns (fun rep => reply_ok rep = true) (run_handler secret salt req ps uid h).
Proof.
  destruct h; simpl; [by apply returns_ret|..];
    (eapply returns_bind; [|intros r Hr; apply returns_ret; exact Hr]);
    auto using Register_envelope, Login_envelope, GetProfile_envelope, task_route_envelope.
Qed.

Lemma run_chain_envelope secret salt req ps uid mws h :
  returns (fun rep => reply_ok rep = true) (run_chain secret salt req ps uid mws h).
Proof.
  revert uid. induction mws as [|[] mws IH]; intros uid; simpl; [apply run_handler_envelope|].
  apply (returns_bind gate_ok); [apply AuthMiddleware_envelope|].
  intros [r| |u] Hg; [by apply returns_ret|by apply returns_ret|apply IH].
Qed.

(** C7. Every reply of the server is in the spec's taxonomy: an
    envelope with [200] or [201] and the success flag, or with [400],
    [401], [404], [409] or [500], no flag and no payload; otherwise gin's
    health [200], unknown-path [404], redirect [301]/[307] or recovered
    [500].  This holds for every request, instant and fault pattern. *)
Theorem serve_reply_codes (secret salt : string) (req : Request) (e : Env) :
  reply_ok (fst (serve secret salt req e)) = true /\
  reply_status (fst (serve secret salt req e)) ∈ [200; 201; 301; 307; 400; 401; 404; 409; 500].
Proof.
  assert (Hok : reply_ok (fst (serve secret salt req e)) = true).
  { revert e. change (returns (fun rep => reply_ok rep = true) (serve secret salt req)).
    unfold serve. destruct (path_segments _) as [segs|]; [|by apply returns_ret].
    destruct (find_route _ _) as [[rt ps]|]; [apply run_chain_envelope|].
    apply returns_ret. unfold trailing_slash_redirect. destruct (find_route _ _); [|done].
    case_bool_decide; reflexivity. }
  split; [exact Hok|]. revert Hok. destruct (fst _) as [r| | |code|]; simpl; try set_solver.
  - unfold envelope_ok. destruct (Success r); [|rewrite andb_true_iff; intros [Hc _]];
      [intros Hc|]; apply bool_decide_eq_true in Hc; set_solver.
  - intros Hc. apply bool_decide_eq_true in Hc. set_solver.
Qed.
End Serving.
