(* ===== verification/Startup.v ===== *)
(** * Startup: [database.Connect] and the start of [main]

    Before serving, [main] loads the configuration, connects to the
    database ([database.Connect]: [sql.Open], then [db.Ping]; either
    failure is a [log.Fatal], which ends the process), builds the handlers
    with [cfg.JWTSecret] and the router, and calls [router.Run(":" +
    cfg.Port)], whose failure is again a [log.Fatal].  The outcomes of
    [sql.Open], [Ping] and [Run] are I/O: they are arguments here.  What
    the program then does with each request is [Api.serve] under the
    secret chosen here.  [startup_log] is what the process logs before
    it serves or exits. *)

From S2P Require Import Prelude Models Jwt Store Sql Driver Auth Config Api.

Local Open Scope Z_scope.
Local Open Scope tf_scope.

(** [log.Fatal(msg, err)]: [fmt.Sprint] puts no space after a string
    operand. *)
Definition fatal_message (msg err : string) : string := msg +:+ err.

Inductive ConnectResult := Connected | ConnectFatal (msg : string).

(** [database.Connect(databaseURL)]: the errors [sql.Open] and [Ping]
    return, if any. *)
Definition Connect (openErr pingErr : option string) : ConnectResult :=
  match openErr with
  | Some err => ConnectFatal (fatal_message "Failed to connect to database:" err)
  | None =>
      match pingErr with
      | Some err => ConnectFatal (fatal_message "Failed to ping database:" err)
      | None => Connected
      end
  end.

(** How the process ends up: exited by [log.Fatal], or serving on an
    address with the secret its handlers and gates share. *)
Inductive Startup := Exit (msg : string) | Serving (addr : string) (secret : string).

(** [router.Run(":" + cfg.Port)]: the error of [Run], if any. *)
Definition run_server (cfg : Config) (runErr : option string) : Startup :=
  match runErr with
  | Some err => Exit (fatal_message "Failed to start server:" err)
  | None => Serving (":" +:+ Port cfg) (JWTSecret cfg)
  end.

(** Lines 16-25 and 73-75 of [main]: configuration, connection, then
    [Run]. *)
Definition startup (dotenv : option Environ) (env : Environ)
    (openErr pingErr runErr : option string) : Startup :=
  let cfg := Load dotenv env in
  match Connect openErr pingErr with
  | ConnectFatal msg => Exit msg
  | Connected => run_server cfg runErr
  end.

(** [log.Println] in [config.Load] when [godotenv.Load] fails. *)
Definition load_log (dotenv : option Environ) : list string :=
  match dotenv with
  | None => ["No .env file found, using environment variables"]
  | Some _ => []
  end.

(** Lines 64-71 of [main]: the banner, [%s] the port. *)
Definition banner (port : string) : list string :=
  [ "============================================================";
    "🚀 Server starting on port " +:+ port;
    "📝 API Documentation:";
    "   - Health Check: GET http://localhost:" +:+ port +:+ "/health";
    "   - Register:     POST http://localhost:" +:+ port +:+ "/api/v1/auth/register";
    "   - Login:        POST http://localhost:" +:+ port +:+ "/api/v1/auth/login";
    "   - Get Tasks:    GET http://localhost:" +:+ port +:+ "/api/v1/tasks";
    "============================================================" ].

(** What the process logs before it serves or exits, in order: lines 17
    and 64-71 of [main], line 19 of [config.go], line 20 of
    [database.go], and the message of a [log.Fatal]. *)
Definition startup_log (dotenv : option Environ) (env : Environ)
    (openErr pingErr runErr : option string) : list string :=
  let cfg := Load dotenv env in
  load_log dotenv ++ ["✅ Config loaded"] ++
  match Connect openErr pingErr with
  | ConnectFatal msg => [msg]
  | Connected =>
      ["✅ Database connected successfully"] ++ banner (Port cfg) ++
      match run_server cfg runErr with Exit msg => [msg] | Serving _ _ => [] end
  end.

(** The server a started process runs: every request is [serve] under
    the secret of the configuration. *)
Definition app `{!SqlDriver} `{!JsonCodec} `{!HmacHash} `{!PasswordHasher} `{!EmailSyntax}
    `{!BodyDecoder} (s : Startup) : option (string -> Request -> M Reply) :=
  match s with
  | Exit _ => None
  | Serving _ secret => Some (fun salt => serve secret salt)
  end.

(** The documented endpoints of the banner, as method and path. *)
Definition documented : list (Method * string) :=
  [(GET, "/health"); (POST, "/api/v1/auth/register"); (POST, "/api/v1/auth/login");
   (GET, "/api/v1/tasks")].

(** The router answers [m] on [p] with a route of method [m]. *)
Definition routed (mp : Method * string) : bool :=
  match path_segments mp.2 with
  | Some segs =>
      match find_route mp.1 segs with
      | Some (rt, _) => bool_decide (rt_method rt = mp.1)
      | None => false
      end
  | None => false
  end.

(** Every endpoint the banner documents is a route of the router. *)
Lemma documented_routed : forallb routed documented = true.
Proof. vm_compute. reflexivity. Qed.

Lemma startup_serving dotenv env openErr pingErr runErr addr secret :
  startup dotenv env openErr pingErr runErr = Serving addr secret <->
  openErr = None /\ pingErr = None /\ runErr = None /\
  addr = ":" +:+ Port (Load dotenv env) /\ secret = JWTSecret (Load dotenv env).
Proof.
  unfold startup, Connect, run_server.
  destruct openErr, pingErr, runErr; naive_solver.
Qed.
