(* ===== verification/Concurrency.v ===== *)
(** * Concurrency: requests interleaved statement by statement

    The server serves many requests at once over one connection pool;
    the only state they share is the database, and PostgreSQL runs each
    statement atomically.  To speak about interleavings, a request is
    written here as a program of the free monad [Prog] of its statements:
    [PExec text args k] sends a statement and continues with its result,
    [PNow k] reads the request's clock ([time.Now()]).  [interp] runs a
    program in the monad [M].  The task handlers, the account handlers,
    the gate, the middleware chain and the router are written as such
    programs ([*_prog]), and [serve_prog_interp] proves that interpreting
    the program of a request is [Api.serve].

    A pool is a list of requests in flight ([Thread]: what is left of the
    program, and the request's instant) with the shared database.
    [cstep] runs one statement of one request (the statement may fail on
    the connection); [sstep] serves one whole request, as [serve] does.

    - [reads_then_one]: along every path, reads of [users] and of the
      clock, then at most one statement, which keeps [users].  Every
      request but [Register] and [GetStats] has this shape
      ([serve_prog_shape]), and such pools are serializable: [serializable]
      is a simulation whose linearization point is the request's
      statement, with the reads of [users] moved there since no statement
      of the pool writes [users].
    - [toggles_no_lost_update]: concurrent toggles of one task each take
      effect.
    - [GetStats_not_snapshot]: the five counts of [GetStats] can see a
      toggle between two of them.
    - [pool_completes]: every pool can run until every request is
      answered. *)

From S2P Require Import Prelude Models Jwt Store Sql Driver QueryBuilder TaskHandlers Safety Auth Api.

Local Open Scope Z_scope.

(** ** Programs of statements *)

Inductive Prog (A : Type) : Type :=
| PRet (a : A)
| PExec (text : string) (args : list Value) (k : SqlError + Rows -> Prog A)
| PNow (k : Time -> Prog A).
Arguments PRet {A} _.
Arguments PExec {A} _ _ _.
Arguments PNow {A} _.

Fixpoint prog_bind {A B} (f : A -> Prog B) (p : Prog A) : Prog B :=
  match p with
  | PRet a => f a
  | PExec text args k => PExec text args (fun r => prog_bind f (k r))
  | PNow k => PNow (fun n => prog_bind f (k n))
  end.

#[global] Instance Prog_ret : MRet Prog := @PRet.
#[global] Instance Prog_bind : MBind Prog := @prog_bind.

(** [db.QueryRow]/[db.Query]/[db.Exec] and [time.Now()] as programs. *)
Definition pexec (text : string) (args : list Value) : Prog (SqlError + Rows) :=
  PExec text args PRet.
Definition pnow : Prog Time := PNow PRet.

Section Interp.
Context `{!SqlDriver}.

Fixpoint interp {A} (p : Prog A) : M A :=
  match p with
  | PRet a => mret a
  | PExec text args k => r ← exec text args; interp (k r)
  | PNow k => n ← get_now; interp (k n)
  end.
End Interp.

(** ** The task handlers as programs *)

Definition CreateTask_prog (userID : Z) (body : string + CreateTaskRequest.t) : Prog Response :=
  match should_bind validate_create body with
  | inl err => mret (ErrorResponse StatusBadRequest err)
  | inr req0 =>
      let req := create_defaults req0 in
      r ← pexec sql_insert_task
            [VInt userID; VText (CreateTaskRequest.Title req);
             VText (CreateTaskRequest.Description req); VText (CreateTaskRequest.Priority req);
             VText (CreateTaskRequest.Category req); time_ptr_value (CreateTaskRequest.DueDate req)];
      mret match scan_task r with
           | inl _ => ErrorResponse StatusInternalServerError "Failed to create task"
           | inr task => SuccessResponse StatusCreated "Task created successfully" (PTask task)
           end
  end.

Definition GetTasks_prog (userID : Z) (qs : QueryParams) : Prog Response :=
  let '(q, a) := build_get_tasks userID qs in
  r ← pexec q a;
  mret match r with
       | inl _ => ErrorResponse StatusInternalServerError "Failed to fetch tasks"
       | inr rows => SuccessResponse StatusOK "Tasks retrieved successfully" (PTasks (rows_tasks rows))
       end.

Definition GetTask_prog (userID : Z) (taskID : string) : Prog Response :=
  r ← pexec sql_select_task [VText taskID; VInt userID];
  mret match scan_task r with
       | inl ErrNoRows => ErrorResponse StatusNotFound "Task not found"
       | inl _ => ErrorResponse StatusInternalServerError "Failed to fetch task"
       | inr task => SuccessResponse StatusOK "Task retrieved successfully" (PTask task)
       end.

Definition UpdateTask_prog (userID : Z) (taskID : string) (body : string + UpdateTaskBody.t)
  : Prog Response :=
  match should_bind validate_update (decode_update_body body) with
  | inl err => mret (ErrorResponse StatusBadRequest err)
  | inr req =>
      let '(q, a) := build_update_task req taskID userID in
      r ← pexec q a;
      mret match scan_task r with
           | inl ErrNoRows => ErrorResponse StatusNotFound "Task not found"
           | inl _ => ErrorResponse StatusInternalServerError "Failed to update task"
           | inr task => SuccessResponse StatusOK "Task updated successfully" (PTask task)
           end
  end.

Definition DeleteTask_prog (userID : Z) (taskID : string) : Prog Response :=
  r ← pexec sql_delete_task [VText taskID; VInt userID];
  mret match r with
       | inl _ => ErrorResponse StatusInternalServerError "Failed to delete task"
       | inr res =>
           if decide (rows_affected res = 0) then ErrorResponse StatusNotFound "Task not found"
           else SuccessResponse StatusOK "Task deleted successfully" PNone
       end.

Definition ToggleComplete_prog (userID : Z) (taskID : string) : Prog Response :=
  r ← pexec sql_toggle_task [VText taskID; VInt userID];
  mret match scan_task r with
       | inl ErrNoRows => ErrorResponse StatusNotFound "Task not found"
       | inl _ => ErrorResponse StatusInternalServerError "Failed to toggle task"
       | inr task => SuccessResponse StatusOK "Task toggled successfully" (PTask task)
       end.

Definition GetStats_prog (userID : Z) : Prog Response :=
  total ← pexec (sql_count CntTotal) [VInt userID];
  completed ← pexec (sql_count CntCompleted) [VInt userID];
  pending ← pexec (sql_count CntPending) [VInt userID];
  high ← pexec (sql_count CntHigh) [VInt userID];
  now ← pnow;
  overdue ← pexec (sql_count CntOverdue) [VInt userID; VTime now];
  mret (SuccessResponse StatusOK "Statistics retrieved successfully"
          (PStats (TaskStats.mk (count_or_zero total) (count_or_zero completed)
                     (count_or_zero pending) (count_or_zero high) (count_or_zero overdue)))).

(** The dispatch of [Safety.task_route], on programs. *)
Definition task_prog (uid : Z) (r : TaskRequest) : Prog Response :=
  match r with
  | RCreate body => CreateTask_prog uid body
  | RList qs => GetTasks_prog uid qs
  | RStats => GetStats_prog uid
  | RGet id => GetTask_prog uid id
  | RUpdate id body => UpdateTask_prog uid id body
  | RDelete id => DeleteTask_prog uid id
  | RToggle id => ToggleComplete_prog uid id
  end.

Section Equivalence.
Context `{!SqlDriver}.

(** Each program is its handler: interpreting it gives the same
    computation of [M], statement for statement. *)
Lemma task_prog_interp uid r : interp (task_prog uid r) = task_route uid r.
Proof.
  destruct r as [body|qs| |id|id body|id|id]; simpl; try reflexivity;
    unfold CreateTask_prog, CreateTask, GetTasks_prog, GetTasks, UpdateTask_prog, UpdateTask;
    repeat case_match; reflexivity.
Qed.
End Equivalence.

Section Bind.
Context `{!SqlDriver}.

Lemma interp_pexec text args e : interp (pexec text args) e = exec text args e.
Proof. cbn. rewrite M_bind_run. by destruct (exec text args e). Qed.

Lemma interp_bind {A B} (p : Prog A) (f : A -> Prog B) e :
  interp (p ≫= f) e = (interp p ≫= (fun x => interp (f x))) e.
Proof.
  revert e. induction p as [a|text args k IH|k IH]; intros e; [reflexivity|..];
    cbn; rewrite !M_bind_run; [destruct (exec text args e)|]; apply IH.
Qed.
End Bind.

(** ** The account handlers, the gate and the router as programs *)

Section Account.
Context `{!JsonCodec} `{!HmacHash} `{!PasswordHasher} `{!EmailSyntax}.

Definition AuthMiddleware_prog (jwtSecret : string) (authHeader : string) : Prog GateResult :=
  if bool_decide (authHeader = "") then
    mret (GateAbort (ErrorResponse StatusUnauthorized "Authorization header required"))
  else
    match bearer_token authHeader with
    | None => mret (GateAbort (ErrorResponse StatusUnauthorized "Invalid authorization format"))
    | Some tokenString =>
        now ← pnow;
        match Parse jwtSecret now tokenString with
        | inl _ => mret (GateAbort (ErrorResponse StatusUnauthorized "Invalid or expired token"))
        | inr (_, claims) =>
            match claim_user_id claims with
            | None => mret GatePanic
            | Some userID =>
                r ← pexec sql_user_id_exists [VInt userID];
                mret match scan_bool r with
                     | inr true => GateNext userID
                     | _ => GateAbort (ErrorResponse StatusUnauthorized "User not found")
                     end
            end
        end
    end.

Definition register_check_prog (salt : string) (req : RegisterRequest.t) : Prog (Response + string) :=
  r ← pexec sql_email_exists [VText (RegisterRequest.Email req)];
  mret match scan_bool r with
       | inl _ => inl (ErrorResponse StatusInternalServerError "Database error")
       | inr true => inl (ErrorResponse StatusConflict "Email already registered")
       | inr false =>
           match HashPassword salt (RegisterRequest.Password req) with
           | None => inl (ErrorResponse StatusInternalServerError "Failed to hash password")
           | Some hashedPassword => inr hashedPassword
           end
       end.

Definition register_insert_prog (req : RegisterRequest.t) (hashedPassword : string) : Prog Response :=
  r ← pexec sql_insert_user
        [VText (RegisterRequest.Name req); VText (RegisterRequest.Email req); VText hashedPassword];
  mret match scan_user r with
       | inl _ => ErrorResponse StatusInternalServerError "Failed to create user"
       | inr user => SuccessResponse StatusCreated "User registered successfully" (PUser user)
       end.

Definition Register_prog (salt : string) (body : string + RegisterRequest.t) : Prog Response :=
  match should_bind validate_register body with
  | inl err => mret (ErrorResponse StatusBadRequest err)
  | inr req =>
      c ← register_check_prog salt req;
      match c with
      | inl resp => mret resp
      | inr hashedPassword => register_insert_prog req hashedPassword
      end
  end.

Definition Login_prog (jwtSecret : string) (body : string + LoginRequest.t) : Prog Response :=
  match should_bind validate_login body with
  | inl err => mret (ErrorResponse StatusBadRequest err)
  | inr req =>
      r ← pexec sql_select_user_by_email [VText (LoginRequest.Email req)];
      match scan_user r with
      | inl ErrNoRows => mret (ErrorResponse StatusUnauthorized "Invalid email or password")
      | inl _ => mret (ErrorResponse StatusInternalServerError "Database error")
      | inr u =>
          if negb (CheckPassword (LoginRequest.Password req) (User.Password u)) then
            mret (ErrorResponse StatusUnauthorized "Invalid email or password")
          else
            now ← pnow;
            mret match SignedString HS256 (login_claims u now) jwtSecret with
                 | inl _ => ErrorResponse StatusInternalServerError "Failed to generate token"
                 | inr tokenString =>
                     SuccessResponse StatusOK "Login successful"
                       (PLogin (LoginResponse.mk tokenString (hide_password u)))
                 end
      end
  end.

Definition GetProfile_prog (userID : Z) : Prog Response :=
  r ← pexec sql_select_user_by_id [VInt userID];
  mret match scan_user r with
       | inl _ => ErrorResponse StatusNotFound "User not found"
       | inr user => SuccessResponse StatusOK "Profile retrieved successfully" (PUser user)
       end.
End Account.

Section Router.
Context `{!JsonCodec} `{!HmacHash} `{!PasswordHasher} `{!EmailSyntax} `{!BodyDecoder}.

Definition run_handler_prog (secret salt : string) (req : Request) (ps : list (string * string))
    (uid : option Z) (h : HandlerFunc) : Prog Reply :=
  match h with
  | HHealth => mret RHealth
  | HRegister => r ← Register_prog salt (bind_register (req_body req)); mret (RJson r)
  | HLogin => r ← Login_prog secret (bind_login (req_body req)); mret (RJson r)
  | HProfile => r ← GetProfile_prog (ctx_user_id uid); mret (RJson r)
  | HTask k => r ← task_prog (ctx_user_id uid) (task_request k ps req); mret (RJson r)
  end.

Fixpoint run_chain_prog (secret salt : string) (req : Request) (ps : list (string * string))
    (uid : option Z) (mws : list Middleware) (h : HandlerFunc) : Prog Reply :=
  match mws with
  | [] => run_handler_prog secret salt req ps uid h
  | MAuth :: mws' =>
      g ← AuthMiddleware_prog secret (req_auth req);
      match g with
      | GateAbort r => mret (RJson r)
      | GatePanic => mret RPanic
      | GateNext u => run_chain_prog secret salt req ps (Some u) mws' h
      end
  end.

Definition serve_prog (secret salt : string) (req : Request) : Prog Reply :=
  match path_segments (req_path req) with
  | None => mret RNotFound
  | Some segs =>
      match find_route (req_method req) segs with
      | Some (rt, ps) => run_chain_prog secret salt req ps None (rt_middleware rt) (rt_handler rt)
      | None =>
          mret match trailing_slash_redirect (req_method req) segs with
               | Some code => RRedirect code
               | None => RNotFound
               end
      end
  end.
End Router.

Section RouterEquivalence.
Context `{!SqlDriver} `{!JsonCodec} `{!HmacHash} `{!PasswordHasher} `{!EmailSyntax} `{!BodyDecoder}.

Lemma AuthMiddleware_prog_interp secret hdr e :
  interp (AuthMiddleware_prog secret hdr) e = AuthMiddleware secret hdr e.
Proof.
  unfold AuthMiddleware_prog, AuthMiddleware. case_match; [reflexivity|].
  destruct (bearer_token hdr); [|reflexivity].
  rewrite interp_bind, !M_bind_run. change (interp pnow e) with (env_now e, e). unfold get_now. simpl.
  destruct (Parse secret (env_now e) s) as [|[? claims]]; [reflexivity|].
  destruct (claim_user_id claims); reflexivity.
Qed.

Lemma Register_prog_interp salt body e : interp (Register_prog salt body) e = Register salt body e.
Proof.
  unfold Register_prog, Register. case_match; [reflexivity|].
  rewrite interp_bind, !M_bind_run. change (interp (register_check_prog salt t)) with (register_check salt t).
  destruct (register_check salt t e) as [[]]; reflexivity.
Qed.

Lemma Login_prog_interp secret body e : interp (Login_prog secret body) e = Login secret body e.
Proof.
  unfold Login_prog, Login. case_match; [reflexivity|].
  rewrite interp_bind, !M_bind_run, interp_pexec. destruct (exec _ _ e) as [r e'].
  destruct (scan_user r) as [[]|u]; try reflexivity. by case_match.
Qed.

Lemma run_handler_prog_interp secret salt req ps uid h e :
  interp (run_handler_prog secret salt req ps uid h) e = run_handler secret salt req ps uid h e.
Proof.
  destruct h; cbv beta iota delta [run_handler_prog run_handler]; [reflexivity|..];
    rewrite interp_bind, !M_bind_run;
    [rewrite Register_prog_interp|rewrite Login_prog_interp|reflexivity|rewrite task_prog_interp];
    reflexivity.
Qed.

Lemma run_chain_prog_interp secret salt req ps uid mws h e :
  interp (run_chain_prog secret salt req ps uid mws h) e = run_chain secret salt req ps uid mws h e.
Proof.
  revert uid e. induction mws as [|[] mws IH]; intros uid e; simpl; [apply run_handler_prog_interp|].
  rewrite interp_bind, !M_bind_run, AuthMiddleware_prog_interp.
  destruct (AuthMiddleware secret (req_auth req) e) as [[] e']; [reflexivity|reflexivity|apply IH].
Qed.

(** Serving the program of a request is [serve]. *)
Lemma serve_prog_interp secret salt req e : interp (serve_prog secret salt req) e = serve secret salt req e.
Proof.
  unfold serve_prog, serve. destruct (path_segments _); [|reflexivity].
  destruct (find_route _ _) as [[]|]; [apply run_chain_prog_interp|reflexivity].
Qed.
End RouterEquivalence.

(** ** Pools of requests *)

(** A request in flight: what is left of its program, and its instant. *)
Record Thread (A : Type) := mkThread { th_prog : Prog A; th_now : Time }.
Arguments mkThread {A} _ _.
Arguments th_prog {A} _.
Arguments th_now {A} _.

Definition Pool (A : Type) : Type := list (Thread A) * DB.

Definition finished {A} (ths : list (Thread A)) : Prop :=
  Forall (fun th => exists a, th_prog th = PRet a) ths.

Section Steps.
Context `{!SqlDriver}.

(** One statement of one request, atomically, on the shared database; it
    may fail on the connection. *)
Inductive cstep {A} : Pool A -> Pool A -> Prop :=
| cstep_exec ths i text args k now db fault r e' :
    ths !! i = Some (mkThread (PExec text args k) now) ->
    exec text args (mkEnv db now [fault]) = (r, e') ->
    cstep (ths, db) (<[i := mkThread (k r) now]> ths, env_db e')
| cstep_now ths i k now db :
    ths !! i = Some (mkThread (PNow k) now) ->
    cstep (ths, db) (<[i := mkThread (k now) now]> ths, db).

(** One whole request, as [serve] runs it, under any fault pattern. *)
Inductive sstep {A} : Pool A -> Pool A -> Prop :=
| sstep_run ths i p now db fs a e' :
    ths !! i = Some (mkThread p now) ->
    interp p (mkEnv db now fs) = (a, e') ->
    sstep (ths, db) (<[i := mkThread (PRet a) now]> ths, env_db e').

(** A statement that reads [users] and nothing else: it leaves the
    database as it is, and its result depends only on [users]. *)
Definition reads_users (text : string) (args : list Value) : Prop :=
  forall db now fs, env_db (snd (exec text args (mkEnv db now fs))) = db /\
    forall db', users db' = users db ->
      fst (exec text args (mkEnv db' now fs)) = fst (exec text args (mkEnv db now fs)).

(** A statement that leaves [users] as it is. *)
Definition keeps_users (text : string) (args : list Value) : Prop :=
  forall db now fs, users (env_db (snd (exec text args (mkEnv db now fs)))) = users db.
End Steps.

(** ** The shape of a serializable request *)

Inductive no_stmt {A} : Prog A -> Prop :=
| no_stmt_ret a : no_stmt (PRet a)
| no_stmt_now k : (forall n, no_stmt (k n)) -> no_stmt (PNow k).

Section Shape.
Context `{!SqlDriver}.

(** Along every path: reads of [users] and clock reads, then at most one
    statement, which keeps [users], then nothing but clock reads. *)
Inductive reads_then_one {A} : Prog A -> Prop :=
| rto_none p : no_stmt p -> reads_then_one p
| rto_now k : (forall n, reads_then_one (k n)) -> reads_then_one (PNow k)
| rto_read text args k :
    reads_users text args -> (forall r, reads_then_one (k r)) -> reads_then_one (PExec text args k)
| rto_exec text args k :
    keeps_users text args -> (forall r, no_stmt (k r)) -> reads_then_one (PExec text args k).

(** Only reads of [users] and of the clock. *)
Inductive reads_only {A} : Prog A -> Prop :=
| ro_ret a : reads_only (PRet a)
| ro_now k : (forall n, reads_only (k n)) -> reads_only (PNow k)
| ro_read text args k : reads_users text args -> (forall r, reads_only (k r)) -> reads_only (PExec text args k).
End Shape.

(** The result of a program that sends no statement, at instant [now]. *)
Fixpoint finish {A} (now : Time) (p : Prog A) : option A :=
  match p with
  | PRet a => Some a
  | PNow k => finish now (k now)
  | PExec _ _ _ => None
  end.

Lemma no_stmt_mret {A} (a : A) : no_stmt (mret a).
Proof. exact (no_stmt_ret a). Qed.

Section ShapeLemmas.
Context `{!SqlDriver}.

Lemma no_stmt_bind {A B} (p : Prog A) (f : A -> Prog B) :
  no_stmt p -> (forall x, no_stmt (f x)) -> no_stmt (p ≫= f).
Proof. intros Hp Hf. induction Hp; cbn; [apply Hf|constructor; auto]. Qed.

Lemma rto_bind_no_stmt {A B} (p : Prog A) (f : A -> Prog B) :
  reads_then_one p -> (forall x, no_stmt (f x)) -> reads_then_one (p ≫= f).
Proof.
  intros Hp Hf. induction Hp as [p Hn| | |text args k Hk Hn]; cbn.
  - apply rto_none, no_stmt_bind; auto.
  - by apply rto_now.
  - by apply rto_read.
  - apply rto_exec; [done|]. intros r. apply no_stmt_bind; auto.
Qed.

Lemma reads_only_bind {A B} (p : Prog A) (f : A -> Prog B) :
  reads_only p -> (forall x, reads_then_one (f x)) -> reads_then_one (p ≫= f).
Proof. intros Hp Hf. induction Hp; cbn; [apply Hf|apply rto_now|apply rto_read]; auto. Qed.

Lemma reads_only_rto {A} (p : Prog A) : reads_only p -> reads_then_one p.
Proof. induction 1; [apply rto_none; constructor|by apply rto_now|by apply rto_read]. Qed.
End ShapeLemmas.

(** ** Serializability *)

Section Serial.
Context `{!SqlDriver}.

Lemma exec_now text args e : env_now (snd (exec text args e)) = env_now e.
Proof.
  unfold exec. destruct (pop_fault _) as [[] fs]; [done|].
  unfold settle. by destruct (drv_run _ _ _ _) as [|[]].
Qed.

(** A statement consumes the first flag of the oracle. *)
Lemma exec_cons text args db now f fs :
  exec text args (mkEnv db now (f :: fs)) =
    (fst (exec text args (mkEnv db now [f])),
     mkEnv (env_db (snd (exec text args (mkEnv db now [f])))) now fs).
Proof.
  unfold exec. simpl. destruct f; [done|].
  unfold settle. by destruct (drv_run _ _ _ _) as [|[]].
Qed.

(** [p] reaches [p'] by reading the clock, which says [now], and by
    reading [users0] under the fault flags [fs]. *)
Inductive rsteps {A} (users0 : gmap Z User.t) (now : Time) : list bool -> Prog A -> Prog A -> Prop :=
| rsteps_refl p : rsteps users0 now [] p p
| rsteps_now fs k p' : rsteps users0 now fs (k now) p' -> rsteps users0 now fs (PNow k) p'
| rsteps_read f fs text args k p' db :
    reads_users text args -> users db = users0 ->
    rsteps users0 now fs (k (fst (exec text args (mkEnv db now [f])))) p' ->
    rsteps users0 now (f :: fs) (PExec text args k) p'.

Lemma rsteps_interp {A} users0 now fs (p p' : Prog A) db rest :
  rsteps users0 now fs p p' -> users db = users0 ->
  interp p (mkEnv db now (fs ++ rest)) = interp p' (mkEnv db now rest).
Proof.
  intros Hr Hu. induction Hr as [|fs k p' _ IH|f fs text args k p' db0 Hro Hu0 _ IH]; [done|..].
  - simpl. rewrite M_bind_run. apply IH.
  - simpl. rewrite M_bind_run, exec_cons. destruct (Hro db now [f]) as [Hdb Hdep].
    rewrite Hdb. simpl. rewrite <- (Hdep db0) by congruence. apply IH.
Qed.

Lemma rsteps_snoc_now {A} users0 now fs (p : Prog A) k :
  rsteps users0 now fs p (PNow k) -> rsteps users0 now fs p (k now).
Proof.
  remember (PNow k) as q eqn:Eq. induction 1; subst; [by do 2 constructor|..].
  - constructor. auto.
  - econstructor; eauto.
Qed.

Lemma rsteps_snoc_read {A} users0 now fs (p : Prog A) text args k f db :
  rsteps users0 now fs p (PExec text args k) -> reads_users text args -> users db = users0 ->
  rsteps users0 now (fs ++ [f]) p (k (fst (exec text args (mkEnv db now [f])))).
Proof.
  remember (PExec text args k) as q eqn:Eq.
  induction 1 as [p0|fs0 k0 p' _ IH|f0 fs0 t0 a0 k0 p' db0 Hro0 Hu0 _ IH]; intros Hro Hu; simpl.
  - rewrite Eq. apply (rsteps_read _ _ f [] _ _ _ _ db); [done|done|constructor].
  - constructor. auto.
  - apply (rsteps_read _ _ f0 _ _ _ _ _ db0); auto.
Qed.
End Serial.

Section Sim.
Context `{!SqlDriver}.

Lemma no_stmt_finish {A} now (p : Prog A) :
  no_stmt p ->
  exists a, finish now p = Some a /\ forall e, env_now e = now -> interp p e = (a, e).
Proof.
  induction 1 as [a|k _ IH]; [by eexists|].
  destruct (IH now) as (a & Ha & Hi). exists a. split; [done|].
  intros e He. simpl. rewrite M_bind_run. unfold get_now. rewrite He. by apply Hi.
Qed.

Lemma no_stmt_exec {A} text args (k : _ -> Prog A) : ~ no_stmt (PExec text args k).
Proof. inversion 1. Qed.

(** A request of the interleaved pool and the same request of the serial
    pool: the serial one not yet run and the interleaved one not yet past
    its statement, only past reads of [users0] and of the clock; or the
    serial one finished with the result the rest of the interleaved one,
    which sends no statement, will give. *)
Definition th_rel {A} (users0 : gmap Z User.t) (c s : Thread A) : Prop :=
  th_now c = th_now s /\
  (((exists fs, rsteps users0 (th_now s) fs (th_prog s) (th_prog c)) /\ reads_then_one (th_prog c)) \/
   (no_stmt (th_prog c) /\ exists a, th_prog s = PRet a /\ finish (th_now c) (th_prog c) = Some a)).

Lemma th_rel_diag {A} users0 (ths : list (Thread A)) :
  Forall (fun th => reads_then_one (th_prog th)) ths -> Forall2 (th_rel users0) ths ths.
Proof.
  intros Ho. apply Forall_Forall2_diag. eapply Forall_impl; [exact Ho|].
  intros th H1. split; [done|]. left. split; [exists []; constructor|done].
Qed.

Lemma th_rel_now {A} users0 (s : Thread A) k now :
  th_rel users0 (mkThread (PNow k) now) s -> th_rel users0 (mkThread (k now) now) s.
Proof.
  unfold th_rel; simpl. intros (Hn & [((fs & Hs) & Ho)|(Hno & Hd)]); subst now; (split; [done|]).
  - left. split; [exists fs; by apply rsteps_snoc_now|].
    inversion Ho as [? Hno| k' Hk| |]; subst; [|done]. inversion Hno; subst. by constructor.
  - right. inversion Hno; subst. split; [done|]. exact Hd.
Qed.

Lemma cstep_sim {A} users0 (cs cs' : list (Thread A)) db db' ss :
  cstep (cs, db) (cs', db') -> users db = users0 -> Forall2 (th_rel users0) cs ss ->
  users db' = users0 /\ exists ss', rtc sstep (ss, db) (ss', db') /\ Forall2 (th_rel users0) cs' ss'.
Proof.
  intros Hc Hu Hr. revert Hu. inversion Hc as [? i text args k now ? fault r e' Hi Hex|? i k now ? Hi];
    subst; intros Hu; destruct (Forall2_lookup_l _ _ _ _ _ Hr Hi) as (s & Hs & Hcs).
  - destruct s as [ps ns]. destruct Hcs as (Hn & [((fs & Hst) & Ho)|(Hno & _)]);
      simpl in *; [subst ns|by apply no_stmt_exec in Hno].
    revert Hu. inversion Ho as [? Hno| |? ? ? Hro Hk|? ? ? Hku Hk]; subst; intros Hu;
      [by apply no_stmt_exec in Hno| |].
    + (* a read of [users]: the serial pool waits *)
      destruct (Hro db now [fault]) as [Hdb _]. rewrite Hex in Hdb. simpl in Hdb. rewrite Hdb.
      split; [done|]. exists ss. split; [done|]. rewrite <- (list_insert_id ss i _ Hs).
      apply Forall2_insert; [done|]. split; [done|]. left. split; [|apply Hk].
      exists (fs ++ [fault]). replace r with (fst (exec text args (mkEnv db now [fault]))) by by rewrite Hex.
      by apply rsteps_snoc_read.
    + (* the statement: the serial pool runs the whole request *)
      destruct (no_stmt_finish now _ (Hk r)) as (b & Hb & Hint).
      split; [specialize (Hku db now [fault]); rewrite Hex in Hku; simpl in Hku; congruence|].
      exists (<[i := mkThread (PRet b) now]> ss). split.
      * apply rtc_once. eapply (sstep_run _ _ _ _ _ (fs ++ [fault])); [exact Hs|].
        rewrite (rsteps_interp _ _ _ _ _ _ _ Hst Hu). simpl. rewrite M_bind_run, Hex.
        apply Hint. pose proof (exec_now text args (mkEnv db now [fault])) as E.
        by rewrite Hex in E.
      * apply Forall2_insert; [done|]. split; [done|]. right. simpl. eauto.
  - split; [done|]. exists ss. split; [done|]. rewrite <- (list_insert_id ss i s Hs).
    apply Forall2_insert; [done|]. by apply th_rel_now.
Qed.

Lemma rtc_sim {A} users0 (P Q : Pool A) ss :
  rtc cstep P Q -> users P.2 = users0 -> Forall2 (th_rel users0) P.1 ss ->
  users Q.2 = users0 /\ exists ss', rtc sstep (ss, P.2) (ss', Q.2) /\ Forall2 (th_rel users0) Q.1 ss'.
Proof.
  intros Hrtc. revert ss. induction Hrtc as [P|[c1 d1] [c2 d2] Q Hs _ IH]; intros ss Hu Hr.
  - split; [done|]. by exists ss.
  - destruct (cstep_sim _ _ _ _ _ _ Hs Hu Hr) as (Hu2 & ss1 & Hs1 & Hr1).
    destruct (IH _ Hu2 Hr1) as (Hu' & ss' & Hs' & Hr'). split; [done|].
    exists ss'. split; [|done]. etrans; eassumption.
Qed.

Lemma sstep_cons {A} (x : Thread A) P Q : sstep P Q -> sstep (x :: P.1, P.2) (x :: Q.1, Q.2).
Proof. destruct 1. simpl. by apply (sstep_run (x :: ths) (S i) p now db fs a e'). Qed.

Lemma finish_sim {A} users0 (cs ss : list (Thread A)) db :
  finished cs -> Forall2 (th_rel users0) cs ss -> users db = users0 -> rtc sstep (ss, db) (cs, db).
Proof.
  intros Hf Hr Hu. revert Hf. induction Hr as [|[pc nc] s cs ss Hcs _ IH]; intros Hf; [done|].
  apply Forall_cons in Hf as [(a & Ha) Hf]. simpl in Ha; subst pc.
  transitivity (mkThread (PRet a) nc :: ss, db).
  - destruct s as [ps ns], Hcs as (Hn & [((fs & Hst) & _)|(_ & (a' & Ha' & Hfin))]); simpl in *; subst ns.
    + apply rtc_once. apply (sstep_run (mkThread ps nc :: ss) 0 ps nc db fs a (mkEnv db nc [])); [done|].
      pose proof (rsteps_interp _ _ _ _ _ db [] Hst Hu) as E. by rewrite app_nil_r in E.
    + simplify_eq. done.
  - apply (rtc_congruence (R := sstep) (fun P : Pool A => (mkThread (PRet a) nc :: P.1, P.2)) sstep
      (ss, db) (cs, db) (sstep_cons _)). by apply IH.
Qed.

(** Requests that read [users] and then send at most one statement, in a
    pool where every statement keeps [users], are serializable. *)
Lemma serializable {A} (ths ths' : list (Thread A)) db db' :
  Forall (fun th => reads_then_one (th_prog th)) ths ->
  rtc cstep (ths, db) (ths', db') -> finished ths' -> rtc sstep (ths, db) (ths', db').
Proof.
  intros Ho Hr Hf.
  destruct (rtc_sim (users db) _ _ ths Hr eq_refl (th_rel_diag _ _ Ho)) as (Hu & ss & Hs & Hrel).
  etrans; [exact Hs|]. by apply (finish_sim (users db)).
Qed.
End Sim.

(** ** Which statements read or keep [users] *)

(** Every statement but the user [INSERT] leaves [users] as it is. *)
Lemma eval_stmt_keeps_users st args db now rows db' :
  st <> SInsertUser -> eval_stmt st args db now = inr (rows, db') -> users db' = users db.
Proof.
  intros Hne E. destruct st; try done; simpl in E;
    unfold eval_insert_task, eval_select_tasks, eval_select_task, eval_update_task, eval_delete_task,
      eval_toggle_task, eval_count, eval_email_exists, eval_select_user_by_email,
      eval_select_user_by_id, eval_user_id_exists, update_where in E;
    repeat (apply sbind_inr_inv in E as (? & _ & E)); try case_decide; by invc E.
Qed.

(** The user [SELECT]s and [EXISTS] queries return the database and read
    only [users]. *)
Definition user_read (st : Stmt) : bool :=
  match st with SEmailExists | SSelectUserByEmail | SSelectUserByID | SUserIDExists => true | _ => false end.

(** The result of a statement without the database it leaves. *)
Definition stmt_result (r : SqlError + (Rows * DB)) : SqlError + Rows :=
  match r with inl e => inl e | inr (rows, _) => inr rows end.

Lemma eval_user_read st args db now :
  user_read st = true ->
  (forall rows db', eval_stmt st args db now = inr (rows, db') -> db' = db) /\
  forall db', users db' = users db ->
    stmt_result (eval_stmt st args db' now) = stmt_result (eval_stmt st args db now).
Proof.
  destruct st; try done; intros _; simpl;
    unfold eval_email_exists, eval_select_user_by_email, eval_select_user_by_id, eval_user_id_exists;
    (split; [intros rows db' E; repeat (apply sbind_inr_inv in E as (? & _ & E)); by invc E|]);
    intros db' Hu; unfold stmt_result, sbind; rewrite Hu;
    destruct (to_text (arg args 1)), (to_int (arg args 1)); reflexivity.
Qed.

Section Classify.
Context `{!SqlDriver}.

Lemma exec_keeps_users st args : st ∈ all_stmts -> st <> SInsertUser -> keeps_users (render_stmt st) args.
Proof.
  intros Hin Hne db now fs. rewrite exec_render by done. simpl.
  destruct (pop_fault fs) as [[] fs']; [done|]. unfold settle.
  destruct (eval_stmt st args db now) as [|[rows db']] eqn:E; [done|].
  by apply (eval_stmt_keeps_users st args db now rows db').
Qed.

Lemma exec_reads_users st args : st ∈ all_stmts -> user_read st = true -> reads_users (render_stmt st) args.
Proof.
  intros Hin Hr db now fs. destruct (eval_user_read st args db now Hr) as [Hdb Hdep].
  split; [|intros db' Hu; specialize (Hdep db' Hu)]; rewrite !exec_render by done; simpl;
    destruct (pop_fault fs) as [[] fs']; try done; unfold settle.
  - destruct (eval_stmt st args db now) as [|[rows db']]; [done|]. simpl. by eapply Hdb.
  - destruct (eval_stmt st args db' now) as [|[]], (eval_stmt st args db now) as [|[]]; by simplify_eq/=.
Qed.
End Classify.

(** ** The shape of each request *)

Section Shapes.
Context `{!SqlDriver} `{!JsonCodec} `{!HmacHash} `{!PasswordHasher} `{!EmailSyntax} `{!BodyDecoder}.

(** Down a program of reads of [users] and of the clock. *)
Local Ltac reads_shape :=
  repeat first
    [ apply ro_ret
    | apply ro_now; intros ?
    | apply ro_read;
        [first [apply (exec_reads_users SUserIDExists) | apply (exec_reads_users SSelectUserByID)
               | apply (exec_reads_users SSelectUserByEmail)]; [auto with taskflow|reflexivity]
        |intros ?]
    | case_match
    | progress cbn [mbind Prog_bind prog_bind pexec pnow mret Prog_ret] ].

(** One statement that keeps [users], then the response. *)
Local Ltac one_shape st :=
  cbn [mbind Prog_bind prog_bind pexec mret Prog_ret];
  apply rto_exec; [apply (exec_keeps_users st); [auto with taskflow|done]|intros; constructor].

Lemma task_prog_shape uid r : r <> RStats -> reads_then_one (task_prog uid r).
Proof.
  destruct r as [body|qs| |id|id body|id|id]; intros Hr; try done; simpl.
  - unfold CreateTask_prog. case_match; [apply rto_none; constructor|]. one_shape SInsertTask.
  - unfold GetTasks_prog. rewrite build_get_tasks_state. one_shape (SSelectTasks (present_filters qs)).
  - unfold GetTask_prog. one_shape SSelectTask.
  - unfold UpdateTask_prog. case_match; [apply rto_none; constructor|].
    rewrite build_update_task_state.
    match goal with _ : should_bind _ _ = inr ?req |- _ => one_shape (SUpdateTask (present_fields req)) end.
  - unfold DeleteTask_prog. one_shape SDeleteTask.
  - unfold ToggleComplete_prog. one_shape SToggleTask.
Qed.

Lemma AuthMiddleware_prog_shape secret hdr : reads_only (AuthMiddleware_prog secret hdr).
Proof. unfold AuthMiddleware_prog. reads_shape. Qed.

Lemma Login_prog_shape secret body : reads_only (Login_prog secret body).
Proof. unfold Login_prog. reads_shape. Qed.

Lemma GetProfile_prog_shape uid : reads_only (GetProfile_prog uid).
Proof. unfold GetProfile_prog. reads_shape. Qed.
End Shapes.

(** The handlers whose requests are not serializable: [Register] (a read
    of [users], then an insert into it) and [GetStats] (five counts). *)
Definition serial_handler (h : HandlerFunc) : bool :=
  match h with HRegister | HTask KStats => false | _ => true end.

(** A request the router does not send to one of them. *)
Definition serial_request (req : Request) : bool :=
  match path_segments (req_path req) with
  | Some segs =>
      match find_route (req_method req) segs with
      | Some (rt, _) => serial_handler (rt_handler rt)
      | None => true
      end
  | None => true
  end.

Section RouterShapes.
Context `{!SqlDriver} `{!JsonCodec} `{!HmacHash} `{!PasswordHasher} `{!EmailSyntax} `{!BodyDecoder}.

Lemma run_handler_prog_shape secret salt req ps uid h :
  serial_handler h = true -> reads_then_one (run_handler_prog secret salt req ps uid h).
Proof.
  destruct h as [| | | |k]; cbv beta iota delta [run_handler_prog serial_handler]; intros Hh; try done; [apply rto_none, no_stmt_mret|..];
    apply rto_bind_no_stmt; try (intros; apply no_stmt_mret).
  - apply reads_only_rto, Login_prog_shape.
  - apply reads_only_rto, GetProfile_prog_shape.
  - apply task_prog_shape. by destruct k.
Qed.

Lemma run_chain_prog_shape secret salt req ps uid mws h :
  serial_handler h = true -> reads_then_one (run_chain_prog secret salt req ps uid mws h).
Proof.
  intros Hh. revert uid. induction mws as [|[] mws IH]; intros uid; simpl; [by apply run_handler_prog_shape|].
  apply reads_only_bind; [apply AuthMiddleware_prog_shape|]. intros [r| |u]; [apply rto_none, no_stmt_mret..|apply IH].
Qed.

Lemma serve_prog_shape secret salt req :
  serial_request req = true -> reads_then_one (serve_prog secret salt req).
Proof.
  unfold serial_request, serve_prog. intros Hs.
  destruct (path_segments _); [|apply rto_none, no_stmt_mret].
  destruct (find_route _ _) as [[rt ps]|]; [by apply run_chain_prog_shape|apply rto_none, no_stmt_mret].
Qed.

(** C14. Serializability of the server: requests in flight at once,
    other than registrations and [/tasks/stats], interleaved statement by
    statement on the shared database (each statement atomic, any of them
    possibly failing on the connection), end, once all are answered, with
    the answers and the database of a run that serves them one at a time,
    each whole: [interp] of a request's program is [serve]
    ([serve_prog_interp]). *)
Theorem serve_serializable (ths ths' : list (Thread Reply)) (db db' : DB) :
  Forall (fun th => exists secret salt req,
            serial_request req = true /\ th_prog th = serve_prog secret salt req) ths ->
  rtc cstep (ths, db) (ths', db') -> finished ths' ->
  rtc sstep (ths, db) (ths', db').
Proof.
  intros Ht. apply serializable. eapply Forall_impl; [exact Ht|].
  intros th (secret & salt & req & Hs & ->). by apply serve_prog_shape.
Qed.
End RouterShapes.

(** ** Concurrent toggles *)

(** A request answered [200]. *)
Definition toggled (th : Thread Response) : bool :=
  match th_prog th with PRet r => bool_decide (Code r = StatusOK) | _ => false end.

Lemma toggle_row_fields now t :
  Task.ID (toggle_row now t) = Task.ID t /\ Task.UserID (toggle_row now t) = Task.UserID t /\
  Task.IsCompleted (toggle_row now t) = negb (Task.IsCompleted t).
Proof. by destruct t. Qed.

Section Toggles.
Context `{!SqlDriver}.

Lemma exec_fault text args db now fs fs' :
  pop_fault fs = (true, fs') -> exec text args (mkEnv db now fs) = (inl ErrConn, mkEnv db now fs').
Proof. intros Hf. unfold exec. simpl. by rewrite Hf. Qed.

Lemma exec_toggle_owned uid taskID id t db now fs fs' :
  keyed Task.ID (next_task_id db) (tasks db) -> pg_parse_int taskID = inr id ->
  tasks db !! id = Some t -> Task.UserID t = uid -> pop_fault fs = (false, fs') ->
  exec sql_toggle_task [VText taskID; VInt uid] (mkEnv db now fs) =
    (inr (RTasks [toggle_row now t]),
     mkEnv (with_tasks db (<[id := toggle_row now t]> (tasks db))) now fs').
Proof.
  intros Hk Hp Ht Hu Hf. change sql_toggle_task with (render_stmt SToggleTask).
  rewrite exec_render by (auto with taskflow). simpl. rewrite Hf. cbn [eval_stmt].
  rewrite (eval_toggle_owned _ _ _ _ Hk), Hp, Ht. simpl. by rewrite decide_True.
Qed.

(** What a pool of toggles of the owner's task [id] keeps: each request is
    still to run or answered; the table differs from [db0] only in the row
    [id], whose flag is the first one negated once per [200]. *)
Definition toggle_inv (uid : Z) (taskID : string) (id : Z) (t0 : Task.t) (db0 : DB) (P : Pool Response) : Prop :=
  Forall (fun th => th_prog th = ToggleComplete_prog uid taskID \/ exists a, th_prog th = PRet a) P.1 /\
  exists t', P.2 = with_tasks db0 (<[id := t']> (tasks db0)) /\ Task.ID t' = id /\ Task.UserID t' = uid /\
    Task.IsCompleted t' = xorb (Task.IsCompleted t0) (Nat.odd (length (List.filter toggled P.1))).

Section Inv.
Variables (uid : Z) (taskID : string) (id : Z) (t0 : Task.t) (db0 : DB).
Hypotheses (Hwf : db_wf db0) (Hp : pg_parse_int taskID = inr id) (Ht0 : tasks db0 !! id = Some t0)
  (Hu0 : Task.UserID t0 = uid).

Lemma toggle_inv_keyed t' :
  Task.ID t' = id -> keyed Task.ID (next_task_id db0) (<[id := t']> (tasks db0)).
Proof.
  intros Hid. destruct Hwf as [Hk _]. apply map_Forall_insert_2; [|done].
  destruct (Hk _ _ Ht0) as [_ Hb]. by split.
Qed.

Lemma toggle_inv_sstep P Q : sstep P Q -> toggle_inv uid taskID id t0 db0 P -> toggle_inv uid taskID id t0 db0 Q.
Proof.
  intros [ths i p now db fs a e' Hi Hint] [Hth (t' & Hdb & Hid & Hu & Hc)]; simpl in *; subst db.
  destruct (Forall_lookup_1 _ _ _ _ Hth Hi) as [Hpend|(b & Hpend)]; simpl in Hpend; subst p.
  - cbn in Hint. rewrite M_bind_run in Hint.
    pose proof (length_filter_insert toggled ths i (mkThread (PRet a) now) _ Hi) as Hn.
    replace (toggled (mkThread (ToggleComplete_prog uid taskID) now)) with false in Hn by reflexivity.
    assert (Hth' : Forall (fun th => th_prog th = ToggleComplete_prog uid taskID \/
                               exists a, th_prog th = PRet a) (<[i := mkThread (PRet a) now]> ths)).
    { apply Forall_insert; [done|]. right. by eexists. }
    destruct (pop_fault fs) as [[] fs'] eqn:Hf.
    + rewrite (exec_fault _ _ _ _ _ fs') in Hint by done. simpl in Hint. rewrite M_ret_run in Hint. simplify_eq/=. split; [done|].
      exists t'. split_and!; [done..|]. rewrite Hc. simpl in Hn.
      simpl. do 2 f_equal. lia.
    + rewrite (exec_toggle_owned uid taskID id t' (with_tasks db0 (<[id := t']> (tasks db0))) now fs fs') in Hint; [|by apply toggle_inv_keyed|done|
        simpl; by rewrite lookup_insert_eq|done|done].
      simpl in Hint. rewrite M_ret_run in Hint. injection Hint as <- <-. split; [done|].
      destruct (toggle_row_fields now t') as (Hid' & Hu' & Hc').
      exists (toggle_row now t'). split_and!; [|congruence|congruence|].
      { change (with_tasks db0 (<[id := toggle_row now t']> (<[id := t']> (tasks db0))) =
                with_tasks db0 (<[id := toggle_row now t']> (tasks db0))). by rewrite insert_insert_eq. }
      simpl in Hn. simpl. rewrite Hc', Hc.
      replace (length (List.filter toggled (<[i := _]> ths)))
        with (S (length (List.filter toggled ths))) by lia.
      rewrite Nat.odd_succ, <- Nat.negb_odd. by destruct (Task.IsCompleted t0), (Nat.odd _).
  - simpl in Hint. rewrite M_ret_run in Hint. simplify_eq/=. rewrite list_insert_id by done. split; [done|]. by exists t'.
Qed.

Lemma toggle_inv_init nows :
  toggle_inv uid taskID id t0 db0 (mkThread (ToggleComplete_prog uid taskID) <$> nows, db0).
Proof.
  split.
  - apply Forall_fmap, Forall_forall. intros n _. by left.
  - exists t0. destruct Hwf as [Hk _]. destruct (Hk _ _ Ht0) as [Hid _].
    rewrite insert_id, with_tasks_id by done. split_and!; [done..|].
    assert (Hz : List.filter toggled (mkThread (ToggleComplete_prog uid taskID) <$> nows) = []).
    { induction nows as [|n nows IH]; [done|]. exact IH. }
    simpl. rewrite Hz. simpl. by destruct (Task.IsCompleted t0).
Qed.

Lemma toggle_inv_rtc P Q : rtc sstep P Q -> toggle_inv uid taskID id t0 db0 P -> toggle_inv uid taskID id t0 db0 Q.
Proof. induction 1; eauto using toggle_inv_sstep. Qed.
End Inv.

(** C15. No lost update: requests toggling the owner's task, at any
    instants and interleaved in any way, each toggle failing on the
    connection or not, change nothing but that task's row once all are
    answered, and its [is_completed] is the initial one negated once for
    every request answered [200]; in particular two successful toggles
    restore it. *)
Theorem toggles_no_lost_update (uid : Z) (taskID : string) (id : Z) (t : Task.t) (nows : list Time)
    (db : DB) (ths' : list (Thread Response)) (db' : DB) :
  db_wf db -> pg_parse_int taskID = inr id -> tasks db !! id = Some t -> Task.UserID t = uid ->
  rtc cstep (mkThread (ToggleComplete_prog uid taskID) <$> nows, db) (ths', db') -> finished ths' ->
  exists t', db' = with_tasks db (<[id := t']> (tasks db)) /\
    Task.IsCompleted t' = xorb (Task.IsCompleted t) (Nat.odd (length (List.filter toggled ths'))).
Proof.
  intros Hwf Hp Ht Hu Hr Hf.
  assert (Ho : Forall (fun th => reads_then_one (th_prog th)) (mkThread (ToggleComplete_prog uid taskID) <$> nows)).
  { apply Forall_fmap, Forall_forall. intros n _. by apply (task_prog_shape uid (RToggle taskID)). }
  pose proof (serializable _ _ _ _ Ho Hr Hf) as Hser.
  destruct (toggle_inv_rtc uid taskID id t db Hwf Hp Ht Hu _ _ Hser (toggle_inv_init _ _ _ _ _ Hwf Ht Hu nows))
    as [_ (t' & Hdb & _ & _ & Hc)]. eauto.
Qed.
End Toggles.

(** ** [GetStats] is not a snapshot *)

Lemma count_rows_update uid c now db id x y :
  tasks db !! id = Some y ->
  count_rows uid c now (with_tasks db (<[id := x]> (tasks db))) +
    (if decide (Task.UserID y = uid /\ count_cond c now y = true) then 1 else 0) =
  count_rows uid c now db +
    (if decide (Task.UserID x = uid /\ count_cond c now x = true) then 1 else 0).
Proof.
  intros Hy. unfold count_rows. rewrite !length_select_rows. simpl.
  pose proof (size_filter_update (fun kv => Task.UserID kv.2 = uid /\ count_cond c now kv.2 = true)
                (tasks db) id x y Hy) as E. simpl in E.
  repeat case_decide; lia.
Qed.

Section Stats.
Context `{!SqlDriver}.

Lemma cstep_exec_at {A} (ths : list (Thread A)) i text args k now db fault r e' ths' :
  ths !! i = Some (mkThread (PExec text args k) now) ->
  exec text args (mkEnv db now [fault]) = (r, e') ->
  ths' = <[i := mkThread (k r) now]> ths ->
  cstep (ths, db) (ths', env_db e').
Proof. intros Hi He ->. by eapply cstep_exec. Qed.

Lemma cstep_now_at {A} (ths : list (Thread A)) i k now db ths' :
  ths !! i = Some (mkThread (PNow k) now) -> ths' = <[i := mkThread (k now) now]> ths ->
  cstep (ths, db) (ths', db).
Proof. intros Hi ->. by eapply cstep_now. Qed.

Lemma exec_count_at c args uid n0 db now fs fs' :
  eval_count c args db = inr (RCount (count_rows uid c n0 db), db) -> pop_fault fs = (false, fs') ->
  exec (sql_count c) args (mkEnv db now fs) = (inr (RCount (count_rows uid c n0 db)), mkEnv db now fs').
Proof. intros He Hf. rewrite exec_count. simpl. by rewrite Hf, He. Qed.

(** One count of thread [i], evaluated at instant [n0]. *)
Local Ltac count_step i uid n0 :=
  eapply rtc_l;
    [eapply (cstep_exec_at _ i);
       [reflexivity | apply (exec_count_at _ _ uid n0); reflexivity | reflexivity] |].

(** C32 (finding). [GetStats] sends its five counts as five statements:
    when a toggle of one of the owner's pending tasks runs between the
    completed and the pending count, the answer is [200] with a pending
    count taken after the toggle and a completed count taken before it,
    so [Completed + Pending = Total - 1], whereas served alone
    ([TaskHandlers.GetStats_spec]) the two always add up to the total. *)
Theorem GetStats_not_snapshot (uid : Z) (taskID : string) (id : Z) (t : Task.t) (db : DB) (n1 n2 : Time) :
  db_wf db -> pg_parse_int taskID = inr id -> tasks db !! id = Some t -> Task.UserID t = uid ->
  Task.IsCompleted t = false ->
  exists s db',
    rtc cstep ([mkThread (GetStats_prog uid) n1; mkThread (ToggleComplete_prog uid taskID) n2], db)
      ([mkThread (PRet (SuccessResponse StatusOK "Statistics retrieved successfully" (PStats s))) n1;
        mkThread (PRet (SuccessResponse StatusOK "Task toggled successfully" (PTask (toggle_row n2 t)))) n2],
       db') /\
    TaskStats.Completed s + TaskStats.Pending s + 1 = TaskStats.Total s.
Proof.
  intros Hwf Hp Ht Hu Hc. eexists _, _. split.
  - count_step 0%nat uid 0. count_step 0%nat uid 0.
    eapply rtc_l; [eapply (cstep_exec_at _ 1%nat);
      [reflexivity | apply (exec_toggle_owned _ _ id t); [apply Hwf|done..] | reflexivity] |].
    count_step 0%nat uid 0. count_step 0%nat uid 0.
    eapply rtc_l; [eapply (cstep_now_at _ 0%nat); reflexivity|].
    count_step 0%nat uid n1. apply rtc_refl.
  - unfold count_or_zero, scan_count. simpl. pose proof (count_total_split uid 0 db) as Hs.
    pose proof (count_rows_update uid CntPending 0 db id (toggle_row n2 t) t Ht) as Hupd.
    destruct (toggle_row_fields n2 t) as (_ & Hu' & Hc'). simpl in Hupd.
    rewrite Hc', Hc in Hupd. rewrite decide_True in Hupd by done.
    rewrite decide_False in Hupd by (intros [_ ?]; done). lia.
Qed.
End Stats.

(** ** Every pool can run to completion *)

Section Progress.
Context `{!SqlDriver}.

Lemma exec_nil_env text args db now :
  snd (exec text args (mkEnv db now [])) = mkEnv (env_db (snd (exec text args (mkEnv db now [])))) now [].
Proof. unfold exec. simpl. unfold settle. by destruct (drv_run _ _ _ _) as [|[]]. Qed.

(** A request run alone, without connection fault, to its answer. *)
Lemma run_thread {A} (ths : list (Thread A)) i p now db :
  ths !! i = Some (mkThread p now) ->
  rtc cstep (ths, db) (<[i := mkThread (PRet (fst (interp p (mkEnv db now [])))) now]> ths,
                       env_db (snd (interp p (mkEnv db now [])))).
Proof.
  revert ths db. induction p as [a|text args k IH|k IH]; intros ths db Hi.
  - simpl. rewrite list_insert_id by done. reflexivity.
  - assert (Hl : (i < length ths)%nat) by (eapply lookup_lt_Some; eauto).
    destruct (exec text args (mkEnv db now [])) as [r e1] eqn:Ex.
    eapply rtc_l.
    { eapply (cstep_exec _ i _ _ _ _ _ false r e1); [exact Hi|]. rewrite <- Ex. reflexivity. }
    pose proof (exec_nil_env text args db now) as E. rewrite Ex in E. simpl in E.
    pose proof (IH r (<[i := mkThread (k r) now]> ths) (env_db e1) (list_lookup_insert_eq _ _ _ Hl)) as H1.
    rewrite list_insert_insert_eq in H1. simpl. rewrite M_bind_run, Ex, E. exact H1.
  - assert (Hl : (i < length ths)%nat) by (eapply lookup_lt_Some; eauto).
    eapply rtc_l; [by eapply cstep_now|].
    pose proof (IH now (<[i := mkThread (k now) now]> ths) db (list_lookup_insert_eq _ _ _ Hl)) as H1.
    rewrite list_insert_insert_eq in H1. simpl. rewrite M_bind_run. exact H1.
Qed.

Lemma cstep_cons {A} (x : Thread A) P Q : cstep P Q -> cstep (x :: P.1, P.2) (x :: Q.1, Q.2).
Proof.
  destruct 1; simpl; [by apply (cstep_exec (x :: ths) (S i) text args k now db fault r e')|].
  by apply (cstep_now (x :: ths) (S i) k now db).
Qed.

(** No request waits for another: from any pool there is a run that
    answers every request. *)
Lemma pool_completes {A} (ths : list (Thread A)) db :
  exists ths' db', rtc cstep (ths, db) (ths', db') /\ finished ths'.
Proof.
  revert db. induction ths as [|[p now] ths IH]; intros db; [exists [], db; split; [done|constructor]|].
  pose proof (run_thread (mkThread p now :: ths) 0 p now db eq_refl) as H0. simpl in H0.
  destruct (IH (env_db (snd (interp p (mkEnv db now []))))) as (ths' & db' & Hr & Hf).
  eexists (_ :: ths'), db'. split.
  - etrans; [exact H0|].
    apply (rtc_congruence (R := cstep) (fun P : Pool A => (mkThread (PRet (fst (interp p (mkEnv db now [])))) now :: P.1, P.2))
      cstep (ths, _) (ths', db') (cstep_cons _)). exact Hr.
  - constructor; [by eexists|exact Hf].
Qed.
End Progress.

(** ** Witnesses on the sample database *)

(** Ann's pending task of the sample database. *)
Definition milk : Task.t := Task.mk 1 1 "Buy milk" "" "medium" "personal" false None 100 100.

(** Two toggles of Ann's task, at instants [200] and [300], one after the
    other. *)
Lemma two_toggles_run :
  exists db', rtc cstep (mkThread (ToggleComplete_prog 1 "1") <$> [200; 300], sample_db)
    ([mkThread (PRet (SuccessResponse StatusOK "Task toggled successfully" (PTask (toggle_row 200 milk)))) 200;
      mkThread (PRet (SuccessResponse StatusOK "Task toggled successfully"
                        (PTask (toggle_row 300 (toggle_row 200 milk))))) 300], db').
Proof.
  eexists. eapply rtc_l.
  { eapply (cstep_exec_at _ 0%nat); [reflexivity| |reflexivity].
    apply (exec_toggle_owned _ _ 1 milk); [apply (bool_decide_unpack _); vm_compute; exact I|reflexivity..]. }
  eapply rtc_l.
  { eapply (cstep_exec_at _ 1%nat); [reflexivity| |reflexivity].
    apply (exec_toggle_owned _ _ 1 (toggle_row 200 milk));
      [apply (bool_decide_unpack _); vm_compute; exact I|reflexivity|vm_compute; reflexivity|reflexivity..]. }
  apply rtc_refl.
Qed.

Lemma two_toggles_finished :
  finished [mkThread (PRet (SuccessResponse StatusOK "Task toggled successfully" (PTask (toggle_row 200 milk)))) 200;
            mkThread (PRet (SuccessResponse StatusOK "Task toggled successfully"
                              (PTask (toggle_row 300 (toggle_row 200 milk))))) 300].
Proof. repeat (constructor; [eexists; reflexivity|]). constructor. Qed.

Lemma toggles_no_lost_update_witness :
  exists ths' db', rtc cstep (mkThread (ToggleComplete_prog 1 "1") <$> [200; 300], sample_db) (ths', db') /\
    exists t', db' = with_tasks sample_db (<[1 := t']> (tasks sample_db)) /\
      Task.IsCompleted t' = xorb false (Nat.odd (length (List.filter toggled ths'))).
Proof.
  destruct two_toggles_run as [db' Hr]. eexists _, db'. split; [exact Hr|].
  apply (toggles_no_lost_update 1 "1" 1 milk [200; 300] sample_db _ db');
    [wf_sample|reflexivity|vm_compute; reflexivity|reflexivity|exact Hr|exact two_toggles_finished].
Defined.

Lemma GetStats_not_snapshot_witness :
  exists s db',
    rtc cstep ([mkThread (GetStats_prog 1) 200; mkThread (ToggleComplete_prog 1 "1") 300], sample_db)
      ([mkThread (PRet (SuccessResponse StatusOK "Statistics retrieved successfully" (PStats s))) 200;
        mkThread (PRet (SuccessResponse StatusOK "Task toggled successfully" (PTask (toggle_row 300 milk)))) 300],
       db') /\
    TaskStats.Completed s + TaskStats.Pending s + 1 = TaskStats.Total s.
Proof.
  apply (GetStats_not_snapshot 1 "1" 1 milk sample_db 200 300);
    [wf_sample|reflexivity|vm_compute; reflexivity|reflexivity|reflexivity].
Defined.

(** A toggle and a profile request of the same user, both served
    concurrently. *)
Definition toggle_request : Request := mkRequest PATCH "/api/v1/tasks/1/complete" "Bearer t" [] "".
Definition profile_request : Request := mkRequest GET "/api/v1/auth/profile" "Bearer t" [] "".

Lemma serve_serializable_witness :
  exists ths' db',
    rtc sstep ([mkThread (serve_prog "secret" "s" toggle_request) 200;
                mkThread (serve_prog "secret" "s" profile_request) 300], sample_db) (ths', db').
Proof.
  destruct (pool_completes [mkThread (serve_prog "secret" "s" toggle_request) 200;
                            mkThread (serve_prog "secret" "s" profile_request) 300] sample_db)
    as (ths' & db' & Hr & Hf).
  exists ths', db'. apply (serve_serializable _ _ _ _); [|exact Hr|exact Hf].
  constructor; [|constructor; [|constructor]];
    do 3 eexists; (split; [|reflexivity]); vm_compute; reflexivity.
Defined.
